(** * valorstone-db-docs: the schema graph engine, duplication and share
    resolver of [app.py], embedded in Rocq.

    The Flask handlers of [app.py] are embedded as computations in a small
    state-and-abort monad over a [World]: the per-PIN JSON files, the global
    share file, the outcomes of [uuid.uuid4()] and the clock.  A Python
    [dict] is an insertion-ordered association list with unique keys
    ([Dict]); a Python [set] is a [gset]. *)

From Stdlib Require Import ZArith String Ascii.
From stdpp Require Import base decidable option list strings gmap sets.

Local Open Scope Z_scope.
Local Open Scope nat_scope.

(** ** Python dictionaries *)

(** [dict V] is [Dict[str, V]]: the items in insertion order.  Python keeps
    the keys of a dictionary unique; [Dict.wf] states it. *)
Abbreviation dict V := (list (string * V)).

Module Dict.
Section ops.
Context {V : Type}.
Implicit Types d : dict V.

(** [d.keys()], [d.values()] *)
Definition keys d : list string := d.*1.
Definition values d : list V := d.*2.

Definition wf d : Prop := NoDup (keys d).

(** [d.get(k)] *)
Fixpoint get d (k : string) : option V :=
  match d with
  | [] => None
  | (k', v) :: d' => if decide (k' = k) then Some v else get d' k
  end.

(** [k in d] *)
Definition mem (k : string) d : bool := bool_decide (k ∈ keys d).

(** [d[k] = v]: an existing key keeps its place, a new one goes last. *)
Fixpoint set d (k : string) (v : V) : dict V :=
  match d with
  | [] => [(k, v)]
  | (k', v') :: d' =>
      if decide (k' = k) then (k', v) :: d' else (k', v') :: set d' k v
  end.

(** [d.pop(k, None)], the value dropped *)
Definition pop d (k : string) : dict V :=
  filter (λ kv, kv.1 ≠ k) d.

(** [for k in ks: d.pop(k, None)] *)
Definition pop_all d (ks : list string) : dict V :=
  foldl pop d ks.
End ops.
End Dict.

(** ** Models (the dataclasses of [app.py]) *)

Module Link.
Record t := mk {
  id : string;
  from_type : string;   (* 'table' | 'column' *)
  from_id : string;
  to_type : string;
  to_id : string;
  note : string }.
End Link.

Module ForeignRef.
Record t := mk {
  table_id : string;
  column_id : string;
  note : string }.
End ForeignRef.

Module Column.
Record t := mk {
  id : string;
  name : string;
  datatype : string;
  is_primary : bool;
  is_nullable : bool;
  default : option string;
  note : string;
  foreign_ref : option ForeignRef.t;
  order : Z }.
End Column.

Module Table.
Record t := mk {
  id : string;
  name : string;
  note : string;
  columns : dict Column.t }.
End Table.

(** The diagram is an opaque JSON object owned by the client. *)
#[local] Unset Elimination Schemes.
Inductive json :=
  | JNull
  | JBool (b : bool)
  | JNum (n : Z)
  | JStr (s : string)
  | JArr (l : list json)
  | JObj (l : list (string * json)).
#[local] Set Elimination Schemes.

Module Database.
Record t := mk {
  id : string;
  name : string;
  note : string;
  tables : dict Table.t;
  links : dict Link.t;
  diagram : list (string * json) }.
End Database.

(** Timestamps ([time.time()]) are kept as opaque numbers. *)
Definition timestamp := Z.

Module DocNote.
Record t := mk {
  id : string;
  start_line : Z;
  end_line : Z;
  text : string;
  author : string;
  created_at : timestamp }.
End DocNote.

Module Document.
Record t := mk {
  id : string;
  name : string;
  parent_id : option string;   (* folder id *)
  content : string;
  notes : dict DocNote.t;
  updated_at : timestamp }.
End Document.

Module DocFolder.
Record t := mk {
  id : string;
  name : string;
  parent_id : option string }.
End DocFolder.

Module DocShare.
Record t := mk {
  id : string;   (* token *)
  pin : string;
  kind : string;   (* 'doc' | 'folder' *)
  target_id : string;   (* doc_id or folder_id *)
  created_at : timestamp }.
End DocShare.

(** Record updates ([obj.field = value]). *)
Definition Column_with_foreign_ref (c : Column.t) (fr : option ForeignRef.t) : Column.t :=
  Column.mk (Column.id c) (Column.name c) (Column.datatype c)
    (Column.is_primary c) (Column.is_nullable c) (Column.default c)
    (Column.note c) fr (Column.order c).

Definition Table_with_columns (t : Table.t) (cols : dict Column.t) : Table.t :=
  Table.mk (Table.id t) (Table.name t) (Table.note t) cols.

Definition Database_with_tables (db : Database.t) (ts : dict Table.t) : Database.t :=
  Database.mk (Database.id db) (Database.name db) (Database.note db) ts
    (Database.links db) (Database.diagram db).

Definition Database_with_links (db : Database.t) (ls : dict Link.t) : Database.t :=
  Database.mk (Database.id db) (Database.name db) (Database.note db)
    (Database.tables db) ls (Database.diagram db).

Definition DocFolder_with_name (f : DocFolder.t) (n : string) : DocFolder.t :=
  DocFolder.mk (DocFolder.id f) n (DocFolder.parent_id f).

Definition DocFolder_with_parent_id (f : DocFolder.t) (p : option string) : DocFolder.t :=
  DocFolder.mk (DocFolder.id f) (DocFolder.name f) p.

Definition Document_with_notes (d : Document.t) (ns : dict DocNote.t) : Document.t :=
  Document.mk (Document.id d) (Document.name d) (Document.parent_id d)
    (Document.content d) ns (Document.updated_at d).

(** ** The world of a request *)

(** One [.pin_data/<pin>.json] file: the databases and the two reserved keys
    [doc_folders] and [documents]. *)
Record TenantState := mkTenant {
  dbs : dict Database.t;
  doc_folders : dict DocFolder.t;
  documents : dict Document.t }.

Inductive error :=
  | Unauthorized   (* abort(401) *)
  | NotFound       (* abort(404) *)
  | InvalidInput   (* abort(400) *)
  | Forbidden      (* abort(403) *)
  | ServerError.   (* an uncaught exception, 500 *)

(** [uuid4_hi i] is the leading 32 bits of the [i]-th [uuid.uuid4()] of the
    process, [uuid4_calls] how many were drawn so far; [now] is the clock. *)
Record World := mkWorld {
  files : gmap string TenantState;
  shares_file : dict DocShare.t;
  uuid4_hi : nat → N;
  uuid4_calls : nat;
  now : timestamp }.

(** [OutOfFuel] is not an answer of the server: it is a loop of the model
    that was still running when its fuel was spent. *)
Inductive result (A : Type) :=
  | Ok (a : A)
  | Abort (e : error)
  | OutOfFuel.
Global Arguments Ok {A} a.
Global Arguments Abort {A} e.
Global Arguments OutOfFuel {A}.

(** A handler runs on the world and either answers, leaving a new world, or
    aborts; every handler saves as its last step, so an aborted request
    leaves the files as they were. *)
Definition M (A : Type) : Type := World → result (A * World).

Global Instance M_ret : MRet M := λ A a w, Ok (a, w).
Global Instance M_bind : MBind M := λ A B f m w,
  match m w with
  | Ok (a, w') => f a w'
  | Abort e => Abort e
  | OutOfFuel => OutOfFuel
  end.

Definition abort {A} (e : error) : M A := λ _, Abort e.

Definition or_abort {A} (e : error) (o : option A) : M A :=
  match o with Some a => mret a | None => abort e end.

(** What the server holds after a request. *)
Definition serve {A} (h : M A) (w : World) : World :=
  match h w with
  | Ok (_, w') => w'
  | _ => w
  end.

(** The answer of a request that was served. *)
Definition answer {A} (r : result (A * World)) : option A :=
  match r with
  | Ok (a, _) => Some a
  | _ => None
  end.

(** *** Identity generator *)

Definition hex_digit (n : N) : ascii :=
  match n with
  | 0 => "0" | 1 => "1" | 2 => "2" | 3 => "3" | 4 => "4" | 5 => "5"
  | 6 => "6" | 7 => "7" | 8 => "8" | 9 => "9" | 10 => "a" | 11 => "b"
  | 12 => "c" | 13 => "d" | 14 => "e" | _ => "f"
  end%N%char.

Definition nibble (v : N) (i : N) : ascii :=
  hex_digit (N.land (N.shiftr v (4 * i)) 15).

(** [uuid.uuid4().hex[:8]] *)
Definition hex8 (v : N) : string :=
  String (nibble v 7) (String (nibble v 6) (String (nibble v 5)
  (String (nibble v 4) (String (nibble v 3) (String (nibble v 2)
  (String (nibble v 1) (String (nibble v 0) EmptyString))))))).

Definition gen_id : M string := λ w,
  Ok (hex8 (uuid4_hi w (uuid4_calls w)),
      mkWorld (files w) (shares_file w) (uuid4_hi w) (S (uuid4_calls w)) (now w)).

(** *** Python truthiness and string helpers *)

Definition truthy (s : string) : bool := bool_decide (s ≠ EmptyString).

(** [o or d] for an optional string *)
Definition str_or (o : option string) (d : string) : string :=
  match o with
  | Some s => if truthy s then s else d
  | None => d
  end.

Definition is_space (c : ascii) : bool :=
  let n := nat_of_ascii c in
  bool_decide (n = 32 ∨ (9 ≤ n ∧ n ≤ 13) ∨ (28 ≤ n ∧ n ≤ 31)).

Fixpoint lstrip (s : string) : string :=
  match s with
  | String c s' => if is_space c then lstrip s' else s
  | EmptyString => EmptyString
  end.

Fixpoint rstrip (s : string) : string :=
  match s with
  | String c s' =>
      match rstrip s' with
      | EmptyString => if is_space c then EmptyString else String c EmptyString
      | r => String c r
      end
  | EmptyString => EmptyString
  end.

(** [s.strip()], on the ASCII whitespace *)
Definition strip (s : string) : string := rstrip (lstrip s).

(** *** Storage layer (per PIN) *)

(** The files are kept by PIN: one entry of [files] for each
    [.pin_data/<pin>.json], and [shares_file] beside them.  This is the data
    directory as long as the PINs name files of their own, which [pin_path]
    does not check: see [plain_pin]. *)

Definition get_pin (cookie : option string) : option string := cookie.

(** [pin = get_pin(); if not pin: abort(401)] *)
Definition require_pin (cookie : option string) : M string :=
  match get_pin cookie with
  | Some pin => if truthy pin then mret pin else abort Unauthorized
  | None => abort Unauthorized
  end.

Definition tenant (w : World) (pin : string) : TenantState :=
  default (mkTenant [] [] []) (files w !! pin).

Definition load_state (pin : string) : M (dict Database.t) :=
  λ w, Ok (dbs (tenant w pin), w).

Definition get_state_or_init (pin : string) : M (dict Database.t) :=
  load_state pin.

(** [save_state] rewrites the databases and preserves the documents and the
    folders of the file. *)
Definition save_state (pin : string) (ds : dict Database.t) : M unit :=
  λ w,
    let old := tenant w pin in
    Ok (tt, mkWorld (<[pin := mkTenant ds (doc_folders old) (documents old)]> (files w))
              (shares_file w) (uuid4_hi w) (uuid4_calls w) (now w)).

Definition load_docs (pin : string) : M (dict DocFolder.t * dict Document.t) :=
  λ w, Ok ((doc_folders (tenant w pin), documents (tenant w pin)), w).

Definition save_docs (pin : string) (fs : dict DocFolder.t) (ds : dict Document.t) : M unit :=
  λ w,
    let old := tenant w pin in
    Ok (tt, mkWorld (<[pin := mkTenant (dbs old) fs ds]> (files w))
              (shares_file w) (uuid4_hi w) (uuid4_calls w) (now w)).

Definition load_shares : M (dict DocShare.t) := λ w, Ok (shares_file w, w).

Definition time_time : M timestamp := λ w, Ok (now w, w).

(** ** Schema graph engine *)

(** The link tests of [delete_table] and [delete_column]. *)
Definition link_refs_table (t_id : string) (l : Link.t) : Prop :=
  (Link.from_type l = "table" ∧ Link.from_id l = t_id)
  ∨ (Link.to_type l = "table" ∧ Link.to_id l = t_id).

Definition link_refs_column_in (col_ids : list string) (l : Link.t) : Prop :=
  (Link.from_type l = "column" ∧ Link.from_id l ∈ col_ids)
  ∨ (Link.to_type l = "column" ∧ Link.to_id l ∈ col_ids).

Definition link_refs_column (c_id : string) (l : Link.t) : Prop :=
  (Link.from_type l = "column" ∧ Link.from_id l = c_id)
  ∨ (Link.to_type l = "column" ∧ Link.to_id l = c_id).

Global Instance link_refs_table_dec t_id l : Decision (link_refs_table t_id l).
Proof. unfold link_refs_table. apply _. Defined.
Global Instance link_refs_column_in_dec cs l : Decision (link_refs_column_in cs l).
Proof. unfold link_refs_column_in. apply _. Defined.
Global Instance link_refs_column_dec c_id l : Decision (link_refs_column c_id l).
Proof. unfold link_refs_column. apply _. Defined.

(** [[l_id for l_id, l in links.items() if test(l)]] *)
Definition link_ids_where (P : Link.t → Prop) `{∀ l, Decision (P l)}
    (ls : dict Link.t) : list string :=
  (filter (λ kl, P kl.2) ls).*1.

(** [POST /api/databases] *)
Definition create_database (cookie : option string) (name : option string)
    : M Database.t :=
  pin ← require_pin cookie;
  ds ← get_state_or_init pin;
  let name := str_or (Some (strip (default "New Database" name))) "New Database" in
  db_id ← gen_id;
  let db := Database.mk db_id name "" [] [] [] in
  _ ← save_state pin (Dict.set ds db_id db);
  mret db.

(** [POST /api/databases/<db_id>/tables] *)
Definition create_table (cookie : option string) (db_id : string)
    (name : option string) : M Table.t :=
  pin ← require_pin cookie;
  ds ← get_state_or_init pin;
  db ← or_abort NotFound (Dict.get ds db_id);
  let name := str_or (Some (strip (default "New Table" name))) "New Table" in
  t_id ← gen_id;
  let t := Table.mk t_id name "" [] in
  let db' := Database_with_tables db (Dict.set (Database.tables db) t_id t) in
  _ ← save_state pin (Dict.set ds db_id db');
  mret t.

(** [DELETE /api/databases/<db_id>/tables/<t_id>] *)
Definition delete_table (cookie : option string) (db_id t_id : string) : M unit :=
  pin ← require_pin cookie;
  ds ← get_state_or_init pin;
  db ← or_abort NotFound (Dict.get ds db_id);
  match Dict.get (Database.tables db) t_id with
  | Some t =>
      (* remove links that reference this table or its columns *)
      let to_remove := link_ids_where (link_refs_table t_id) (Database.links db) in
      let links1 := Dict.pop_all (Database.links db) to_remove in
      (* remove columns links *)
      let col_ids := Dict.keys (Table.columns t) in
      let to_remove2 := link_ids_where (link_refs_column_in col_ids) links1 in
      let links2 := Dict.pop_all links1 to_remove2 in
      let db' := Database_with_tables (Database_with_links db links2)
                   (Dict.pop (Database.tables db) t_id) in
      _ ← save_state pin (Dict.set ds db_id db');
      mret tt
  | None => abort NotFound
  end.

(** The JSON body of a column request; [None] is an absent key. *)
Record ForeignRefData := mkForeignRefData {
  frd_table_id : option string;
  frd_column_id : option string;
  frd_note : option string }.

Record ColumnData := mkColumnData {
  cd_name : option string;
  cd_datatype : option string;
  cd_is_primary : option bool;
  cd_is_nullable : option bool;
  cd_default : option string;
  cd_note : option string;
  cd_foreign_ref : option ForeignRefData }.

(** [if fr_raw.get("table_id") and fr_raw.get("column_id"): ForeignRef(...)] *)
Definition parse_foreign_ref (raw : option ForeignRefData) : option ForeignRef.t :=
  match raw with
  | Some fr_raw =>
      match frd_table_id fr_raw, frd_column_id fr_raw with
      | Some t, Some c =>
          if truthy t && truthy c
          then Some (ForeignRef.mk t c (default "" (frd_note fr_raw)))
          else None
      | _, _ => None
      end
  | None => None
  end.

(** [max(xs, default=d)] *)
Definition py_max (d : Z) (xs : list Z) : Z :=
  match xs with
  | [] => d
  | x :: xs' => foldl Z.max x xs'
  end.

(** The order of the next column of a table: [max(order) + 1], and [0] for
    a table without columns.  The orders are integers, so the [except]
    branch of the source is never taken. *)
Definition next_order (cols : dict Column.t) : Z :=
  match cols with
  | [] => 0%Z
  | _ => (py_max (-1) (Column.order <$> Dict.values cols) + 1)%Z
  end.

(** [POST /api/databases/<db_id>/tables/<t_id>/columns] *)
Definition create_column (cookie : option string) (db_id t_id : string)
    (data : ColumnData) : M Column.t :=
  pin ← require_pin cookie;
  ds ← get_state_or_init pin;
  db ← or_abort NotFound (Dict.get ds db_id);
  t ← or_abort NotFound (Dict.get (Database.tables db) t_id);
  let name := str_or (Some (strip (str_or (cd_name data) "column"))) "column" in
  c_id ← gen_id;
  let fr := parse_foreign_ref (cd_foreign_ref data) in
  (* compute next order so newest appears at the bottom *)
  let col := Column.mk c_id name
               (default "TEXT" (cd_datatype data))
               (default false (cd_is_primary data))
               (default true (cd_is_nullable data))
               (cd_default data)
               (default "" (cd_note data))
               fr
               (next_order (Table.columns t)) in
  let t' := Table_with_columns t (Dict.set (Table.columns t) c_id col) in
  let db' := Database_with_tables db (Dict.set (Database.tables db) t_id t') in
  _ ← save_state pin (Dict.set ds db_id db');
  mret col.

(** [DELETE /api/databases/<db_id>/tables/<t_id>/columns/<c_id>] *)
Definition delete_column (cookie : option string) (db_id t_id c_id : string) : M unit :=
  pin ← require_pin cookie;
  ds ← get_state_or_init pin;
  db ← or_abort NotFound (Dict.get ds db_id);
  t ← or_abort NotFound (Dict.get (Database.tables db) t_id);
  if Dict.mem c_id (Table.columns t) then
    (* remove links referencing this column *)
    let to_remove := link_ids_where (link_refs_column c_id) (Database.links db) in
    let links1 := Dict.pop_all (Database.links db) to_remove in
    let t' := Table_with_columns t (Dict.pop (Table.columns t) c_id) in
    let db' := Database_with_tables (Database_with_links db links1)
                 (Dict.set (Database.tables db) t_id t') in
    _ ← save_state pin (Dict.set ds db_id db');
    mret tt
  else abort NotFound.

(** [POST /api/databases/<db_id>/links] *)
Record LinkData := mkLinkData {
  ld_from_type : option string;
  ld_from_id : option string;
  ld_to_type : option string;
  ld_to_id : option string;
  ld_note : option string }.

Definition create_link (cookie : option string) (db_id : string)
    (data : LinkData) : M Link.t :=
  pin ← require_pin cookie;
  ds ← get_state_or_init pin;
  db ← or_abort NotFound (Dict.get ds db_id);
  l_id ← gen_id;
  match ld_from_id data, ld_to_id data with
  | Some from_id, Some to_id =>
      if truthy from_id && truthy to_id then
        let link := Link.mk l_id (default "table" (ld_from_type data)) from_id
                      (default "table" (ld_to_type data)) to_id
                      (default "" (ld_note data)) in
        let db' := Database_with_links db (Dict.set (Database.links db) l_id link) in
        _ ← save_state pin (Dict.set ds db_id db');
        mret link
      else abort InvalidInput
  | _, _ => abort InvalidInput
  end.

(** ** Duplication engine *)

(** Monadic [for x in xs: ...] threading the loop's variables. *)
Fixpoint for_each {A S} (xs : list A) (body : S → A → M S) (s : S) : M S :=
  match xs with
  | [] => mret s
  | x :: xs' => s' ← body s x; for_each xs' body s'
  end.

(** The copied column: every scalar field but [order], which takes the
    dataclass default, and no foreign reference yet. *)
Definition copy_column (c_new_id : string) (c : Column.t) : Column.t :=
  Column.mk c_new_id (Column.name c) (Column.datatype c)
    (Column.is_primary c) (Column.is_nullable c) (Column.default c)
    (Column.note c) None 0%Z.

Definition pending_ref : Type := string * string * ForeignRef.t.

(** The variables of the first pass: the tables of [new_db], the two id
    maps and the deferred references. *)
Record pass1 := mkPass1 {
  new_tables : dict Table.t;
  table_id_map : dict string;
  col_id_map : dict string;
  pending_refs : list pending_ref }.

(** The inner loop of the first pass, over the columns of one table; its
    variables are the columns of [new_table], [col_id_map] and
    [pending_refs]. *)
Definition copy_column_step (t_new_id : string)
    (s : dict Column.t * dict string * list pending_ref)
    (kc : string * Column.t) : M (dict Column.t * dict string * list pending_ref) :=
  let '(new_columns, col_map, pending) := s in
  let '(c_old_id, c) := kc in
  c_new_id ← gen_id;
  let col_map := Dict.set col_map c_old_id c_new_id in
  let new_columns := Dict.set new_columns c_new_id (copy_column c_new_id c) in
  let pending :=
    match Column.foreign_ref c with
    | Some fr => pending ++ [(t_new_id, c_new_id, fr)]
    | None => pending
    end in
  mret (new_columns, col_map, pending).

(** The outer loop.  [new_table] is put into [new_db.tables] before its
    columns are added to it; nothing else touches [new_db.tables] in
    between, so the table is stored here with its columns. *)
Definition copy_table_step (s : pass1) (kt : string * Table.t) : M pass1 :=
  let '(t_old_id, t) := kt in
  t_new_id ← gen_id;
  let table_map := Dict.set (table_id_map s) t_old_id t_new_id in
  '(new_columns, col_map, pending) ←
     for_each (Table.columns t) (copy_column_step t_new_id)
       ([], col_id_map s, pending_refs s);
  let new_table := Table.mk t_new_id (Table.name t) (Table.note t) new_columns in
  mret (mkPass1 (Dict.set (new_tables s) t_new_id new_table) table_map col_map pending).

(** [new_db.tables[t_new_id].columns[c_new_id].foreign_ref = ...]; a
    missing key raises [KeyError]. *)
Definition resolve_ref_step (table_map col_map : dict string)
    (ts : dict Table.t) (p : pending_ref) : M (dict Table.t) :=
  let '(t_new_id, c_new_id, fr) := p in
  match Dict.get table_map (ForeignRef.table_id fr),
        Dict.get col_map (ForeignRef.column_id fr) with
  | Some mapped_t, Some mapped_c =>
      if truthy mapped_t && truthy mapped_c then
        t ← or_abort ServerError (Dict.get ts t_new_id);
        c ← or_abort ServerError (Dict.get (Table.columns t) c_new_id);
        let c' := Column_with_foreign_ref c
                    (Some (ForeignRef.mk mapped_t mapped_c (ForeignRef.note fr))) in
        let t' := Table_with_columns t (Dict.set (Table.columns t) c_new_id c') in
        mret (Dict.set ts t_new_id t')
      else mret ts
  | _, _ => mret ts
  end.

(** [table_id_map.get(id, id)] or [col_id_map.get(id, id)] by the type of
    the endpoint, and the id itself for any other type. *)
Definition remap_endpoint (table_map col_map : dict string)
    (ty id : string) : string :=
  if decide (ty = "table") then default id (Dict.get table_map id)
  else if decide (ty = "column") then default id (Dict.get col_map id)
  else id.

(** The copied link. *)
Definition copy_link (table_map col_map : dict string)
    (new_l_id : string) (l : Link.t) : Link.t :=
  let from_id_new := remap_endpoint table_map col_map (Link.from_type l) (Link.from_id l) in
  let to_id_new := remap_endpoint table_map col_map (Link.to_type l) (Link.to_id l) in
  Link.mk new_l_id (Link.from_type l) from_id_new
    (Link.to_type l) to_id_new (Link.note l).

Definition remap_link_step (table_map col_map : dict string)
    (new_links : dict Link.t) (kl : string * Link.t) : M (dict Link.t) :=
  let '(_, l) := kl in
  new_l_id ← gen_id;
  mret (Dict.set new_links new_l_id (copy_link table_map col_map new_l_id l)).

(** The body of [duplicate_database] between the lookup of [src] and the
    store into [dbs]; it also hands out the two id maps. *)
Definition duplicate (src : Database.t) : M (Database.t * dict string * dict string) :=
  (* New database id and structure *)
  new_db_id ← gen_id;
  (* First pass: create tables and columns with new ids, but defer foreign_ref *)
  p ← for_each (Database.tables src) copy_table_step (mkPass1 [] [] [] []);
  (* Resolve foreign refs *)
  ts ← for_each (pending_refs p)
         (resolve_ref_step (table_id_map p) (col_id_map p)) (new_tables p);
  (* Remap links too (if any exist) *)
  ls ← for_each (Database.links src)
         (remap_link_step (table_id_map p) (col_id_map p)) [];
  mret (Database.mk new_db_id (Database.name src +:+ " (copy)") (Database.note src)
          ts ls [],
        table_id_map p, col_id_map p).

(** [POST /api/databases/<db_id>/duplicate] *)
Definition duplicate_database (cookie : option string) (db_id : string) : M Database.t :=
  pin ← require_pin cookie;
  ds ← get_state_or_init pin;
  src ← or_abort NotFound (Dict.get ds db_id);
  '(new_db, _, _) ← duplicate src;
  _ ← save_state pin (Dict.set ds (Database.id new_db) new_db);
  mret new_db.

(** ** Document tree store *)

Record FolderData := mkFolderData {
  fd_name : option string;
  fd_parent_id : option string }.

(** [data.get("parent_id") or None] *)
Definition or_none (o : option string) : option string :=
  match o with
  | Some s => if truthy s then Some s else None
  | None => None
  end.

(** [pid and pid not in folders] *)
Definition dangling_parent {V} (pid : option string) (folders : dict V) : bool :=
  match pid with
  | Some p => truthy p && negb (Dict.mem p folders)
  | None => false
  end.

(** [POST /api/docs/folders] *)
Definition api_create_folder (cookie : option string) (data : FolderData) : M DocFolder.t :=
  pin ← require_pin cookie;
  '(folders, docs) ← load_docs pin;
  let name := str_or (Some (strip (str_or (fd_name data) "New Folder"))) "New Folder" in
  let parent_id := or_none (fd_parent_id data) in
  if dangling_parent parent_id folders then abort InvalidInput
  else
    fid ← gen_id;
    let f := DocFolder.mk fid name parent_id in
    _ ← save_docs pin (Dict.set folders fid f) docs;
    mret f.

(** The body of a folder patch: [None] is an absent key, [Some None] a
    [parent_id] given as [null]. *)
Record FolderPatch := mkFolderPatch {
  fp_name : option string;
  fp_parent_id : option (option string) }.

(** [PATCH /api/docs/folders/<fid>] *)
Definition api_update_folder (cookie : option string) (fid : string)
    (data : FolderPatch) : M DocFolder.t :=
  pin ← require_pin cookie;
  '(folders, docs) ← load_docs pin;
  f ← or_abort NotFound (Dict.get folders fid);
  let f :=
    match fp_name data with
    | Some n => DocFolder_with_name f (str_or (Some (strip n)) (DocFolder.name f))
    | None => f
    end in
  f ← match fp_parent_id data with
      | Some pid =>
          if dangling_parent pid folders then abort InvalidInput
          else mret (DocFolder_with_parent_id f pid)
      | None => mret f
      end;
  _ ← save_docs pin (Dict.set folders fid f) docs;
  mret f.

(** [any(d.parent_id == fid for d in documents.values())] and
    [any(f.parent_id == fid for f in folders.values() if f.id != fid)] *)
Definition has_child_document (fid : string) (docs : dict Document.t) : bool :=
  bool_decide (Exists (λ d, Document.parent_id d = Some fid) (Dict.values docs)).

Definition has_child_folder (fid : string) (folders : dict DocFolder.t) : bool :=
  bool_decide (Exists (λ f, DocFolder.parent_id f = Some fid)
                 (filter (λ f, DocFolder.id f ≠ fid) (Dict.values folders))).

(** [DELETE /api/docs/folders/<fid>] *)
Definition api_delete_folder (cookie : option string) (fid : string) : M unit :=
  pin ← require_pin cookie;
  '(folders, docs) ← load_docs pin;
  if negb (Dict.mem fid folders) then abort NotFound
  else
    (* prevent delete if contains items *)
    if has_child_document fid docs || has_child_folder fid folders
    then abort InvalidInput
    else
      _ ← save_docs pin (Dict.pop folders fid) docs;
      mret tt.

Record DocData := mkDocData {
  dd_name : option string;
  dd_parent_id : option string;
  dd_content : option string }.

(** [POST /api/docs] *)
Definition api_create_doc (cookie : option string) (data : DocData) : M Document.t :=
  pin ← require_pin cookie;
  '(folders, docs) ← load_docs pin;
  let name := str_or (Some (strip (str_or (dd_name data) "Untitled"))) "Untitled" in
  let parent_id := or_none (dd_parent_id data) in
  if dangling_parent parent_id folders then abort InvalidInput
  else
    did ← gen_id;
    let content :=
      str_or (dd_content data)
        ("# " +:+ name +:+ String "010" (String "010" ("Start writing..." +:+ String "010" ""))) in
    t ← time_time;
    let d := Document.mk did name parent_id content [] t in
    _ ← save_docs pin folders (Dict.set docs did d);
    mret d.

(** [DELETE /api/docs/<doc_id>] *)
Definition api_delete_doc (cookie : option string) (doc_id : string) : M unit :=
  pin ← require_pin cookie;
  '(folders, docs) ← load_docs pin;
  if negb (Dict.mem doc_id docs) then abort NotFound
  else
    _ ← save_docs pin folders (Dict.pop docs doc_id);
    mret tt.

(** ** Sharing *)

(** [_shared_context] *)
Definition _shared_context (token : string)
    : M (DocShare.t * dict DocFolder.t * dict Document.t) :=
  shares ← load_shares;
  s ← or_abort NotFound (Dict.get shares token);
  '(folders, docs) ← load_docs (DocShare.pin s);
  mret (s, folders, docs).

(** [pending.pop()] *)
Definition pop_last {A} (l : list A) : option (list A * A) :=
  match reverse l with
  | [] => None
  | x :: r => Some (reverse r, x)
  end.

(** The folders that one round of the loop appends to [pending]. *)
Definition unvisited_children (folders : dict DocFolder.t) (x : string)
    (subtree : gset string) : list string :=
  (filter (λ kf, DocFolder.parent_id kf.2 = Some x ∧ kf.1 ∉ subtree) folders).*1.

(** The subtree loop, which the five share handlers repeat verbatim:
[[
    while pending:
        x = pending.pop()
        subtree.add(x)
        for fid, f in folders.items():
            if f.parent_id == x and fid not in subtree:
                pending.append(fid)
]]
    The source puts no bound on the loop; [fuel] counts its rounds and
    [None] is a loop still running when the fuel is spent. *)
Fixpoint subtree_loop (fuel : nat) (folders : dict DocFolder.t)
    (subtree : gset string) (pending : list string) : option (gset string) :=
  match fuel with
  | 0 => None
  | S fuel' =>
      match pop_last pending with
      | None => Some subtree
      | Some (pending, x) =>
          let subtree := {[x]} ∪ subtree in
          let pending := pending ++ unvisited_children folders x subtree in
          subtree_loop fuel' folders subtree pending
      end
  end.

(** [subtree = set(); root = s.target_id; pending = [root]; while ...] *)
Definition resolve_subtree (fuel : nat) (folders : dict DocFolder.t)
    (root : string) : M (gset string) :=
  λ w, match subtree_loop fuel folders ∅ [root] with
       | Some subtree => Ok (subtree, w)
       | None => OutOfFuel
       end.

(** [p in subtree] and [p == root] for an optional parent id *)
Definition opt_in (p : option string) (subtree : gset string) : bool :=
  match p with
  | Some x => bool_decide (x ∈ subtree)
  | None => false
  end.

Definition opt_is (p : option string) (root : string) : bool :=
  bool_decide (p = Some root).

(** [get_pin() == s.pin] *)
Definition can_edit (cookie : option string) (s : DocShare.t) : bool :=
  bool_decide (get_pin cookie = Some (DocShare.pin s)).

(** [GET /s/d/<token>] *)
Definition shared_doc (cookie : option string) (token : string)
    : M (Document.t * bool) :=
  '(s, folders, docs) ← _shared_context token;
  if negb (bool_decide (DocShare.kind s = "doc")) then abort NotFound
  else
    doc ← or_abort NotFound (Dict.get docs (DocShare.target_id s));
    (* read-only unless cookie matches pin *)
    mret (doc, can_edit cookie s).

(** [GET /s/f/<token>/d/<doc_id>] *)
Definition shared_folder_doc (fuel : nat) (cookie : option string)
    (token doc_id : string) : M (Document.t * bool) :=
  '(s, folders, docs) ← _shared_context token;
  if negb (bool_decide (DocShare.kind s = "folder")) then abort NotFound
  else
    doc ← or_abort NotFound (Dict.get docs doc_id);
    (* ensure doc is within subtree of shared folder *)
    let root := DocShare.target_id s in
    subtree ← resolve_subtree fuel folders root;
    if negb (opt_in (Document.parent_id doc) subtree)
       && negb (opt_is (Document.parent_id doc) root)
    then abort Forbidden
    else mret (doc, can_edit cookie s).

(** [GET /s/f/<token>/f/<folder_id>] *)
Definition shared_folder_sub (fuel : nat) (cookie : option string)
    (token folder_id : string) : M (string * bool) :=
  '(s, folders, docs) ← _shared_context token;
  if negb (bool_decide (DocShare.kind s = "folder")) then abort NotFound
  else
    (* ensure folder is within subtree of shared root *)
    let root := DocShare.target_id s in
    subtree ← resolve_subtree fuel folders root;
    if negb (bool_decide (folder_id ∈ subtree))
       && negb (bool_decide (folder_id = root))
    then abort Forbidden
    else mret (folder_id, can_edit cookie s).

(** An integer field of a JSON body, as [int(data.get(key, default))] sees
    it. *)
Inductive int_field :=
  | IntAbsent
  | IntBad           (* [int()] raises *)
  | IntOk (z : Z).

Record NoteData := mkNoteData {
  nd_start_line : int_field;
  nd_end_line : int_field;
  nd_text : option string;
  nd_author : option string }.

(** [start_line = int(data.get("start_line", 1));
     end_line = int(data.get("end_line", start_line))], [None] when either
    raises *)
Definition parse_lines (data : NoteData) : option (Z * Z) :=
  match nd_start_line data with
  | IntBad => None
  | IntAbsent =>
      match nd_end_line data with
      | IntBad => None
      | IntAbsent => Some (1, 1)%Z
      | IntOk e => Some (1, e)%Z
      end
  | IntOk s =>
      match nd_end_line data with
      | IntBad => None
      | IntAbsent => Some (s, s)
      | IntOk e => Some (s, e)
      end
  end.

(** [POST /api/shared/d/<token>/<doc_id>/notes] *)
Definition api_shared_add_note (fuel : nat) (token doc_id : string)
    (data : NoteData) : M DocNote.t :=
  (* Readers can add notes via share token *)
  '(s, folders, docs) ← _shared_context token;
  if negb (bool_decide (DocShare.kind s = "doc")
           || bool_decide (DocShare.kind s = "folder")) then abort NotFound
  else
    d ← or_abort NotFound (Dict.get docs doc_id);
    (* If folder share, ensure doc is within subtree *)
    _ ← (if bool_decide (DocShare.kind s = "folder") then
           let root := DocShare.target_id s in
           subtree ← resolve_subtree fuel folders root;
           if negb (opt_in (Document.parent_id d) subtree)
              && negb (opt_is (Document.parent_id d) root)
           then abort Forbidden
           else mret tt
         else mret tt);
    '(start_line, end_line) ← or_abort InvalidInput (parse_lines data);
    let text := strip (str_or (nd_text data) "") in
    if negb (truthy text) then abort InvalidInput
    else
      let author := strip (str_or (nd_author data) "") in
      nid ← gen_id;
      t ← time_time;
      let n := DocNote.mk nid start_line end_line text author t in
      let d' := Document_with_notes d (Dict.set (Document.notes d) nid n) in
      (* Save to the pin that owns this share *)
      _ ← save_docs (DocShare.pin s) folders (Dict.set docs doc_id d');
      mret n.

(** [url_for('shared_folder_doc', ...)] and [url_for('shared_doc', ...)] *)
Inductive url :=
  | url_shared_folder_doc (token doc_id : string)
  | url_shared_doc (token : string).

(** [GET /api/shared/resolve/<token>/doc/<doc_id>]: the pair of [allowed]
    and [url]. *)
Definition api_shared_resolve_doc (fuel : nat) (token doc_id : string)
    : M (bool * option url) :=
  '(s, folders, docs) ← _shared_context token;
  d ← or_abort NotFound (Dict.get docs doc_id);
  if bool_decide (DocShare.kind s = "folder") then
    let root := DocShare.target_id s in
    subtree ← resolve_subtree fuel folders root;
    let allowed := opt_in (Document.parent_id d) subtree
                   || opt_is (Document.parent_id d) root in
    mret (allowed, if allowed then Some (url_shared_folder_doc token doc_id) else None)
  else
    (* doc share: only that doc is allowed *)
    let allowed := bool_decide (DocShare.kind s = "doc")
                   && bool_decide (DocShare.target_id s = doc_id) in
    mret (allowed, if allowed then Some (url_shared_doc token) else None).

(** The minimal records of the listing APIs. *)
Record FolderEntry := mkFolderEntry {
  fe_id : string; fe_name : string; fe_parent_id : option string }.
Record DocEntry := mkDocEntry {
  de_id : string; de_name : string; de_parent_id : option string;
  de_updated_at : timestamp }.

(** [GET /api/shared/f/<token>/state]: [folders], [documents] and [root].
    The folders are listed in the order in which the set hands out its
    elements. *)
Definition api_shared_docs_state (fuel : nat) (token : string)
    : M (dict FolderEntry * dict DocEntry * string) :=
  '(s, folders, docs) ← _shared_context token;
  if negb (bool_decide (DocShare.kind s = "folder")) then abort NotFound
  else
    (* build subtree folder ids *)
    let root := DocShare.target_id s in
    subtree ← resolve_subtree fuel folders root;
    (* include only folders in subtree and docs under them *)
    let mf :=
      omap (λ fid, (λ f, (fid, mkFolderEntry (DocFolder.id f) (DocFolder.name f)
                                 (DocFolder.parent_id f))) <$> Dict.get folders fid)
        (elements subtree) in
    let md :=
      (λ kd : string * Document.t,
         (kd.1, mkDocEntry (Document.id kd.2) (Document.name kd.2)
                  (Document.parent_id kd.2) (Document.updated_at kd.2)))
      <$> filter (λ kd : string * Document.t, opt_in (Document.parent_id kd.2) subtree
                        || opt_is (Document.parent_id kd.2) root) docs in
    mret (mf, md, root).

(** ** Predicates of the specification *)

(** The guard of [api_delete_folder]: a document in the folder, or a folder
    in it whose [id] is not the folder's own. *)
Definition folder_not_empty (fid : string) (folders : dict DocFolder.t)
    (docs : dict Document.t) : Prop :=
  (∃ d, d ∈ Dict.values docs ∧ Document.parent_id d = Some fid)
  ∨ (∃ f, f ∈ Dict.values folders ∧ DocFolder.id f ≠ fid
          ∧ DocFolder.parent_id f = Some fid).

(** The identifiers of the next [n] calls of [gen_id]. *)
Definition drawn_ids (w : World) (n : nat) : list string :=
  (λ i, hex8 (uuid4_hi w i)) <$> seq (uuid4_calls w) n.

(** One [create_column] request after the other on the same table. *)
Definition create_columns (cookie : option string) (db_id t_id : string)
    (datas : list ColumnData) : M (list Column.t) :=
  mapM (create_column cookie db_id t_id) datas.

(** [p] is the parent of the folder [x]. *)
Definition parent_step (folders : dict DocFolder.t) (x p : string) : Prop :=
  ∃ f, Dict.get folders x = Some f ∧ DocFolder.parent_id f = Some p.

(** Following [parent_id] from a folder never comes back to it. *)
Definition acyclic (folders : dict DocFolder.t) : Prop :=
  ∀ x, ¬ tc (parent_step folders) x x.

(** A sequence of folder requests of one tenant. *)
Inductive folder_op :=
  | FolderCreate (data : FolderData)
  | FolderUpdate (fid : string) (data : FolderPatch).

Definition folder_request (cookie : option string) (op : folder_op) : M unit :=
  match op with
  | FolderCreate data => _ ← api_create_folder cookie data; mret tt
  | FolderUpdate fid data => _ ← api_update_folder cookie fid data; mret tt
  end.

Definition folder_requests (cookie : option string) (ops : list folder_op) : M unit :=
  for_each ops (λ _ op, folder_request cookie op) tt.

(** What [api_update_folder] does not check: the new parent is neither the
    folder nor below it.  For a creation, the identifier drawn is new to
    the tree. *)
Definition folder_op_safe (pin : string) (w : World) (op : folder_op) : Prop :=
  let folders := doc_folders (tenant w pin) in
  match op with
  | FolderCreate _ =>
      let fid := hex8 (uuid4_hi w (uuid4_calls w)) in
      (fid ∉ Dict.keys folders)
      ∧ ∀ f, f ∈ Dict.values folders → DocFolder.parent_id f ≠ Some fid
  | FolderUpdate fid data =>
      ∀ p, fp_parent_id data = Some (Some p) →
           p ≠ fid ∧ ¬ tc (parent_step folders) p fid
  end.

Fixpoint folder_ops_safe (pin : string) (ops : list folder_op) (w : World) : Prop :=
  match ops with
  | [] => True
  | op :: ops' =>
      folder_op_safe pin w op
      ∧ match folder_request (Some pin) op w with
        | Ok (_, w') => folder_ops_safe pin ops' w'
        | _ => True
        end
  end.

(** The nodes the subtree loop can ever visit. *)
Definition subtree_universe (folders : dict DocFolder.t) (root : string) : gset string :=
  {[root]} ∪ list_to_set (Dict.keys folders).

(** The invariant of the subtree loop: [pending] holds distinct unvisited
    nodes, each the root before the first round or a child of a visited
    node; every visited node reaches the root; the children of the visited
    nodes are visited or pending. *)
Record subtree_loop_inv (folders : dict DocFolder.t) (root : string)
    (subtree : gset string) (pending : list string) : Prop := {
  inv_nodup : NoDup pending;
  inv_unvisited : ∀ x, x ∈ pending → x ∉ subtree;
  inv_origin :
    (pending = [root] ∧ subtree = ∅)
    ∨ ∀ x, x ∈ pending → ∃ p, parent_step folders x p ∧ p ∈ subtree;
  inv_sound : ∀ x, x ∈ subtree → rtc (parent_step folders) x root;
  inv_closed : ∀ x p, parent_step folders x p → p ∈ subtree →
                      x ∈ subtree ∨ x ∈ pending;
  inv_root : root ∈ subtree ∨ root ∈ pending;
  inv_universe : ∀ x, x ∈ subtree → x ∈ subtree_universe folders root }.
Global Arguments inv_nodup {_ _ _ _} _.
Global Arguments inv_unvisited {_ _ _ _} _.
Global Arguments inv_origin {_ _ _ _} _.
Global Arguments inv_sound {_ _ _ _} _.
Global Arguments inv_closed {_ _ _ _} _.
Global Arguments inv_root {_ _ _ _} _.
Global Arguments inv_universe {_ _ _ _} _.

(** A document is inside the shared tree when its parent folder is the
    root or reaches the root by following [parent_id]. *)
Definition within_share (folders : dict DocFolder.t) (root : string)
    (d : Document.t) : Prop :=
  ∃ p, Document.parent_id d = Some p ∧ rtc (parent_step folders) p root.

(** ** Duplication, specified *)

(** The world after [k] more calls of [gen_id]. *)
Definition skip_ids (k : nat) (w : World) : World :=
  mkWorld (files w) (shares_file w) (uuid4_hi w) (uuid4_calls w + k) (now w).

(** The identifiers of a copy in the order in which they are drawn: each
    table, then its columns. *)
Definition flat_ids (ts : dict Table.t) : list string :=
  ts ≫= λ kt, kt.1 :: Dict.keys (Table.columns kt.2).

Definition col_keys (ts : dict Table.t) : list string :=
  ts ≫= λ kt, Dict.keys (Table.columns kt.2).

(** The number of identifiers a duplication draws: the database, every
    table and column, every link. *)
Definition draws_needed (src : Database.t) : nat :=
  S (length (flat_ids (Database.tables src)) + length (Database.links src)).

(** The keys of the dictionaries of a database are unique. *)
Definition db_wf (db : Database.t) : Prop :=
  Dict.wf (Database.tables db)
  ∧ Forall (λ kt, Dict.wf (Table.columns kt.2)) (Database.tables db)
  ∧ Dict.wf (Database.links db).

(** An endpoint of a link, or the two halves of a foreign reference, name
    an entity of the database. *)
Definition endpoint_resolves (db : Database.t) (ty id : string) : Prop :=
  (ty = "table" ∧ id ∈ Dict.keys (Database.tables db))
  ∨ (ty = "column" ∧ id ∈ col_keys (Database.tables db)).

Global Instance endpoint_resolves_dec db ty id : Decision (endpoint_resolves db ty id).
Proof. unfold endpoint_resolves. apply _. Defined.

Definition ref_resolves (db : Database.t) (fr : ForeignRef.t) : Prop :=
  ForeignRef.table_id fr ∈ Dict.keys (Database.tables db)
  ∧ ForeignRef.column_id fr ∈ col_keys (Database.tables db).

Definition links_resolve (db : Database.t) : Prop :=
  ∀ k l, (k, l) ∈ Database.links db →
    endpoint_resolves db (Link.from_type l) (Link.from_id l)
    ∧ endpoint_resolves db (Link.to_type l) (Link.to_id l).

(** The identifiers of the tables and columns of a database. *)
Definition entity_ids (db : Database.t) : list string :=
  Dict.keys (Database.tables db) ++ col_keys (Database.tables db).

(** A column of the copy next to the column it was copied from: the scalar
    fields of [copy_column] under the new key. *)
Definition column_copied (kc kc' : string * Column.t) : Prop :=
  Column_with_foreign_ref kc'.2 None = copy_column kc'.1 kc.2.

Definition table_copied (table_map : dict string) (kt kt' : string * Table.t) : Prop :=
  Dict.get table_map kt.1 = Some kt'.1
  ∧ Table.id kt'.2 = kt'.1
  ∧ Table.name kt'.2 = Table.name kt.2
  ∧ Table.note kt'.2 = Table.note kt.2
  ∧ Forall2 column_copied (Table.columns kt.2) (Table.columns kt'.2).

(** The references that the inner loop defers for the columns [cols] placed
    under the new identifiers [ids] in the table [t_new_id]. *)
Definition deferred_refs (t_new_id : string) (ids : list string)
    (cols : dict Column.t) : list pending_ref :=
  omap (λ p : string * (string * Column.t),
          (λ fr, (t_new_id, p.1, fr)) <$> Column.foreign_ref p.2.2)
    (zip ids cols).

(** The invariant of the first pass, over the tables [done] copied so far
    from the world [w1] in which the pass began. *)
Record pass1_inv (w1 : World) (done : dict Table.t) (s : pass1) (w : World) : Prop := {
  p1_world : w = skip_ids (length (flat_ids done)) w1;
  p1_ids : flat_ids (new_tables s) = drawn_ids w1 (length (flat_ids done));
  p1_tables : Forall2 (table_copied (table_id_map s)) done (new_tables s);
  p1_table_dom : ∀ k, is_Some (Dict.get (table_id_map s) k) ↔ k ∈ Dict.keys done;
  p1_table_img : ∀ k v, Dict.get (table_id_map s) k = Some v →
                        v ∈ Dict.keys (new_tables s);
  p1_col_dom : ∀ k, is_Some (Dict.get (col_id_map s) k) ↔ k ∈ col_keys done;
  p1_col_img : ∀ k v, Dict.get (col_id_map s) k = Some v →
                      v ∈ col_keys (new_tables s);
  p1_pending : ∀ tk ck fr, (tk, ck, fr) ∈ pending_refs s →
    ∃ i t_old t t' j c_old c c',
      done !! i = Some (t_old, t) ∧ new_tables s !! i = Some (tk, t')
      ∧ Table.columns t !! j = Some (c_old, c)
      ∧ Table.columns t' !! j = Some (ck, c')
      ∧ Column.foreign_ref c = Some fr;
  p1_norefs : ∀ tk t ck c, (tk, t) ∈ new_tables s → (ck, c) ∈ Table.columns t →
                           Column.foreign_ref c = None }.
Global Arguments p1_norefs {_ _ _ _} _.
Global Arguments p1_world {_ _ _ _} _.
Global Arguments p1_ids {_ _ _ _} _.
Global Arguments p1_tables {_ _ _ _} _.
Global Arguments p1_table_dom {_ _ _ _} _.
Global Arguments p1_table_img {_ _ _ _} _.
Global Arguments p1_col_dom {_ _ _ _} _.
Global Arguments p1_col_img {_ _ _ _} _.
Global Arguments p1_pending {_ _ _ _} _.

(** Two tables under the same key with the same column keys. *)
Definition same_keys (kt kt' : string * Table.t) : Prop :=
  kt.1 = kt'.1
  ∧ Dict.keys (Table.columns kt.2) = Dict.keys (Table.columns kt'.2).

(** The invariant of the second pass: the tables keep their keys and their
    relation to the source, and a reference stored in a column was mapped
    from a deferred reference of that very column, already processed. *)
Record pass2_inv (src_tables : dict Table.t) (p : pass1) (w0 : World)
    (processed : list pending_ref) (ts : dict Table.t) (w : World) : Prop := {
  p2_world : w = w0;
  p2_tables : Forall2 (table_copied (table_id_map p)) src_tables ts;
  p2_keys : Forall2 same_keys (new_tables p) ts;
  p2_refs : ∀ tk t ck c r,
    (tk, t) ∈ ts → (ck, c) ∈ Table.columns t → Column.foreign_ref c = Some r →
    ∃ fr, (tk, ck, fr) ∈ processed
          ∧ Dict.get (table_id_map p) (ForeignRef.table_id fr)
            = Some (ForeignRef.table_id r)
          ∧ Dict.get (col_id_map p) (ForeignRef.column_id fr)
            = Some (ForeignRef.column_id r)
          ∧ ForeignRef.note r = ForeignRef.note fr }.
Global Arguments p2_world {_ _ _ _ _ _} _.
Global Arguments p2_tables {_ _ _ _ _ _} _.
Global Arguments p2_keys {_ _ _ _ _ _} _.
Global Arguments p2_refs {_ _ _ _ _ _} _.

(** What a duplication yields: the identifiers of the copy are the ones
    drawn, in order; the tables and links of the copy stand next to those
    of the source; the two maps send the keys of the source to keys of the
    copy; and a reference stored in a column of the copy is the mapped
    reference of the source column at the same place. *)
Record duplicated (w : World) (src copy : Database.t)
    (table_map col_map : dict string) : Prop := {
  dup_id : Database.id copy = hex8 (uuid4_hi w (uuid4_calls w));
  dup_name : Database.name copy = Database.name src +:+ " (copy)";
  dup_note : Database.note copy = Database.note src;
  dup_ids :
    Database.id copy :: flat_ids (Database.tables copy)
      ++ Dict.keys (Database.links copy)
    = drawn_ids w (draws_needed src);
  dup_tables :
    Forall2 (table_copied table_map) (Database.tables src) (Database.tables copy);
  dup_links :
    Forall2 (λ kl kl', kl'.2 = copy_link table_map col_map kl'.1 kl.2)
      (Database.links src) (Database.links copy);
  dup_table_dom : ∀ k, is_Some (Dict.get table_map k)
                       ↔ k ∈ Dict.keys (Database.tables src);
  dup_table_img : ∀ k v, Dict.get table_map k = Some v →
                         v ∈ Dict.keys (Database.tables copy);
  dup_col_dom : ∀ k, is_Some (Dict.get col_map k)
                     ↔ k ∈ col_keys (Database.tables src);
  dup_col_img : ∀ k v, Dict.get col_map k = Some v →
                       v ∈ col_keys (Database.tables copy);
  dup_refs : ∀ tk t ck c r,
    (tk, t) ∈ Database.tables copy → (ck, c) ∈ Table.columns t →
    Column.foreign_ref c = Some r →
    ∃ i t_old t_src j c_old c_src fr,
      Database.tables src !! i = Some (t_old, t_src)
      ∧ Database.tables copy !! i = Some (tk, t)
      ∧ Table.columns t_src !! j = Some (c_old, c_src)
      ∧ Table.columns t !! j = Some (ck, c)
      ∧ Column.foreign_ref c_src = Some fr
      ∧ Dict.get table_map (ForeignRef.table_id fr) = Some (ForeignRef.table_id r)
      ∧ Dict.get col_map (ForeignRef.column_id fr) = Some (ForeignRef.column_id r)
      ∧ ForeignRef.note r = ForeignRef.note fr }.
Global Arguments dup_id {_ _ _ _ _} _.
Global Arguments dup_name {_ _ _ _ _} _.
Global Arguments dup_note {_ _ _ _ _} _.
Global Arguments dup_ids {_ _ _ _ _} _.
Global Arguments dup_tables {_ _ _ _ _} _.
Global Arguments dup_links {_ _ _ _ _} _.
Global Arguments dup_table_dom {_ _ _ _ _} _.
Global Arguments dup_table_img {_ _ _ _ _} _.
Global Arguments dup_col_dom {_ _ _ _ _} _.
Global Arguments dup_col_img {_ _ _ _ _} _.
Global Arguments dup_refs {_ _ _ _ _} _.

(** ** More handlers *)

(** [DELETE /api/databases/<db_id>] *)
Definition delete_database (cookie : option string) (db_id : string) : M unit :=
  pin ← require_pin cookie;
  ds ← get_state_or_init pin;
  if Dict.mem db_id ds then
    _ ← save_state pin (Dict.pop ds db_id);
    mret tt
  else abort NotFound.

(** The body of a database patch; a [diagram] that is not a JSON object is
    ignored. *)
Record DatabasePatch := mkDatabasePatch {
  dp_name : option string;
  dp_note : option string;
  dp_diagram : option json }.

(** [data["name"].strip() or old] *)
Definition patched_name (n old : string) : string :=
  str_or (Some (strip n)) old.

(** [PATCH /api/databases/<db_id>] *)
Definition update_database (cookie : option string) (db_id : string)
    (data : DatabasePatch) : M Database.t :=
  pin ← require_pin cookie;
  ds ← get_state_or_init pin;
  db ← or_abort NotFound (Dict.get ds db_id);
  let name :=
    match dp_name data with
    | Some n => patched_name n (Database.name db)
    | None => Database.name db
    end in
  let note := default (Database.note db) (dp_note data) in
  let diagram :=
    match dp_diagram data with
    | Some (JObj o) => o
    | _ => Database.diagram db
    end in
  let db' := Database.mk (Database.id db) name note (Database.tables db)
               (Database.links db) diagram in
  _ ← save_state pin (Dict.set ds db_id db');
  mret db'.

Record TablePatch := mkTablePatch {
  tp_name : option string;
  tp_note : option string }.

(** [PATCH /api/databases/<db_id>/tables/<t_id>] *)
Definition update_table (cookie : option string) (db_id t_id : string)
    (data : TablePatch) : M Table.t :=
  pin ← require_pin cookie;
  ds ← get_state_or_init pin;
  db ← or_abort NotFound (Dict.get ds db_id);
  t ← or_abort NotFound (Dict.get (Database.tables db) t_id);
  let name :=
    match tp_name data with
    | Some n => patched_name n (Table.name t)
    | None => Table.name t
    end in
  let t' := Table.mk (Table.id t) name (default (Table.note t) (tp_note data))
              (Table.columns t) in
  let db' := Database_with_tables db (Dict.set (Database.tables db) t_id t') in
  _ ← save_state pin (Dict.set ds db_id db');
  mret t'.

(** The body of a column patch.  [cp_default] and [cp_foreign_ref] tell an
    absent key ([None]) from a [null] ([Some None]). *)
Record ColumnPatch := mkColumnPatch {
  cp_name : option string;
  cp_datatype : option string;
  cp_is_primary : option bool;
  cp_is_nullable : option bool;
  cp_default : option (option string);
  cp_note : option string;
  cp_foreign_ref : option (option ForeignRefData);
  cp_order : int_field }.

(** The [foreign_ref] of a patched column: cleared by [null], replaced by an
    object with both ids, left alone otherwise. *)
Definition patched_foreign_ref (raw : option (option ForeignRefData))
    (old : option ForeignRef.t) : option ForeignRef.t :=
  match raw with
  | None => old
  | Some None => None
  | Some (Some fr_raw) =>
      match parse_foreign_ref (Some fr_raw) with
      | Some fr => Some fr
      | None => old
      end
  end.

(** [try: col.order = int(data["order"]) except: pass] *)
Definition patched_order (raw : int_field) (old : Z) : Z :=
  match raw with
  | IntOk z => z
  | _ => old
  end.

Definition patch_column (data : ColumnPatch) (col : Column.t) : Column.t :=
  Column.mk (Column.id col)
    (match cp_name data with
     | Some n => patched_name n (Column.name col)
     | None => Column.name col
     end)
    (default (Column.datatype col) (cp_datatype data))
    (default (Column.is_primary col) (cp_is_primary data))
    (default (Column.is_nullable col) (cp_is_nullable data))
    (default (Column.default col) (cp_default data))
    (default (Column.note col) (cp_note data))
    (patched_foreign_ref (cp_foreign_ref data) (Column.foreign_ref col))
    (patched_order (cp_order data) (Column.order col)).

(** [PATCH /api/databases/<db_id>/tables/<t_id>/columns/<c_id>] *)
Definition update_column (cookie : option string) (db_id t_id c_id : string)
    (data : ColumnPatch) : M Column.t :=
  pin ← require_pin cookie;
  ds ← get_state_or_init pin;
  db ← or_abort NotFound (Dict.get ds db_id);
  t ← or_abort NotFound (Dict.get (Database.tables db) t_id);
  col ← or_abort NotFound (Dict.get (Table.columns t) c_id);
  let col' := patch_column data col in
  let t' := Table_with_columns t (Dict.set (Table.columns t) c_id col') in
  let db' := Database_with_tables db (Dict.set (Database.tables db) t_id t') in
  _ ← save_state pin (Dict.set ds db_id db');
  mret col'.

(** [PATCH /api/databases/<db_id>/links/<l_id>] *)
Definition update_link (cookie : option string) (db_id l_id : string)
    (note : option string) : M Link.t :=
  pin ← require_pin cookie;
  ds ← get_state_or_init pin;
  db ← or_abort NotFound (Dict.get ds db_id);
  link ← or_abort NotFound (Dict.get (Database.links db) l_id);
  let link' := Link.mk (Link.id link) (Link.from_type link) (Link.from_id link)
                 (Link.to_type link) (Link.to_id link)
                 (default (Link.note link) note) in
  let db' := Database_with_links db (Dict.set (Database.links db) l_id link') in
  _ ← save_state pin (Dict.set ds db_id db');
  mret link'.

(** [DELETE /api/databases/<db_id>/links/<l_id>] *)
Definition delete_link (cookie : option string) (db_id l_id : string) : M unit :=
  pin ← require_pin cookie;
  ds ← get_state_or_init pin;
  db ← or_abort NotFound (Dict.get ds db_id);
  if Dict.mem l_id (Database.links db) then
    let db' := Database_with_links db (Dict.pop (Database.links db) l_id) in
    _ ← save_state pin (Dict.set ds db_id db');
    mret tt
  else abort NotFound.

(** [GET /api/state] *)
Definition get_state (cookie : option string) : M (dict Database.t) :=
  pin ← require_pin cookie;
  get_state_or_init pin.

(** [GET /api/docs/<doc_id>] *)
Definition api_get_doc (cookie : option string) (doc_id : string) : M Document.t :=
  pin ← require_pin cookie;
  '(folders, docs) ← load_docs pin;
  or_abort NotFound (Dict.get docs doc_id).

(** The body of a document patch. *)
Record DocPatch := mkDocPatch {
  dc_name : option string;
  dc_parent_id : option (option string);
  dc_content : option string }.

(** [PATCH /api/docs/<doc_id>].  The source reads the clock only when a
    key was given; reading it changes nothing, so it is read here in both
    cases and used in the first. *)
Definition api_update_doc (cookie : option string) (doc_id : string)
    (data : DocPatch) : M Document.t :=
  pin ← require_pin cookie;
  '(folders, docs) ← load_docs pin;
  d ← or_abort NotFound (Dict.get docs doc_id);
  let name :=
    match dc_name data with
    | Some n => patched_name n (Document.name d)
    | None => Document.name d
    end in
  parent_id ← match dc_parent_id data with
              | Some pid =>
                  if dangling_parent pid folders then abort InvalidInput
                  else mret pid
              | None => mret (Document.parent_id d)
              end;
  let content := default (Document.content d) (dc_content data) in
  let touched := bool_decide (is_Some (dc_name data))
                 || bool_decide (is_Some (dc_parent_id data))
                 || bool_decide (is_Some (dc_content data)) in
  t ← time_time;
  let d' := Document.mk (Document.id d) name parent_id content (Document.notes d)
              (if touched then t else Document.updated_at d) in
  _ ← save_docs pin folders (Dict.set docs doc_id d');
  mret d'.

(** [GET /api/docs/<doc_id>/notes] *)
Definition api_get_notes (cookie : option string) (doc_id : string)
    : M (dict DocNote.t) :=
  pin ← require_pin cookie;
  '(folders, docs) ← load_docs pin;
  d ← or_abort NotFound (Dict.get docs doc_id);
  mret (Document.notes d).

(** [POST /api/docs/<doc_id>/notes] *)
Definition api_add_note (cookie : option string) (doc_id : string)
    (data : NoteData) : M DocNote.t :=
  pin ← require_pin cookie;
  '(folders, docs) ← load_docs pin;
  d ← or_abort NotFound (Dict.get docs doc_id);
  '(start_line, end_line) ← or_abort InvalidInput (parse_lines data);
  let text := strip (str_or (nd_text data) "") in
  if negb (truthy text) then abort InvalidInput
  else
    let author := strip (str_or (nd_author data) "") in
    nid ← gen_id;
    t ← time_time;
    let n := DocNote.mk nid start_line end_line text author t in
    let d' := Document.mk (Document.id d) (Document.name d) (Document.parent_id d)
                (Document.content d) (Dict.set (Document.notes d) nid n) t in
    _ ← save_docs pin folders (Dict.set docs doc_id d');
    mret n.

(** [DELETE /api/docs/<doc_id>/notes/<nid>] *)
Definition api_delete_note (cookie : option string) (doc_id nid : string) : M unit :=
  pin ← require_pin cookie;
  '(folders, docs) ← load_docs pin;
  d ← or_abort NotFound (Dict.get docs doc_id);
  if Dict.mem nid (Document.notes d) then
    t ← time_time;
    let d' := Document.mk (Document.id d) (Document.name d) (Document.parent_id d)
                (Document.content d) (Dict.pop (Document.notes d) nid) t in
    _ ← save_docs pin folders (Dict.set docs doc_id d');
    mret tt
  else abort NotFound.

Definition save_shares (shares : dict DocShare.t) : M unit :=
  λ w, Ok (tt, mkWorld (files w) shares (uuid4_hi w) (uuid4_calls w) (now w)).

(** [POST /api/docs/<doc_id>/share]: the token *)
Definition api_share_doc (cookie : option string) (doc_id : string) : M string :=
  pin ← require_pin cookie;
  '(folders, docs) ← load_docs pin;
  if negb (Dict.mem doc_id docs) then abort NotFound
  else
    shares ← load_shares;
    token ← gen_id;
    t ← time_time;
    _ ← save_shares (Dict.set shares token (DocShare.mk token pin "doc" doc_id t));
    mret token.

(** [POST /api/docs/folders/<fid>/share]: the token *)
Definition api_share_folder (cookie : option string) (fid : string) : M string :=
  pin ← require_pin cookie;
  '(folders, docs) ← load_docs pin;
  if negb (Dict.mem fid folders) then abort NotFound
  else
    shares ← load_shares;
    token ← gen_id;
    t ← time_time;
    _ ← save_shares (Dict.set shares token (DocShare.mk token pin "folder" fid t));
    mret token.

(** [GET /s/f/<token>]: the folder shown and [can_edit] *)
Definition shared_folder (cookie : option string) (token : string)
    : M (string * bool) :=
  '(s, folders, docs) ← _shared_context token;
  if negb (bool_decide (DocShare.kind s = "folder")) then abort NotFound
  else
    root ← or_abort NotFound (Dict.get folders (DocShare.target_id s));
    mret (DocFolder.id root, can_edit cookie s).

(** The empty patch of each PATCH route. *)
Definition no_database_patch : DatabasePatch := mkDatabasePatch None None None.
Definition no_table_patch : TablePatch := mkTablePatch None None.
Definition no_column_patch (order : int_field) : ColumnPatch :=
  mkColumnPatch None None None None None None None order.
Definition no_folder_patch : FolderPatch := mkFolderPatch None None.
Definition no_doc_patch : DocPatch := mkDocPatch None None None.

(** ** PINs and files *)

(** [pin_path] joins the PIN to the data directory as it comes from the
    cookie, and [shares.json] lies in the same directory.  A PIN of lower-case
    letters, digits, [-] and [_], of at most 250 characters and other than
    [shares], names a file of its own there: [<pin>.json] is a plain name
    within the length a file name may have, it is not [shares.json], and two
    such PINs name two files.  For these PINs the map [files] is the data
    directory.  Other PINs reach files the map does not tell apart: the PIN
    [shares] is the share file, [./pin] is the file of [pin], and a PIN
    [a/b] has no file to write to.  The frames below, which tell what a
    request leaves alone in the files, are therefore stated for plain
    PINs. *)
Definition pin_char (c : ascii) : bool :=
  let n := nat_of_ascii c in
  bool_decide ((97 ≤ n ∧ n ≤ 122) ∨ (48 ≤ n ∧ n ≤ 57) ∨ n = 45 ∨ n = 95).

Fixpoint pin_chars (s : string) : bool :=
  match s with
  | String c s' => pin_char c && pin_chars s'
  | EmptyString => true
  end.

Definition plain_pin (pin : string) : bool :=
  pin_chars pin && negb (String.eqb pin "shares") && (String.length pin <=? 250)%nat.

(** ** Frames *)

(** [keeps R h]: whenever the handler [h] answers, the world it leaves is
    related by [R] to the world it found. *)
Definition keeps {A} (R : relation World) (h : M A) : Prop :=
  ∀ w a w', h w = Ok (a, w') → R w w'.

(** The folders and the documents of every plain PIN, and the shares, are
    as they were. *)
Definition same_documents : relation World := λ w w',
  (∀ pin, plain_pin pin = true →
          doc_folders (tenant w' pin) = doc_folders (tenant w pin)
          ∧ documents (tenant w' pin) = documents (tenant w pin))
  ∧ shares_file w' = shares_file w.

(** The databases of every plain PIN, and the shares, are as they were. *)
Definition same_databases : relation World := λ w w',
  (∀ pin, plain_pin pin = true → dbs (tenant w' pin) = dbs (tenant w pin))
  ∧ shares_file w' = shares_file w.

(** The map of the PIN files is as it was. *)
Definition same_files : relation World := λ w w', files w' = files w.

(** The file of every plain PIN is as it was. *)
Definition plain_files : relation World := λ w w',
  ∀ pin, plain_pin pin = true → files w' !! pin = files w !! pin.

(** [GET /api/docs/state]: the folders and the documents, without content *)
Definition api_docs_state (cookie : option string)
    : M (dict FolderEntry * dict DocEntry) :=
  pin ← require_pin cookie;
  '(folders, docs) ← load_docs pin;
  (* minimal state, no content *)
  let mf :=
    (λ kf : string * DocFolder.t,
       (kf.1, mkFolderEntry (DocFolder.id kf.2) (DocFolder.name kf.2)
                (DocFolder.parent_id kf.2))) <$> folders in
  let md :=
    (λ kd : string * Document.t,
       (kd.1, mkDocEntry (Document.id kd.2) (Document.name kd.2)
                (Document.parent_id kd.2) (Document.updated_at kd.2))) <$> docs in
  mret (mf, md).

(** ** Invariants of the stored state *)

(** Every entity of the schema sits under its own identifier, and the
    databases, tables and columns have a name. *)
Definition column_ok (kc : string * Column.t) : Prop :=
  Column.id kc.2 = kc.1 ∧ Column.name kc.2 ≠ "".

Definition table_ok (kt : string * Table.t) : Prop :=
  Table.id kt.2 = kt.1 ∧ Table.name kt.2 ≠ ""
  ∧ Forall column_ok (Table.columns kt.2).

Definition link_ok (kl : string * Link.t) : Prop :=
  Link.id kl.2 = kl.1.

Definition database_ok (kd : string * Database.t) : Prop :=
  Database.id kd.2 = kd.1 ∧ Database.name kd.2 ≠ ""
  ∧ Forall table_ok (Database.tables kd.2)
  ∧ Forall link_ok (Database.links kd.2).

Definition schema_ok (t : TenantState) : Prop :=
  Forall database_ok (dbs t).

(** The parent named by a folder or a document is a folder of the tree;
    the empty string, which the PATCH routes store as it is given, stands
    for no parent. *)
Definition parent_ok (folders : dict DocFolder.t) (p : option string) : Prop :=
  ∀ x, p = Some x → x = "" ∨ x ∈ Dict.keys folders.

Definition folder_ok (folders : dict DocFolder.t) (kf : string * DocFolder.t) : Prop :=
  DocFolder.id kf.2 = kf.1 ∧ DocFolder.name kf.2 ≠ ""
  ∧ parent_ok folders (DocFolder.parent_id kf.2).

Definition note_ok (kn : string * DocNote.t) : Prop :=
  DocNote.id kn.2 = kn.1 ∧ DocNote.text kn.2 ≠ "".

Definition doc_ok (folders : dict DocFolder.t) (kd : string * Document.t) : Prop :=
  Document.id kd.2 = kd.1 ∧ Document.name kd.2 ≠ ""
  ∧ parent_ok folders (Document.parent_id kd.2)
  ∧ Forall note_ok (Document.notes kd.2).

Definition docs_ok (t : TenantState) : Prop :=
  Forall (folder_ok (doc_folders t)) (doc_folders t)
  ∧ Forall (doc_ok (doc_folders t)) (documents t).

(** An invariant of the file of every tenant is kept. *)
Definition preserves (I : TenantState → Prop) : relation World := λ w w',
  ∀ pin, I (tenant w pin) → I (tenant w' pin).

(** ** Duplication, the references that are kept *)

(** The column at place [j] of the table at place [i] of a database, with
    the two keys it is stored under. *)
Definition column_at (ts : dict Table.t) (i j : nat)
    : option (string * string * Column.t) :=
  match ts !! i with
  | Some (tk, t) =>
      match Table.columns t !! j with
      | Some (ck, c) => Some (tk, ck, c)
      | None => None
      end
  | None => None
  end.

(** More of the first pass: [col_id_map] sends the key of a source column
    to the key of the copy at the same place, and the reference of every
    source column is deferred under the keys of its copy. *)
Record pass1_maps (done : dict Table.t) (s : pass1) : Prop := {
  p1_col_at : ∀ i j t_old c_old c tk ck c',
    column_at done i j = Some (t_old, c_old, c) →
    column_at (new_tables s) i j = Some (tk, ck, c') →
    Dict.get (col_id_map s) c_old = Some ck;
  p1_deferred : ∀ i j t_old c_old c tk ck c' fr,
    column_at done i j = Some (t_old, c_old, c) →
    column_at (new_tables s) i j = Some (tk, ck, c') →
    Column.foreign_ref c = Some fr →
    (tk, ck, fr) ∈ pending_refs s }.
Global Arguments p1_col_at {_ _} _.
Global Arguments p1_deferred {_ _} _.

(** More of the second pass: a deferred reference that both maps know is
    stored, mapped, in its column. *)
Definition pass2_mapped (p : pass1) (processed : list pending_ref)
    (ts : dict Table.t) : Prop :=
  ∀ tk ck fr mapped_t mapped_c,
    (tk, ck, fr) ∈ processed →
    Dict.get (table_id_map p) (ForeignRef.table_id fr) = Some mapped_t →
    Dict.get (col_id_map p) (ForeignRef.column_id fr) = Some mapped_c →
    ∃ t c, Dict.get ts tk = Some t ∧ Dict.get (Table.columns t) ck = Some c
           ∧ Column.foreign_ref c
             = Some (ForeignRef.mk mapped_t mapped_c (ForeignRef.note fr)).

(** ** The flow of the tests *)

(** The requests of [test_flow] after the cookie is set: a database, a
    table in it, a column in the table, a link from the column to the
    table; then the column, the table and the database are deleted and the
    state is fetched.  The bodies of the test are [Some "MyDB"],
    [Some "Users"], a primary key column [id] and the note ["fk-like"]. *)
Definition test_flow (cookie : option string) (db_name t_name : option string)
    (column : ColumnData) (note : option string) : M (dict Database.t) :=
  db ← create_database cookie db_name;
  let db_id := Database.id db in
  t ← create_table cookie db_id t_name;
  let t_id := Table.id t in
  c ← create_column cookie db_id t_id column;
  let c_id := Column.id c in
  (* link column to table (self link just for test) *)
  _ ← create_link cookie db_id
        (mkLinkData (Some "column") (Some c_id) (Some "table") (Some t_id) note);
  _ ← delete_column cookie db_id t_id c_id;
  _ ← delete_table cookie db_id t_id;
  _ ← delete_database cookie db_id;
  get_state cookie.

(** The files of the plain PINs other than [pin] are as they were. *)
Definition other_files (pin : string) : relation World := λ w w',
  ∀ pin', plain_pin pin' = true → pin' ≠ pin → files w' !! pin' = files w !! pin'.

(** ** Identifiers *)

(** A character of [0-9a-f]. *)
Definition is_hex_char (c : ascii) : bool :=
  let n := nat_of_ascii c in
  bool_decide ((48 ≤ n ∧ n ≤ 57) ∨ (97 ≤ n ∧ n ≤ 102)).

(** The value of a hexadecimal digit. *)
Definition hex_val (c : ascii) : N :=
  (match c with
   | "0" => 0 | "1" => 1 | "2" => 2 | "3" => 3 | "4" => 4 | "5" => 5
   | "6" => 6 | "7" => 7 | "8" => 8 | "9" => 9 | "a" => 10 | "b" => 11
   | "c" => 12 | "d" => 13 | "e" => 14 | "f" => 15 | _ => 0
   end%char)%N.

(** ** Slugs *)

(** The helpers of [slugify], on strings of ASCII characters: there
    [str.lower] maps [A-Z] to [a-z], and [\s] and [str.strip] take the
    whitespace of [is_space]. *)
Definition is_upper (c : ascii) : bool :=
  let n := nat_of_ascii c in bool_decide (65 ≤ n ∧ n ≤ 90).

Definition lower_char (c : ascii) : ascii :=
  if is_upper c then ascii_of_nat (nat_of_ascii c + 32) else c.

(** [s.lower()] *)
Fixpoint lower (s : string) : string :=
  match s with
  | String c s' => String (lower_char c) (lower s')
  | EmptyString => EmptyString
  end.

(** [re.sub(r"C+", "-", s)] for a class [C] of characters: every maximal
    run of characters of the class becomes one dash.  [in_run] tells that
    the character before was of the class. *)
Fixpoint sub_runs (C : ascii → bool) (in_run : bool) (s : string) : string :=
  match s with
  | String c s' =>
      if C c then
        if in_run then sub_runs C true s'
        else String "-" (sub_runs C true s')
      else String c (sub_runs C false s')
  | EmptyString => EmptyString
  end.

(** [re.sub(r"[^C]", "", s)]: the characters of the class are kept. *)
Fixpoint keep (C : ascii → bool) (s : string) : string :=
  match s with
  | String c s' => if C c then String c (keep C s') else keep C s'
  | EmptyString => EmptyString
  end.

(** [s.strip(chars)], in two halves *)
Fixpoint lstrip_by (C : ascii → bool) (s : string) : string :=
  match s with
  | String c s' => if C c then lstrip_by C s' else s
  | EmptyString => EmptyString
  end.

Fixpoint rstrip_by (C : ascii → bool) (s : string) : string :=
  match s with
  | String c s' =>
      match rstrip_by C s' with
      | EmptyString => if C c then EmptyString else String c EmptyString
      | r => String c r
      end
  | EmptyString => EmptyString
  end.

(** The class [[a-z0-9\-_.]] *)
Definition slug_char (c : ascii) : bool :=
  let n := nat_of_ascii c in
  bool_decide ((97 ≤ n ∧ n ≤ 122) ∨ (48 ≤ n ∧ n ≤ 57) ∨ n = 45 ∨ n = 95 ∨ n = 46).

Definition is_dash (c : ascii) : bool := bool_decide (nat_of_ascii c = 45).

(** [slugify] *)
Definition slugify (name : string) : string :=
  let s := lower (strip name) in
  let s := sub_runs is_space false s in
  let s := keep slug_char s in
  let s := sub_runs is_dash false s in
  rstrip_by is_dash (lstrip_by is_dash s).

(** Every character of a string is of a class; its first, its last
    character is; two characters of the class stand side by side. *)
Fixpoint string_forall (C : ascii → bool) (s : string) : bool :=
  match s with
  | String c s' => C c && string_forall C s'
  | EmptyString => true
  end.

Definition head_is (C : ascii → bool) (s : string) : bool :=
  match s with
  | String c _ => C c
  | EmptyString => false
  end.

Fixpoint last_is (C : ascii → bool) (s : string) : bool :=
  match s with
  | String c EmptyString => C c
  | String _ s' => last_is C s'
  | EmptyString => false
  end.

Fixpoint has_double (C : ascii → bool) (s : string) : bool :=
  match s with
  | String c s' => (C c && head_is C s') || has_double C s'
  | EmptyString => false
  end.

Definition is_ascii (s : string) : bool :=
  string_forall (λ c, bool_decide (nat_of_ascii c < 128)) s.

(** ** Search *)

(** The helpers of [api_search], on strings of ASCII characters. *)

(** [q in s] *)
Fixpoint contains (q s : string) {struct s} : bool :=
  String.prefix q s
  || match s with
     | String _ s' => contains q s'
     | EmptyString => false
     end.

(** The line boundaries of [str.splitlines] among the ASCII characters:
    [\n], [\v], [\f], [\r] and the separators [\x1c], [\x1d], [\x1e]. *)
Definition is_line_break (c : ascii) : bool :=
  let n := nat_of_ascii c in
  bool_decide ((10 ≤ n ∧ n ≤ 13) ∨ (28 ≤ n ∧ n ≤ 30)).

(** [s.splitlines()]: the lines without their boundaries, [\r\n] being one
    boundary; a boundary at the end opens no line. *)
Fixpoint splitlines (s : string) : list string :=
  match s with
  | String c s' =>
      if is_line_break c then
        EmptyString ::
          match s' with
          | String c' s'' =>
              if bool_decide (nat_of_ascii c = 13 ∧ nat_of_ascii c' = 10)
              then splitlines s''
              else splitlines s'
          | EmptyString => []
          end
      else
        match splitlines s' with
        | line :: lines => String c line :: lines
        | [] => [String c EmptyString]
        end
  | EmptyString => []
  end.

Definition is_hash (c : ascii) : bool := bool_decide (nat_of_ascii c = 35).

(** One entry of the [results] of a search. *)
Inductive SearchResult :=
  | DocResult (id name : string) (parent_id : option string)
  | HeadingResult (doc_id heading doc_name : string) (parent_id : option string)
  | DatabaseResult (db_id name slug : string)
  | TableResult (db_id table_id name slug : string)
  | ColumnResult (db_id table_id column_id name slug label : string).

(** The body of [for d in documents.values()] *)
Definition search_document (q : string) (d : Document.t) : list SearchResult :=
  (if contains q (lower (Document.name d))
      || (truthy q && contains q (lower (Document.content d)))
   then [DocResult (Document.id d) (Document.name d) (Document.parent_id d)]
   else [])
  ++ flat_map
       (λ line,
          if head_is is_hash line then
            let heading := strip (lstrip_by is_hash line) in
            if truthy heading && contains q (lower heading)
            then [HeadingResult (Document.id d) heading (Document.name d)
                    (Document.parent_id d)]
            else []
          else [])
       (splitlines (Document.content d)).

(** The body of [for c_id, c in t.columns.items()] *)
Definition search_column (q db_id t_id t_slug : string) (kc : string * Column.t)
    : list SearchResult :=
  let c_slug := slugify (Column.name kc.2) in
  let label := t_slug +:+ "." +:+ c_slug in
  if contains q c_slug || contains q label
  then [ColumnResult db_id t_id kc.1 (Column.name kc.2) c_slug label]
  else [].

(** The body of [for t_id, t in db.tables.items()] *)
Definition search_table (q db_id : string) (kt : string * Table.t)
    : list SearchResult :=
  let t_slug := slugify (Table.name kt.2) in
  (if contains q t_slug
   then [TableResult db_id kt.1 (Table.name kt.2) t_slug]
   else [])
  ++ flat_map (search_column q db_id kt.1 t_slug) (Table.columns kt.2).

(** The body of [for db_id, db in dbs.items()] *)
Definition search_database (q : string) (kd : string * Database.t)
    : list SearchResult :=
  let db_slug := slugify (Database.name kd.2) in
  (if contains q db_slug
   then [DatabaseResult kd.1 (Database.name kd.2) db_slug]
   else [])
  ++ flat_map (search_table q kd.1) (Database.tables kd.2).

(** [GET /api/search]: the documents, the headings, the databases, the
    tables and the columns that match [q], the first fifty of them *)
Definition api_search (cookie : option string) (q : option string)
    : M (list SearchResult) :=
  pin ← require_pin cookie;
  let q := lower (strip (str_or q "")) in
  '(folders, documents) ← load_docs pin;
  dbs ← get_state_or_init pin;
  let results :=
    flat_map (search_document q) (Dict.values documents)
    ++ flat_map (search_database q) dbs in
  mret (take 50 results).

(** * Examples *)

(** A shop schema: [Orders.user_id] refers to [Users.id] and [Items] has no
    column yet; one link joins the two columns, one the two tables and one
    hangs on [Orders] alone. *)
Definition ex_users : Table.t :=
  Table.mk "t1" "Users" ""
    [("c1", Column.mk "c1" "id" "INT" true false None "" None 0%Z)].

Definition ex_orders : Table.t :=
  Table.mk "t2" "Orders" ""
    [("c2", Column.mk "c2" "user_id" "INT" false false None ""
              (Some (ForeignRef.mk "t1" "c1" "")) 0%Z)].

Definition ex_links : dict Link.t :=
  [("l1", Link.mk "l1" "column" "c2" "column" "c1" "fk");
   ("l2", Link.mk "l2" "table" "t2" "table" "t1" "");
   ("l3", Link.mk "l3" "table" "t2" "column" "c2" "")].

Definition ex_items : Table.t := Table.mk "t3" "Items" "" [].

Definition ex_shop : Database.t :=
  Database.mk "db1" "Shop" ""
    [("t1", ex_users); ("t2", ex_orders); ("t3", ex_items)] ex_links [].

(** The [i]-th identifier drawn is [hex8 (i + 1)]. *)
Definition ex_uuid (i : nat) : N := N.of_nat (S i).

(** A database whose column [ref] refers to a table that is gone. *)
Definition ex_dangling : Database.t :=
  Database.mk "db2" "Old" ""
    [("t7", Table.mk "t7" "Log" ""
              [("c7", Column.mk "c7" "ref" "INT" false true None ""
                        (Some (ForeignRef.mk "gone" "c7" "")) 0%Z)])]
    [] [].

Definition ex_world : World :=
  mkWorld {[ "pin" := mkTenant [("db1", ex_shop); ("db2", ex_dangling)] [] [] ]}
    [] ex_uuid 0 0%Z.

Definition ex_column (name : string) : ColumnData :=
  mkColumnData (Some name) None None None None None None.

(** A tenant whose only folder is its own parent. *)
Definition ex_loop_folders : dict DocFolder.t :=
  [("f1", DocFolder.mk "f1" "Loop" (Some "f1"))].

Definition ex_loop_world : World :=
  mkWorld {[ "pin" := mkTenant [] ex_loop_folders [] ]} [] ex_uuid 0 0%Z.

(** Folder [A] holds folder [B] and document [Doc0]; [B] holds [Doc1];
    [C] stands beside [A] and holds [Doc2]. *)
Definition ex_folders : dict DocFolder.t :=
  [("fa", DocFolder.mk "fa" "A" None);
   ("fb", DocFolder.mk "fb" "B" (Some "fa"));
   ("fc", DocFolder.mk "fc" "C" None)].

Definition ex_documents : dict Document.t :=
  [("d0", Document.mk "d0" "Doc0" (Some "fa") "" [] 0%Z);
   ("d1", Document.mk "d1" "Doc1" (Some "fb") "" [] 0%Z);
   ("d2", Document.mk "d2" "Doc2" (Some "fc") "" [] 0%Z)].

Definition ex_shares : dict DocShare.t :=
  [("sa", DocShare.mk "sa" "pin" "folder" "fa" 0%Z);
   ("sd", DocShare.mk "sd" "pin" "doc" "d1" 0%Z)].

Definition ex_docs_world : World :=
  mkWorld {[ "pin" := mkTenant [] ex_folders ex_documents ]} ex_shares ex_uuid 0 0%Z.

(** A server with no file yet. *)
Definition ex_empty_world : World := mkWorld ∅ [] ex_uuid 0 0%Z.

(** Create [A], create [B] under it, create [C], then move [C] under [B]. *)
Definition ex_folder_ops : list folder_op :=
  [FolderCreate (mkFolderData (Some "A") None);
   FolderCreate (mkFolderData (Some "B") (Some "00000001"));
   FolderCreate (mkFolderData (Some "C") None);
   FolderUpdate "00000003" (mkFolderPatch None (Some (Some "00000002")))].

(** Create [A], then make it its own parent; create [A] and [B] under it,
    then move [A] under [B]. *)
Definition ex_self_parent_ops : list folder_op :=
  [FolderCreate (mkFolderData (Some "A") None);
   FolderUpdate "00000001" (mkFolderPatch None (Some (Some "00000001")))].

Definition ex_under_child_ops : list folder_op :=
  [FolderCreate (mkFolderData (Some "A") None);
   FolderCreate (mkFolderData (Some "B") (Some "00000001"));
   FolderUpdate "00000001" (mkFolderPatch None (Some (Some "00000002")))].

(** A corrupt tree: [a] and [b] are each other's parent, [c] hangs under
    [a], and [d] stands alone. *)
Definition ex_cyclic_folders : dict DocFolder.t :=
  [("a", DocFolder.mk "a" "A" (Some "b"));
   ("b", DocFolder.mk "b" "B" (Some "a"));
   ("c", DocFolder.mk "c" "C" (Some "a"));
   ("d", DocFolder.mk "d" "D" None)].

Definition ex_note : NoteData := mkNoteData (IntOk 1) IntAbsent (Some "hi") None.

(** The scenario of [test_duplicate_and_foreign_ref]: a database with the
    tables [Users] and [Posts], a primary key on [Users], a column of
    [Posts] that refers to it, and then the duplicate.  The answer is the
    id of the copy of [Users] and the references of the columns of the copy
    of [Posts]. *)
Definition ex_duplicate_scenario : M (option string * list (option ForeignRef.t)) :=
  let cookie := Some "pin2" in
  db ← create_database cookie (Some "DB1");
  users ← create_table cookie (Database.id db) (Some "Users");
  posts ← create_table cookie (Database.id db) (Some "Posts");
  pk ← create_column cookie (Database.id db) (Table.id users)
          (mkColumnData (Some "id") (Some "INT") (Some true) (Some false) None None None);
  _ ← create_column cookie (Database.id db) (Table.id posts)
         (mkColumnData (Some "user_id") (Some "INT") (Some false) (Some false) None None
            (Some (mkForeignRefData (Some (Table.id users)) (Some (Column.id pk)) None)));
  copy ← duplicate_database cookie (Database.id db);
  let named n := filter (λ kt : string * Table.t, Table.name kt.2 = n)
                   (Database.tables copy) in
  mret (head (Dict.keys (named "Users")),
        named "Posts" ≫= λ kt, Column.foreign_ref <$> Dict.values (Table.columns kt.2)).

(** A folder [A] with the document [Doc1] in it, made by the handlers. *)
Definition ex_folder_with_doc : World :=
  serve (api_create_doc (Some "pin") (mkDocData (Some "Doc1") (Some "00000001") None))
    (serve (api_create_folder (Some "pin") (mkFolderData (Some "A") None))
       ex_empty_world).

(** A generator that hands out the same identifier again and again. *)
Definition ex_stuck_world : World :=
  mkWorld {[ "pin" := mkTenant [("db1", ex_shop)] [] [] ]} [] (λ _, 1%N) 0 0%Z.

(** * Properties *)

(** ** Dictionaries *)
Module DictFacts.
Section facts.
Context {V : Type}.
Implicit Types (d : dict V) (k : string) (v : V).

Lemma get_Some_elem d k v : Dict.get d k = Some v → (k, v) ∈ d.
Proof.
  induction d as [|[k' v'] d IH]; simpl; [done|].
  case_decide; [intros [= ->]; subst; left | right; auto].
Qed.

Lemma get_None d k : Dict.get d k = None ↔ k ∉ Dict.keys d.
Proof.
  unfold Dict.keys. induction d as [|[k' v'] d IH]; simpl.
  - split; [intros _; apply not_elem_of_nil | done].
  - rewrite not_elem_of_cons. case_decide; subst; [|rewrite IH]; intuition congruence.
Qed.

Lemma get_is_Some d k : is_Some (Dict.get d k) ↔ k ∈ Dict.keys d.
Proof.
  rewrite <- not_eq_None_Some, get_None.
  split; [apply dec_stable | auto].
Qed.

Lemma elem_get d k v : Dict.wf d → (k, v) ∈ d → Dict.get d k = Some v.
Proof.
  unfold Dict.wf, Dict.keys.
  induction d as [|[k' v'] d IH]; simpl; [by intros _ ?%elem_of_nil|].
  rewrite NoDup_cons. intros [Hk Hd] [[= -> ->]|Hin]%elem_of_cons.
  - by rewrite decide_True.
  - case_decide; subst; [|by auto].
    destruct Hk. apply list_elem_of_fmap. by exists (k, v).
Qed.

Lemma mem_true k d : Dict.mem k d = true ↔ k ∈ Dict.keys d.
Proof. unfold Dict.mem. apply bool_decide_eq_true. Qed.

Lemma mem_get k d : Dict.mem k d = true ↔ is_Some (Dict.get d k).
Proof. by rewrite mem_true, get_is_Some. Qed.

Lemma pop_all_filter d ks : Dict.pop_all d ks = filter (λ kv, kv.1 ∉ ks) d.
Proof.
  unfold Dict.pop_all. revert d.
  induction ks as [|k ks IH]; intros d; simpl.
  - induction d as [|kv d IHd]; [done|].
    rewrite filter_cons_True by apply not_elem_of_nil. by rewrite <- IHd.
  - rewrite IH. unfold Dict.pop. rewrite list_filter_filter.
    apply list_filter_iff. intros kv. rewrite not_elem_of_cons. tauto.
Qed.

Lemma get_set_eq d k v : Dict.get (Dict.set d k v) k = Some v.
Proof.
  induction d as [|[k' v'] d IH]; simpl.
  - by rewrite decide_True.
  - case_decide; simpl; case_decide; congruence.
Qed.

Lemma get_set_ne d k k' v : k ≠ k' → Dict.get (Dict.set d k v) k' = Dict.get d k'.
Proof.
  intros Hne. induction d as [|[k1 v1] d IH]; simpl.
  - by rewrite decide_False.
  - case_decide; simpl; case_decide; congruence.
Qed.

Lemma set_fresh d k v : k ∉ Dict.keys d → Dict.set d k v = d ++ [(k, v)].
Proof.
  unfold Dict.keys. induction d as [|[k' v'] d IH]; simpl; [done|].
  rewrite not_elem_of_cons. intros [Hne Hk].
  rewrite decide_False by done. by rewrite IH.
Qed.

Lemma get_pop_ne d k k' : k' ≠ k → Dict.get (Dict.pop d k) k' = Dict.get d k'.
Proof.
  intros Hne. unfold Dict.pop. induction d as [|[k1 v1] d IH]; [done|].
  rewrite filter_cons. simpl. repeat case_decide; simpl; try case_decide; congruence.
Qed.

Lemma get_pop_eq d k : Dict.get (Dict.pop d k) k = None.
Proof.
  apply get_None. unfold Dict.keys, Dict.pop.
  intros ([k1 v1] & -> & [Hne _]%list_elem_of_filter)%list_elem_of_fmap.
  by apply Hne.
Qed.

Lemma keys_set_mem d k v : k ∈ Dict.keys d → Dict.keys (Dict.set d k v) = Dict.keys d.
Proof.
  unfold Dict.keys. induction d as [|[k' v'] d IH]; simpl; [by intros ?%elem_of_nil|].
  case_decide; simpl; [done|].
  intros [?|?]%elem_of_cons; [congruence|]. f_equal. by apply IH.
Qed.
End facts.
End DictFacts.

(** ** The monad *)

Lemma bind_unfold {A B} (m : M A) (f : A → M B) w :
  (m ≫= f) w = match m w with
               | Ok (a, w') => f a w'
               | Abort e => Abort e
               | OutOfFuel => OutOfFuel
               end.
Proof. reflexivity. Qed.

Lemma require_pin_Some pin w :
  truthy pin = true → require_pin (Some pin) w = Ok (pin, w).
Proof. unfold require_pin, get_pin. by intros ->. Qed.

Lemma tenant_save_state pin ds w w' :
  save_state pin ds w = Ok (tt, w') →
  tenant w' pin = mkTenant ds (doc_folders (tenant w pin)) (documents (tenant w pin)).
Proof.
  unfold save_state. intros [= <-]. unfold tenant at 1. simpl.
  by rewrite lookup_insert_eq.
Qed.

Lemma tenant_save_docs pin fs ds w w' :
  save_docs pin fs ds w = Ok (tt, w') →
  tenant w' pin = mkTenant (dbs (tenant w pin)) fs ds.
Proof.
  unfold save_docs. intros [= <-]. unfold tenant at 1. simpl.
  by rewrite lookup_insert_eq.
Qed.

(** ** Cascading deletes *)

(** Popping the keys selected by a test leaves no item that passes it. *)
Lemma pop_where_elem (P : Link.t → Prop) `{∀ l, Decision (P l)}
    (ls : dict Link.t) k l :
  (k, l) ∈ Dict.pop_all ls (link_ids_where P ls) → (k, l) ∈ ls ∧ ¬ P l.
Proof.
  rewrite DictFacts.pop_all_filter, list_elem_of_filter. simpl.
  intros [Hk Hin]. split; [done|]. intros HP. apply Hk.
  unfold link_ids_where. apply list_elem_of_fmap. exists (k, l).
  split; [done|]. by apply list_elem_of_filter.
Qed.

(** With unique keys, exactly the items that pass the test go. *)
Lemma pop_where_filter (P : Link.t → Prop) `{∀ l, Decision (P l)}
    (ls : dict Link.t) :
  Dict.wf ls →
  Dict.pop_all ls (link_ids_where P ls) = filter (λ kl, ¬ P kl.2) ls.
Proof.
  intros Hwf. rewrite DictFacts.pop_all_filter.
  induction ls as [|[k l] ls IH]; [done|].
  assert (Hiff : ∀ kl, kl ∈ (k, l) :: ls →
            kl.1 ∉ link_ids_where P ((k, l) :: ls) ↔ ¬ P kl.2).
  { intros [k' l'] Hin. unfold link_ids_where. rewrite list_elem_of_fmap. simpl.
    split.
    - intros Hno HP. apply Hno. exists (k', l'). split; [done|].
      by apply list_elem_of_filter.
    - intros HnP ([k'' l''] & -> & [HP Hin']%list_elem_of_filter). simpl in *.
      apply HnP.
      assert (Dict.get ((k, l) :: ls) k'' = Some l') as E1
        by by apply DictFacts.elem_get.
      assert (Dict.get ((k, l) :: ls) k'' = Some l'') as E2
        by by apply DictFacts.elem_get.
      congruence. }
  clear IH. revert Hiff. generalize (link_ids_where P ((k, l) :: ls)).
  generalize ((k, l) :: ls). clear. intros d ks Hiff.
  induction d as [|kv d IH]; [done|].
  rewrite !filter_cons.
  rewrite IH by (intros; apply Hiff; by right).
  apply decide_ext. apply Hiff. by left.
Qed.

(** C2.  Deleting a table that is present removes it and leaves exactly the
    links of which no endpoint is the table ([from_type] or [to_type]
    'table' with its id) or one of its columns ('column' with the id of a
    column of the table); deleting a table that is absent aborts with
    NotFound and leaves the files as they were. *)
Theorem delete_table_cascade pin w db_id db t_id :
  truthy pin = true →
  Dict.get (dbs (tenant w pin)) db_id = Some db →
  Dict.wf (Database.links db) →
  (∀ t, Dict.get (Database.tables db) t_id = Some t →
     ∃ w' db',
       delete_table (Some pin) db_id t_id w = Ok (tt, w')
       ∧ Dict.get (dbs (tenant w' pin)) db_id = Some db'
       ∧ (t_id ∉ Dict.keys (Database.tables db'))
       ∧ Database.links db' =
           filter (λ kl, (¬ link_refs_table t_id kl.2)
                         ∧ (¬ link_refs_column_in (Dict.keys (Table.columns t)) kl.2))
             (Database.links db)
       ∧ ∀ l_id l, (l_id, l) ∈ Database.links db' →
           (¬ link_refs_table t_id l)
           ∧ (¬ link_refs_column_in (Dict.keys (Table.columns t)) l))
  ∧ (Dict.get (Database.tables db) t_id = None →
     delete_table (Some pin) db_id t_id w = Abort NotFound
     ∧ serve (delete_table (Some pin) db_id t_id) w = w).
Proof.
  intros Hpin Hdb Hwf. split.
  - intros t Ht. unfold delete_table.
    rewrite bind_unfold, require_pin_Some by done.
    rewrite bind_unfold. unfold get_state_or_init, load_state.
    rewrite bind_unfold, Hdb. simpl. rewrite Ht.
    set (links1 := Dict.pop_all (Database.links db) _).
    set (links2 := Dict.pop_all links1 _).
    set (db' := Database_with_tables _ _).
    rewrite bind_unfold.
    destruct (save_state pin (Dict.set (dbs (tenant w pin)) db_id db') w)
      as [[[] w']| |] eqn:Hsave; try discriminate Hsave.
    exists w', db'. split; [done|].
    rewrite (tenant_save_state _ _ _ _ Hsave). simpl.
    split; [apply DictFacts.get_set_eq|].
    assert (Hlinks : links2 =
              filter (λ kl, (¬ link_refs_table t_id kl.2)
                            ∧ (¬ link_refs_column_in (Dict.keys (Table.columns t)) kl.2))
                (Database.links db)).
    { subst links2 links1. rewrite (pop_where_filter _ (Database.links db)) by done.
      rewrite pop_where_filter.
      - rewrite list_filter_filter. apply list_filter_iff. tauto.
      - unfold Dict.wf, Dict.keys. apply NoDup_fmap_fst.
        + intros k l1 l2 [_ H1]%list_elem_of_filter [_ H2]%list_elem_of_filter.
          apply (DictFacts.elem_get _ _ _ Hwf) in H1, H2. congruence.
        + apply NoDup_filter. eapply NoDup_fmap_1, Hwf. }
    split; [|split; [exact Hlinks|]].
    + simpl. unfold Dict.keys, Dict.pop.
      intros ([k t'] & -> & [Hne _]%list_elem_of_filter)%list_elem_of_fmap.
      by apply Hne.
    + simpl. rewrite Hlinks. intros l_id l [? _]%list_elem_of_filter. done.
  - intros Ht.
    assert (delete_table (Some pin) db_id t_id w = Abort NotFound) as E.
    { unfold delete_table.
      rewrite bind_unfold, require_pin_Some by done.
      rewrite bind_unfold. unfold get_state_or_init, load_state.
      rewrite bind_unfold, Hdb. simpl. by rewrite Ht. }
    split; [done|]. unfold serve. by rewrite E.
Qed.

(** C3.  Deleting a column that is present removes exactly the links with a
    'column' endpoint of its id and removes the column from its table;
    every other column of the database stays as it was, foreign reference
    included, also when that reference names the deleted column. *)
Theorem delete_column_scrubs_links_only pin w db_id db t_id t c_id :
  truthy pin = true →
  Dict.get (dbs (tenant w pin)) db_id = Some db →
  Dict.wf (Database.links db) →
  Dict.get (Database.tables db) t_id = Some t →
  c_id ∈ Dict.keys (Table.columns t) →
  ∃ w' db' t',
    delete_column (Some pin) db_id t_id c_id w = Ok (tt, w')
    ∧ Dict.get (dbs (tenant w' pin)) db_id = Some db'
    ∧ Database.links db' =
        filter (λ kl, ¬ link_refs_column c_id kl.2) (Database.links db)
    ∧ Dict.get (Database.tables db') t_id = Some t'
    ∧ (c_id ∉ Dict.keys (Table.columns t'))
    ∧ (∀ t2_id t2 c2_id c2,
         Dict.get (Database.tables db) t2_id = Some t2 →
         (c2_id, c2) ∈ Table.columns t2 →
         (t2_id, c2_id) ≠ (t_id, c_id) →
         ∃ t2', Dict.get (Database.tables db') t2_id = Some t2'
                ∧ (c2_id, c2) ∈ Table.columns t2').
Proof.
  intros Hpin Hdb Hwf Ht Hc. unfold delete_column.
  rewrite bind_unfold, require_pin_Some by done.
  rewrite bind_unfold. unfold get_state_or_init, load_state.
  rewrite bind_unfold, Hdb. simpl. rewrite bind_unfold, Ht. simpl.
  apply DictFacts.mem_true in Hc as Hmem. rewrite Hmem.
  set (t' := Table_with_columns _ _).
  set (db' := Database_with_tables _ _).
  rewrite bind_unfold.
  destruct (save_state pin (Dict.set (dbs (tenant w pin)) db_id db') w)
    as [[[] w']| |] eqn:Hsave; try discriminate Hsave.
  exists w', db', t'. split; [done|].
  rewrite (tenant_save_state _ _ _ _ Hsave). simpl.
  split; [apply DictFacts.get_set_eq|].
  split; [by apply pop_where_filter|].
  split; [apply DictFacts.get_set_eq|].
  split.
  - simpl. unfold Dict.keys, Dict.pop.
    intros ([k c'] & -> & [Hne _]%list_elem_of_filter)%list_elem_of_fmap.
    by apply Hne.
  - intros t2_id t2 c2_id c2 Ht2 Hc2 Hne.
    destruct (decide (t2_id = t_id)) as [->|Hnt].
    + exists t'. split; [apply DictFacts.get_set_eq|].
      assert (t2 = t) as -> by congruence.
      simpl. unfold Dict.pop. apply list_elem_of_filter. split; [|done].
      simpl. congruence.
    + exists t2. split; [|done].
      by rewrite DictFacts.get_set_ne.
Qed.
Lemma delete_table_cascade_witness :
  (∃ w' db',
     delete_table (Some "pin") "db1" "t1" ex_world = Ok (tt, w')
     ∧ Dict.get (dbs (tenant w' "pin")) "db1" = Some db'
     ∧ ("t1" ∉ Dict.keys (Database.tables db'))
     ∧ Database.links db' =
         filter (λ kl, (¬ link_refs_table "t1" kl.2)
                       ∧ (¬ link_refs_column_in (Dict.keys (Table.columns ex_users)) kl.2))
           (Database.links ex_shop)
     ∧ ∀ l_id l, (l_id, l) ∈ Database.links db' →
         (¬ link_refs_table "t1" l)
         ∧ (¬ link_refs_column_in (Dict.keys (Table.columns ex_users)) l))
  ∧ (delete_table (Some "pin") "db1" "t9" ex_world = Abort NotFound
     ∧ serve (delete_table (Some "pin") "db1" "t9") ex_world = ex_world).
Proof.
  assert (Hwf : Dict.wf (Database.links ex_shop)) by compute_done.
  split.
  - exact (proj1 (delete_table_cascade "pin" ex_world "db1" ex_shop "t1"
                    eq_refl eq_refl Hwf) ex_users eq_refl).
  - exact (proj2 (delete_table_cascade "pin" ex_world "db1" ex_shop "t9"
                    eq_refl eq_refl Hwf) eq_refl).
Defined.

Lemma delete_column_scrubs_links_only_witness :
  ∃ w' db' t',
    delete_column (Some "pin") "db1" "t1" "c1" ex_world = Ok (tt, w')
    ∧ Dict.get (dbs (tenant w' "pin")) "db1" = Some db'
    ∧ Database.links db' =
        filter (λ kl, ¬ link_refs_column "c1" kl.2) (Database.links ex_shop)
    ∧ Dict.get (Database.tables db') "t1" = Some t'
    ∧ ("c1" ∉ Dict.keys (Table.columns t'))
    ∧ (∀ t2_id t2 c2_id c2,
         Dict.get (Database.tables ex_shop) t2_id = Some t2 →
         (c2_id, c2) ∈ Table.columns t2 →
         (t2_id, c2_id) ≠ ("t1", "c1") →
         ∃ t2', Dict.get (Database.tables db') t2_id = Some t2'
                ∧ (c2_id, c2) ∈ Table.columns t2').
Proof.
  assert (Hwf : Dict.wf (Database.links ex_shop)) by compute_done.
  assert (Hc : "c1" ∈ Dict.keys (Table.columns ex_users)) by compute_done.
  exact (delete_column_scrubs_links_only "pin" ex_world "db1" ex_shop "t1"
           ex_users "c1" eq_refl eq_refl Hwf eq_refl Hc).
Defined.

(** After [Users.id] is deleted, [Orders.user_id] still refers to it. *)
Example delete_column_leaves_dangling_ref :
  Database.tables <$>
    Dict.get (dbs (tenant (serve (delete_column (Some "pin") "db1" "t1" "c1") ex_world) "pin")) "db1"
  = Some [("t1", Table.mk "t1" "Users" "" []); ("t2", ex_orders); ("t3", ex_items)]
  ∧ Column.foreign_ref <$> Dict.get (Table.columns ex_orders) "c2"
    = Some (Some (ForeignRef.mk "t1" "c1" "")).
Proof. split; vm_compute; reflexivity. Qed.

(** ** Column order *)

Lemma foldl_max_ge x xs : (x ≤ foldl Z.max x xs)%Z ∧ Forall (λ y, (y ≤ foldl Z.max x xs)%Z) xs.
Proof.
  revert x. induction xs as [|y xs IH]; intros x; simpl.
  - split; [lia|constructor].
  - destruct (IH (Z.max x y)) as [H1 H2]. split; [lia|].
    constructor; [lia|done].
Qed.

Lemma foldl_max_elem x xs : foldl Z.max x xs ∈ x :: xs.
Proof.
  revert x. induction xs as [|y xs IH]; intros x; simpl; [by left|].
  pose proof (IH (Z.max x y)) as [E|Hin]%elem_of_cons.
  - rewrite E. destruct (Z.max_spec x y) as [[_ ->]|[_ ->]]; [right; left|left].
  - by do 2 right.
Qed.

Lemma foldl_max_snoc x xs y : foldl Z.max x (xs ++ [y]) = Z.max (foldl Z.max x xs) y.
Proof. by rewrite foldl_app. Qed.

(** [next_order] is [0] on a table without columns, and otherwise one more
    than an order of the table that no other order of the table exceeds. *)
Lemma next_order_spec (cols : dict Column.t) :
  (cols = [] → next_order cols = 0%Z)
  ∧ (cols ≠ [] →
     (∃ c, c ∈ Dict.values cols ∧ next_order cols = (Column.order c + 1)%Z)
     ∧ ∀ c, c ∈ Dict.values cols → (Column.order c + 1 ≤ next_order cols)%Z).
Proof.
  split; [by intros ->|]. intros Hne.
  destruct cols as [|[k c] cols]; [done|].
  change (next_order ((k, c) :: cols))
    with (foldl Z.max (Column.order c) (Column.order <$> cols.*2) + 1)%Z.
  change (Dict.values ((k, c) :: cols)) with (c :: cols.*2).
  split.
  - pose proof (foldl_max_elem (Column.order c) (Column.order <$> cols.*2))
      as [E|Hin]%elem_of_cons.
    + exists c. split; [left|]. by rewrite E.
    + apply list_elem_of_fmap in Hin as (c' & E & Hin).
      exists c'. split; [by right|]. by rewrite E.
  - destruct (foldl_max_ge (Column.order c) (Column.order <$> cols.*2)) as [H1 H2].
    intros c' [->|Hin]%elem_of_cons; [lia|].
    rewrite Forall_forall in H2.
    assert (Column.order c' ∈ Column.order <$> cols.*2) as Hin'
      by (apply list_elem_of_fmap; eauto).
    apply H2 in Hin'. lia.
Qed.

Lemma next_order_snoc (cols : dict Column.t) k c :
  Column.order c = next_order cols →
  next_order (cols ++ [(k, c)]) = (next_order cols + 1)%Z.
Proof.
  destruct cols as [|[k0 c0] cols].
  - intros E. change (Column.order c + 1 = 0 + 1)%Z. by rewrite E.
  - change (next_order ((k0, c0) :: cols))
      with (foldl Z.max (Column.order c0) (Column.order <$> cols.*2) + 1)%Z.
    change (next_order (((k0, c0) :: cols) ++ [(k, c)]))
      with (foldl Z.max (Column.order c0) (Column.order <$> (cols ++ [(k, c)]).*2) + 1)%Z.
    intros E. rewrite !fmap_app.
    change (Column.order <$> [(k, c)].*2) with [Column.order c].
    rewrite foldl_max_snoc, E. lia.
Qed.

Lemma create_column_run pin w db_id db t_id t data :
  truthy pin = true →
  Dict.get (dbs (tenant w pin)) db_id = Some db →
  Dict.get (Database.tables db) t_id = Some t →
  ∃ col w',
    create_column (Some pin) db_id t_id data w = Ok (col, w')
    ∧ Column.id col = hex8 (uuid4_hi w (uuid4_calls w))
    ∧ Column.order col = next_order (Table.columns t)
    ∧ dbs (tenant w' pin) =
        Dict.set (dbs (tenant w pin)) db_id
          (Database_with_tables db
             (Dict.set (Database.tables db) t_id
                (Table_with_columns t
                   (Dict.set (Table.columns t) (Column.id col) col))))
    ∧ uuid4_calls w' = S (uuid4_calls w)
    ∧ uuid4_hi w' = uuid4_hi w.
Proof.
  intros Hpin Hdb Ht. unfold create_column.
  rewrite bind_unfold, require_pin_Some by done.
  rewrite bind_unfold. unfold get_state_or_init, load_state.
  rewrite bind_unfold, Hdb. simpl. rewrite bind_unfold, Ht. simpl.
  rewrite bind_unfold. unfold gen_id at 1.
  rewrite bind_unfold.
  match goal with
  | |- context [save_state ?p ?d ?w0] =>
      destruct (save_state p d w0) as [[[] w']| |] eqn:Hsave; try discriminate Hsave
  end.
  eexists _, w'. split; [reflexivity|]. simpl.
  split; [done|]. split; [done|].
  rewrite (tenant_save_state _ _ _ _ Hsave). simpl.
  split; [done|].
  unfold save_state in Hsave. by injection Hsave as <-.
Qed.

Lemma drawn_ids_S w n :
  drawn_ids w (S n) =
    hex8 (uuid4_hi w (uuid4_calls w))
    :: ((λ i, hex8 (uuid4_hi w i)) <$> seq (S (uuid4_calls w)) n).
Proof. reflexivity. Qed.

Lemma create_columns_orders pin db_id t_id datas : ∀ w db t,
  truthy pin = true →
  Dict.get (dbs (tenant w pin)) db_id = Some db →
  Dict.get (Database.tables db) t_id = Some t →
  NoDup (drawn_ids w (length datas)) →
  Forall (λ i, i ∉ Dict.keys (Table.columns t)) (drawn_ids w (length datas)) →
  ∃ cols w' db' t',
    create_columns (Some pin) db_id t_id datas w = Ok (cols, w')
    ∧ Column.order <$> cols =
        (λ i, next_order (Table.columns t) + Z.of_nat i)%Z <$> seq 0 (length datas)
    ∧ Dict.get (dbs (tenant w' pin)) db_id = Some db'
    ∧ Dict.get (Database.tables db') t_id = Some t'
    ∧ Table.columns t' = Table.columns t ++ ((λ c, (Column.id c, c)) <$> cols).
Proof.
  induction datas as [|data datas IH]; intros w db t Hpin Hdb Ht Hnd Hfresh.
  - exists [], w, db, t. rewrite app_nil_r. done.
  - simpl length in *. rewrite drawn_ids_S in Hnd, Hfresh.
    apply NoDup_cons in Hnd as [Hhd Hnd].
    apply Forall_cons in Hfresh as [Hfr Hfresh].
    destruct (create_column_run pin w db_id db t_id t data Hpin Hdb Ht)
      as (col & w1 & Hrun & Hid & Hord & Hdbs & Hcalls & Hhi).
    rewrite <- Hid in Hhd, Hfr.
    rewrite (DictFacts.set_fresh _ _ _ Hfr) in Hdbs.
    set (t1 := Table_with_columns t (Table.columns t ++ [(Column.id col, col)])) in Hdbs.
    set (db1 := Database_with_tables db _) in Hdbs.
    destruct (IH w1 db1 t1) as (cols & w' & db' & t' & Hrest & Hords & Hdb' & Ht' & Hcols).
    + done.
    + rewrite Hdbs. apply DictFacts.get_set_eq.
    + apply DictFacts.get_set_eq.
    + unfold drawn_ids. by rewrite Hcalls, Hhi.
    + unfold drawn_ids. rewrite Hcalls, Hhi.
      apply Forall_forall. intros i Hi.
      rewrite Forall_forall in Hfresh. specialize (Hfresh i Hi).
      subst t1. cbn [Table.columns Table_with_columns].
      unfold Dict.keys. rewrite fmap_app, not_elem_of_app. split; [done|].
      intros ->%list_elem_of_singleton. by apply Hhd.
    + exists (col :: cols), w', db', t'.
      split; [|split; [|split; [done|split; [done|]]]].
      * unfold create_columns in *. simpl. rewrite bind_unfold, Hrun.
        rewrite bind_unfold, Hrest. done.
      * rewrite fmap_cons, Hords. simpl.
        rewrite Hord. f_equal; [lia|].
        rewrite <- fmap_S_seq, <- list_fmap_compose.
        apply list_fmap_ext. intros _ i _. simpl.
        subst t1. simpl. rewrite next_order_snoc by done. lia.
      * rewrite Hcols. subst t1. simpl. by rewrite <- app_assoc.
Qed.

(** C6.  [create_column] gives the new column the order [0] in a table
    without columns and otherwise one more than the greatest order of the
    table; so [N] columns created one after the other in a table that had
    none, under distinct identifiers, get the orders [0, 1, ..., N-1] in
    the order of their creation. *)
Theorem create_column_order pin w db_id db t_id t :
  truthy pin = true →
  Dict.get (dbs (tenant w pin)) db_id = Some db →
  Dict.get (Database.tables db) t_id = Some t →
  (∀ data, ∃ col w',
     create_column (Some pin) db_id t_id data w = Ok (col, w')
     ∧ (Table.columns t = [] → Column.order col = 0%Z)
     ∧ (Table.columns t ≠ [] →
        (∃ c, c ∈ Dict.values (Table.columns t)
              ∧ Column.order col = (Column.order c + 1)%Z)
        ∧ ∀ c, c ∈ Dict.values (Table.columns t) →
               (Column.order c + 1 ≤ Column.order col)%Z))
  ∧ (∀ datas,
     Table.columns t = [] →
     NoDup (drawn_ids w (length datas)) →
     ∃ cols w',
       create_columns (Some pin) db_id t_id datas w = Ok (cols, w')
       ∧ Column.order <$> cols = Z.of_nat <$> seq 0 (length datas)).
Proof.
  intros Hpin Hdb Ht. split.
  - intros data.
    destruct (create_column_run pin w db_id db t_id t data Hpin Hdb Ht)
      as (col & w' & Hrun & _ & Hord & _).
    exists col, w'. split; [done|]. rewrite Hord. apply next_order_spec.
  - intros datas Hempty Hnd.
    destruct (create_columns_orders pin db_id t_id datas w db t Hpin Hdb Ht Hnd)
      as (cols & w' & _ & _ & Hrun & Hords & _).
    { rewrite Hempty. apply Forall_forall. intros i _. apply not_elem_of_nil. }
    exists cols, w'. split; [done|]. rewrite Hords, Hempty.
    apply list_fmap_ext. intros _ i _. simpl. unfold next_order. lia.
Qed.

Lemma create_column_order_witness :
  (∃ col w',
     create_column (Some "pin") "db1" "t1" (ex_column "email") ex_world = Ok (col, w')
     ∧ (Table.columns ex_users = [] → Column.order col = 0%Z)
     ∧ (Table.columns ex_users ≠ [] →
        (∃ c, c ∈ Dict.values (Table.columns ex_users)
              ∧ Column.order col = (Column.order c + 1)%Z)
        ∧ ∀ c, c ∈ Dict.values (Table.columns ex_users) →
               (Column.order c + 1 ≤ Column.order col)%Z))
  ∧ (∃ cols w',
       create_columns (Some "pin") "db1" "t3"
         [ex_column "sku"; ex_column "label"; ex_column "price"] ex_world = Ok (cols, w')
       ∧ Column.order <$> cols = [0; 1; 2]%Z).
Proof.
  split.
  - exact (proj1 (create_column_order "pin" ex_world "db1" ex_shop "t1" ex_users
                    eq_refl eq_refl eq_refl) (ex_column "email")).
  - assert (Hnd : NoDup (drawn_ids ex_world 3)) by compute_done.
    exact (proj2 (create_column_order "pin" ex_world "db1" ex_shop "t3" ex_items
                    eq_refl eq_refl eq_refl)
             [ex_column "sku"; ex_column "label"; ex_column "price"] eq_refl Hnd).
Defined.

(** ** Folders *)

Lemma has_child_document_true fid (docs : dict Document.t) :
  has_child_document fid docs = true
  ↔ ∃ d, d ∈ Dict.values docs ∧ Document.parent_id d = Some fid.
Proof.
  unfold has_child_document. rewrite bool_decide_eq_true, Exists_exists. done.
Qed.

Lemma has_child_folder_true fid (folders : dict DocFolder.t) :
  has_child_folder fid folders = true
  ↔ ∃ f, f ∈ Dict.values folders ∧ DocFolder.id f ≠ fid
         ∧ DocFolder.parent_id f = Some fid.
Proof.
  unfold has_child_folder. rewrite bool_decide_eq_true, Exists_exists.
  split.
  - intros (f & [Hid Hin]%list_elem_of_filter & Hp). eauto.
  - intros (f & Hin & Hid & Hp). exists f. split; [|done].
    by apply list_elem_of_filter.
Qed.

(** C8, as the code has it.  Deleting a folder that is present aborts with
    InvalidInput, the files untouched, when a document, or a folder other
    than the folder itself, has it as parent; otherwise the deletion
    succeeds, removes the folder and keeps every other folder and every
    document. *)
Theorem delete_folder_guard pin w fid :
  truthy pin = true →
  fid ∈ Dict.keys (doc_folders (tenant w pin)) →
  (folder_not_empty fid (doc_folders (tenant w pin)) (documents (tenant w pin)) →
     api_delete_folder (Some pin) fid w = Abort InvalidInput
     ∧ serve (api_delete_folder (Some pin) fid) w = w)
  ∧ (¬ folder_not_empty fid (doc_folders (tenant w pin)) (documents (tenant w pin)) →
     ∃ w',
       api_delete_folder (Some pin) fid w = Ok (tt, w')
       ∧ (fid ∉ Dict.keys (doc_folders (tenant w' pin)))
       ∧ (∀ k, k ≠ fid →
            Dict.get (doc_folders (tenant w' pin)) k
            = Dict.get (doc_folders (tenant w pin)) k)
       ∧ documents (tenant w' pin) = documents (tenant w pin)).
Proof.
  intros Hpin Hfid.
  assert (Hstart : ∀ b,
    has_child_document fid (documents (tenant w pin))
    || has_child_folder fid (doc_folders (tenant w pin)) = b →
    api_delete_folder (Some pin) fid w =
      if b then Abort InvalidInput
      else (save_docs pin (Dict.pop (doc_folders (tenant w pin)) fid)
              (documents (tenant w pin)) ≫= λ _, mret tt) w).
  { intros b Hb. unfold api_delete_folder.
    rewrite bind_unfold, require_pin_Some by done.
    rewrite bind_unfold. unfold load_docs.
    apply DictFacts.mem_true in Hfid. rewrite Hfid. simpl. rewrite Hb. by destruct b. }
  split.
  - intros Hne.
    assert (api_delete_folder (Some pin) fid w = Abort InvalidInput) as E.
    { rewrite (Hstart true); [done|]. apply orb_true_iff.
      destruct Hne as [Hd|Hf]; [left|right].
      - by apply has_child_document_true.
      - by apply has_child_folder_true. }
    split; [done|]. unfold serve. by rewrite E.
  - intros Hempty.
    rewrite (Hstart false).
    2:{ apply orb_false_iff. split; apply not_true_is_false; intros H; apply Hempty.
        - left. by apply has_child_document_true.
        - right. by apply has_child_folder_true. }
    rewrite bind_unfold.
    destruct (save_docs pin (Dict.pop (doc_folders (tenant w pin)) fid)
                (documents (tenant w pin)) w) as [[[] w']| |] eqn:Hsave;
      try discriminate Hsave.
    exists w'. split; [done|].
    rewrite (tenant_save_docs _ _ _ _ _ Hsave). simpl.
    split; [|split; [|done]].
    + unfold Dict.keys, Dict.pop.
      intros ([k f] & -> & [Hne _]%list_elem_of_filter)%list_elem_of_fmap.
      by apply Hne.
    + intros k Hk. apply DictFacts.get_pop_ne. done.
Qed.

Lemma delete_folder_guard_witness :
  (folder_not_empty "fa" ex_folders ex_documents →
     api_delete_folder (Some "pin") "fa" ex_docs_world = Abort InvalidInput
     ∧ serve (api_delete_folder (Some "pin") "fa") ex_docs_world = ex_docs_world)
  ∧ (¬ folder_not_empty "f1" ex_loop_folders [] →
     ∃ w',
       api_delete_folder (Some "pin") "f1" ex_loop_world = Ok (tt, w')
       ∧ ("f1" ∉ Dict.keys (doc_folders (tenant w' "pin")))
       ∧ (∀ k, k ≠ "f1" →
            Dict.get (doc_folders (tenant w' "pin")) k
            = Dict.get (doc_folders (tenant ex_loop_world "pin")) k)
       ∧ documents (tenant w' "pin") = documents (tenant ex_loop_world "pin")).
Proof.
  assert (H1 : "fa" ∈ Dict.keys (doc_folders (tenant ex_docs_world "pin")))
    by compute_done.
  assert (H2 : "f1" ∈ Dict.keys (doc_folders (tenant ex_loop_world "pin")))
    by compute_done.
  split.
  - exact (proj1 (delete_folder_guard "pin" ex_docs_world "fa" eq_refl H1)).
  - exact (proj2 (delete_folder_guard "pin" ex_loop_world "f1" eq_refl H2)).
Defined.

(** The folder [f1] has [parent_id] equal to [f1], and deleting [f1]
    succeeds. *)
Lemma delete_folder_ignores_self_parent :
  (∃ f, f ∈ Dict.values (doc_folders (tenant ex_loop_world "pin"))
        ∧ DocFolder.parent_id f = Some "f1")
  ∧ ∃ w', api_delete_folder (Some "pin") "f1" ex_loop_world = Ok (tt, w')
          ∧ doc_folders (tenant w' "pin") = [].
Proof.
  split.
  - exists (DocFolder.mk "f1" "Loop" (Some "f1")). split; [|done].
    change (doc_folders (tenant ex_loop_world "pin")) with ex_loop_folders. left.
  - eexists. split; [vm_compute; reflexivity|]. vm_compute. reflexivity.
Qed.

(** *** Cycles *)

Lemma parent_step_set folders k f x p :
  parent_step (Dict.set folders k f) x p
  ↔ (x = k ∧ DocFolder.parent_id f = Some p) ∨ (x ≠ k ∧ parent_step folders x p).
Proof.
  unfold parent_step. destruct (decide (x = k)) as [->|Hne].
  - rewrite DictFacts.get_set_eq. split.
    + intros (f' & [= <-] & Hp). by left.
    + intros [[_ Hp]|[? _]]; [eauto|done].
  - rewrite DictFacts.get_set_ne by done. split; [by right|].
    intros [[? _]|[_ ?]]; done.
Qed.

(** A folder put under a new key that no folder names as parent closes no
    cycle. *)
Lemma acyclic_set_fresh folders k f :
  acyclic folders →
  (∀ x, ¬ parent_step folders x k) →
  DocFolder.parent_id f ≠ Some k →
  acyclic (Dict.set folders k f).
Proof.
  intros Hac Hnone Hself.
  assert (Hinto : ∀ x y, parent_step (Dict.set folders k f) x y → y ≠ k).
  { intros x y [[_ Hp]|[_ Hs]]%parent_step_set ->; [done|]. by eapply Hnone. }
  assert (Hlast : ∀ x y, tc (parent_step (Dict.set folders k f)) x y → y ≠ k).
  { induction 1; eauto. }
  assert (Hold : ∀ x y, tc (parent_step (Dict.set folders k f)) x y →
                        x ≠ k → tc (parent_step folders) x y).
  { induction 1 as [x y Hs|x y z Hs Htc IH]; intros Hx.
    - apply parent_step_set in Hs as [[? _]|[_ Hs]]; [done|]. by apply tc_once.
    - pose proof (Hinto _ _ Hs) as Hy.
      apply parent_step_set in Hs as [[? _]|[_ Hs]]; [done|].
      eapply tc_l; eauto. }
  intros x Hx. apply (Hac x). apply Hold; [done|]. by eapply Hlast.
Qed.

(** Giving a folder a parent that is neither the folder nor below it closes
    no cycle. *)
Lemma acyclic_set_parent folders k f :
  acyclic folders →
  (∀ p, DocFolder.parent_id f = Some p →
        p ≠ k ∧ ¬ tc (parent_step folders) p k) →
  acyclic (Dict.set folders k f).
Proof.
  intros Hac Hsafe.
  set (R := parent_step folders). set (R' := parent_step (Dict.set folders k f)).
  assert (LA : ∀ x y, tc R' x y →
            tc R x y ∨ (rtc R x k ∧ ∃ p, DocFolder.parent_id f = Some p ∧ rtc R' p y)).
  { induction 1 as [x y Hs|x y z Hs Htc IH].
    - apply parent_step_set in Hs as [[-> Hp]|[_ Hs]].
      + right. split; [done|]. by exists y.
      + left. by apply tc_once.
    - apply parent_step_set in Hs as [[-> Hp]|[_ Hs]].
      + right. split; [done|]. exists y. split; [done|]. by apply tc_rtc.
      + destruct IH as [IH|[IH1 IH2]].
        * left. by eapply tc_l.
        * right. split; [|done]. by eapply rtc_l. }
  assert (LB : ∀ x y, rtc R' x y → y = k → rtc R x k).
  { induction 1 as [x|x y z Hs Hrtc IH]; intros ->; [done|].
    apply parent_step_set in Hs as [[-> _]|[_ Hs]]; [done|].
    eapply rtc_l; eauto. }
  assert (LC : ∀ x y, rtc R x y → y = k → rtc R' x k).
  { induction 1 as [x|x y z Hs Hrtc IH]; intros ->; [done|].
    destruct (decide (x = k)) as [->|Hne]; [done|].
    eapply rtc_l; [|by apply IH]. apply parent_step_set. by right. }
  intros x Hx. destruct (LA _ _ Hx) as [Hold|(Hxk & p & Hp & Hpx)].
  - by apply (Hac x).
  - destruct (Hsafe p Hp) as [Hne Hnot].
    assert (rtc R p k) as Hpk.
    { eapply LB; [|done]. etrans; [exact Hpx|]. by eapply LC. }
    apply rtc_tc in Hpk as [?|?]; done.
Qed.

Lemma dangling_parent_false {V} pid (folders : dict V) :
  dangling_parent pid folders = false →
  ∀ p, pid = Some p → p = "" ∨ p ∈ Dict.keys folders.
Proof.
  intros Hd p ->. simpl in Hd. apply andb_false_iff in Hd as [Ht|Hm].
  - left. unfold truthy in Ht. apply bool_decide_eq_false in Ht.
    by apply dec_stable.
  - right. apply negb_false_iff in Hm. by apply DictFacts.mem_true.
Qed.

Lemma or_none_truthy o p : or_none o = Some p → p ≠ "".
Proof.
  destruct o as [s|]; simpl; [|done].
  destruct (truthy s) eqn:E; [|done]. intros [= ->].
  unfold truthy in E. by apply bool_decide_eq_true in E.
Qed.

Lemma api_create_folder_inv pin data w f w' :
  truthy pin = true →
  api_create_folder (Some pin) data w = Ok (f, w') →
  DocFolder.id f = hex8 (uuid4_hi w (uuid4_calls w))
  ∧ (∀ p, DocFolder.parent_id f = Some p → p ∈ Dict.keys (doc_folders (tenant w pin)))
  ∧ doc_folders (tenant w' pin)
    = Dict.set (doc_folders (tenant w pin)) (DocFolder.id f) f
  ∧ documents (tenant w' pin) = documents (tenant w pin).
Proof.
  intros Hpin. unfold api_create_folder.
  rewrite bind_unfold, require_pin_Some by done.
  rewrite bind_unfold. unfold load_docs.
  destruct (dangling_parent _ _) eqn:Hd; [done|].
  rewrite bind_unfold. unfold gen_id at 1. rewrite bind_unfold.
  match goal with
  | |- context [save_docs ?p ?a ?b ?w0] =>
      destruct (save_docs p a b w0) as [[[] w1]| |] eqn:Hsave; try done
  end.
  intros [= <- <-]. simpl.
  rewrite (tenant_save_docs _ _ _ _ _ Hsave). simpl.
  split; [done|]. split; [|done].
  intros p Hp.
  destruct (dangling_parent_false _ _ Hd p Hp) as [->|?]; [|done].
  by apply or_none_truthy in Hp.
Qed.

Lemma api_update_folder_inv pin fid data w f w' :
  truthy pin = true →
  api_update_folder (Some pin) fid data w = Ok (f, w') →
  ∃ f0,
    Dict.get (doc_folders (tenant w pin)) fid = Some f0
    ∧ DocFolder.parent_id f
      = match fp_parent_id data with
        | Some pid => pid
        | None => DocFolder.parent_id f0
        end
    ∧ (∀ p, fp_parent_id data = Some (Some p) →
            p = "" ∨ p ∈ Dict.keys (doc_folders (tenant w pin)))
    ∧ doc_folders (tenant w' pin) = Dict.set (doc_folders (tenant w pin)) fid f
    ∧ documents (tenant w' pin) = documents (tenant w pin).
Proof.
  intros Hpin. unfold api_update_folder.
  rewrite bind_unfold, require_pin_Some by done.
  rewrite bind_unfold. unfold load_docs.
  rewrite bind_unfold.
  destruct (Dict.get (doc_folders (tenant w pin)) fid) as [f0|] eqn:Hget; [|done].
  simpl. rewrite bind_unfold.
  set (f1 := match fp_name data with Some _ => _ | None => f0 end).
  assert (DocFolder.parent_id f1 = DocFolder.parent_id f0) as Hf1
    by (subst f1; by destruct (fp_name data)).
  destruct (fp_parent_id data) as [pid|] eqn:Hpid.
  - destruct (dangling_parent pid _) eqn:Hd; [done|]. simpl.
    rewrite bind_unfold.
    match goal with
    | |- context [save_docs ?p ?a ?b ?w0] =>
        destruct (save_docs p a b w0) as [[[] w1]| |] eqn:Hsave; try done
    end.
    intros [= <- <-]. exists f0.
    rewrite (tenant_save_docs _ _ _ _ _ Hsave). simpl.
    split; [done|]. split; [done|]. split; [|done].
    intros p [= ->]. by eapply dangling_parent_false.
  - simpl. rewrite bind_unfold.
    match goal with
    | |- context [save_docs ?p ?a ?b ?w0] =>
        destruct (save_docs p a b w0) as [[[] w1]| |] eqn:Hsave; try done
    end.
    intros [= <- <-]. exists f0.
    rewrite (tenant_save_docs _ _ _ _ _ Hsave). simpl.
    split; [done|]. split; [done|]. split; [|done]. done.
Qed.

(** A safe request that the store accepts keeps the tree acyclic. *)
Lemma folder_request_acyclic pin op w w' :
  truthy pin = true →
  acyclic (doc_folders (tenant w pin)) →
  folder_op_safe pin w op →
  folder_request (Some pin) op w = Ok (tt, w') →
  acyclic (doc_folders (tenant w' pin)).
Proof.
  intros Hpin Hac Hsafe. destruct op as [data|fid data]; simpl.
  - rewrite bind_unfold.
    destruct (api_create_folder (Some pin) data w) as [[f w1]| |] eqn:Hrun; try done.
    intros [= <-].
    apply api_create_folder_inv in Hrun as (Hid & Hparent & -> & _); [|done].
    destruct Hsafe as [Hkey Hnone]. rewrite <- Hid in Hkey, Hnone.
    apply acyclic_set_fresh; [done| |].
    + intros x (f' & Hget & Hp). eapply Hnone; [|exact Hp].
      apply DictFacts.get_Some_elem in Hget.
      unfold Dict.values. apply list_elem_of_fmap. by exists (x, f').
    + intros Hp. by apply Hparent in Hp.
  - rewrite bind_unfold.
    destruct (api_update_folder (Some pin) fid data w) as [[f w1]| |] eqn:Hrun; try done.
    intros [= <-].
    apply api_update_folder_inv in Hrun as (f0 & Hget & Hparent & _ & -> & _); [|done].
    apply acyclic_set_parent; [done|].
    intros p Hp. rewrite Hparent in Hp.
    destruct (fp_parent_id data) as [pid|] eqn:Hpid.
    + rewrite Hp in Hpid. exact (Hsafe p Hpid).
    + assert (parent_step (doc_folders (tenant w pin)) fid p) as Hstep
        by (exists f0; done).
      split.
      * intros ->. apply (Hac fid). by apply tc_once.
      * intros Htc. apply (Hac fid). by eapply tc_l.
Qed.

(** C5, as the code has it.  Creating folders closes no cycle, and neither
    does an update whose new parent is not the folder itself nor a folder
    below it: along every accepted sequence of such requests an acyclic
    tree stays acyclic.  The update handler itself checks only that the
    parent exists. *)
Theorem folder_requests_acyclic pin ops : ∀ w w',
  truthy pin = true →
  acyclic (doc_folders (tenant w pin)) →
  folder_ops_safe pin ops w →
  folder_requests (Some pin) ops w = Ok (tt, w') →
  acyclic (doc_folders (tenant w' pin)).
Proof.
  unfold folder_requests.
  induction ops as [|op ops IH]; intros w w' Hpin Hac Hsafe; simpl.
  - by intros [= <-].
  - rewrite bind_unfold. destruct Hsafe as [Hop Hrest].
    destruct (folder_request (Some pin) op w) as [[[] w1]| |] eqn:Hrun; try done.
    intros Hrun'. eapply IH; [done| |exact Hrest|exact Hrun'].
    by eapply folder_request_acyclic.
Qed.

Lemma acyclic_nil : acyclic [].
Proof.
  intros x H. inversion H as [? ? (f & Hget & _)|? ? ? (f & Hget & _)]; done.
Qed.

Lemma parent_step_get folders x p :
  parent_step folders x p →
  DocFolder.parent_id <$> Dict.get folders x = Some (Some p).
Proof. intros (f & -> & <-). done. Qed.

Lemma folder_ops_safe_cons pin op ops w w1 :
  folder_request (Some pin) op w = Ok (tt, w1) →
  folder_op_safe pin w op →
  folder_ops_safe pin ops w1 →
  folder_ops_safe pin (op :: ops) w.
Proof. intros Hrun Hop Hrest. simpl. by rewrite Hrun. Qed.

(** The tree is new to every identifier that no key and no parent shows. *)
Lemma folder_create_safe pin w data :
  hex8 (uuid4_hi w (uuid4_calls w)) ∉ Dict.keys (doc_folders (tenant w pin)) →
  Some (hex8 (uuid4_hi w (uuid4_calls w)))
    ∉ DocFolder.parent_id <$> Dict.values (doc_folders (tenant w pin)) →
  folder_op_safe pin w (FolderCreate data).
Proof.
  intros Hk Hp. split; [done|]. intros f Hf E. apply Hp.
  apply list_elem_of_fmap. eauto.
Qed.

Lemma folder_requests_acyclic_witness :
  acyclic (doc_folders
             (tenant (serve (folder_requests (Some "pin") ex_folder_ops) ex_empty_world)
                "pin")).
Proof.
  apply (folder_requests_acyclic "pin" ex_folder_ops ex_empty_world);
    [reflexivity|apply acyclic_nil| |vm_compute; reflexivity].
  set (w1 := serve (folder_requests (Some "pin") (take 1 ex_folder_ops)) ex_empty_world).
  set (w2 := serve (folder_requests (Some "pin") (take 2 ex_folder_ops)) ex_empty_world).
  set (w3 := serve (folder_requests (Some "pin") (take 3 ex_folder_ops)) ex_empty_world).
  apply (folder_ops_safe_cons _ _ _ _ w1); [vm_compute; reflexivity| |].
  { apply folder_create_safe; compute_done. }
  apply (folder_ops_safe_cons _ _ _ _ w2); [vm_compute; reflexivity| |].
  { apply folder_create_safe; compute_done. }
  apply (folder_ops_safe_cons _ _ _ _ w3); [vm_compute; reflexivity| |].
  { apply folder_create_safe; compute_done. }
  split; [|exact I].
  intros p [= <-]. split; [done|].
  intros H. inversion H as [? ? Hs|? y ? Hs Htc]; subst.
  - apply parent_step_get in Hs. vm_compute in Hs. discriminate Hs.
  - apply parent_step_get in Hs. vm_compute in Hs. injection Hs as <-.
    inversion Htc as [? ? Hs|? y ? Hs _]; subst;
      apply parent_step_get in Hs; vm_compute in Hs; discriminate Hs.
Defined.

(** C5 fails on the code: the update of a folder to be its own parent is
    accepted, and so is its move under its own child. *)
Lemma update_folder_accepts_cycle :
  (∃ w', folder_requests (Some "pin") ex_self_parent_ops ex_empty_world = Ok (tt, w')
         ∧ ¬ acyclic (doc_folders (tenant w' "pin")))
  ∧ (∃ w', folder_requests (Some "pin") ex_under_child_ops ex_empty_world = Ok (tt, w')
           ∧ ¬ acyclic (doc_folders (tenant w' "pin"))).
Proof.
  split.
  - eexists. split; [vm_compute; reflexivity|].
    intros Hac. apply (Hac "00000001").
    apply tc_once. eexists. split; vm_compute; reflexivity.
  - eexists. split; [vm_compute; reflexivity|].
    intros Hac. apply (Hac "00000001").
    apply (tc_l _ _ "00000002").
    + eexists. split; vm_compute; reflexivity.
    + apply tc_once. eexists. split; vm_compute; reflexivity.
Qed.

(** ** Subtree resolution *)

Lemma pop_last_None {A} (l : list A) : pop_last l = None ↔ l = [].
Proof.
  unfold pop_last. destruct (reverse l) eqn:E.
  - split; [|done]. intros _. apply (f_equal reverse) in E.
    by rewrite reverse_involutive in E.
  - split; [done|]. intros ->. done.
Qed.

Lemma pop_last_Some {A} (l r : list A) x : pop_last l = Some (r, x) ↔ l = r ++ [x].
Proof.
  unfold pop_last. destruct (reverse l) as [|y l'] eqn:E.
  - split; [done|]. intros ->. by rewrite reverse_app in E.
  - apply (f_equal reverse) in E. rewrite reverse_involutive, reverse_cons in E.
    subst l. split.
    + by intros [= <- <-].
    + intros [-> ->]%app_inj_tail. done.
Qed.

Section subtree.
Variable folders : dict DocFolder.t.
Variable root : string.
Hypothesis folders_wf : Dict.wf folders.

Local Abbreviation step := (parent_step folders).
Local Abbreviation universe := (subtree_universe folders root).
Local Abbreviation loop_inv := (subtree_loop_inv folders root).

Lemma parent_step_elem x p :
  step x p ↔ ∃ f, (x, f) ∈ folders ∧ DocFolder.parent_id f = Some p.
Proof.
  split; intros (f & Hf & Hp); exists f; split; try done.
  - by apply DictFacts.get_Some_elem.
  - by apply DictFacts.elem_get.
Qed.

Lemma parent_step_functional x p q : step x p → step x q → p = q.
Proof. intros (f & Hf & Hp) (g & Hg & Hq). congruence. Qed.

Lemma unvisited_children_elem x (S : gset string) c :
  c ∈ unvisited_children folders x S ↔ step c x ∧ c ∉ S.
Proof.
  unfold unvisited_children. rewrite list_elem_of_fmap, parent_step_elem. split.
  - intros ([k f] & -> & [[Hp Hk] Hin]%list_elem_of_filter). simpl in *. eauto.
  - intros [(f & Hin & Hp) Hk]. exists (c, f). split; [done|].
    by apply list_elem_of_filter.
Qed.

Lemma unvisited_children_NoDup x (S : gset string) :
  NoDup (unvisited_children folders x S).
Proof.
  unfold unvisited_children. apply NoDup_fmap_fst.
  - intros k f g [_ Hf]%list_elem_of_filter [_ Hg]%list_elem_of_filter.
    apply (DictFacts.elem_get _ _ _ folders_wf) in Hf, Hg. congruence.
  - apply NoDup_filter. eapply NoDup_fmap_1, folders_wf.
Qed.

Lemma universe_size : size universe ≤ S (length folders).
Proof.
  unfold subtree_universe. rewrite size_union_alt, size_singleton.
  apply le_n_S.
  etrans; [apply subseteq_size, subseteq_difference_l; reflexivity|].
  rewrite size_list_to_set by exact folders_wf.
  unfold Dict.keys. by rewrite length_fmap.
Qed.

Lemma parent_step_universe x p : step x p → x ∈ universe.
Proof.
  intros (f & Hf & _). unfold subtree_universe. apply elem_of_union_r, elem_of_list_to_set.
  apply DictFacts.get_is_Some. eauto.
Qed.

Lemma loop_inv_init : loop_inv ∅ [root].
Proof.
  split.
  - apply NoDup_singleton.
  - intros x _. apply not_elem_of_empty.
  - by left.
  - intros x Hx. by apply not_elem_of_empty in Hx.
  - intros x p _ Hp. by apply not_elem_of_empty in Hp.
  - right. by left.
  - intros x Hx. by apply not_elem_of_empty in Hx.
Qed.

Lemma loop_inv_pending_universe subtree pending x :
  loop_inv subtree pending → x ∈ pending → x ∈ universe.
Proof.
  intros Hinv Hx. destruct (inv_origin Hinv) as [[-> _]|Hor].
  - apply list_elem_of_singleton in Hx as ->. unfold subtree_universe. set_solver.
  - destruct (Hor x Hx) as (p & Hs & _). by eapply parent_step_universe.
Qed.

Lemma loop_inv_step subtree pending x :
  loop_inv subtree (pending ++ [x]) →
  loop_inv ({[x]} ∪ subtree)
    (pending ++ unvisited_children folders x ({[x]} ∪ subtree)).
Proof.
  intros Hinv.
  pose proof (inv_nodup Hinv) as Hnd.
  apply NoDup_app in Hnd as (Hnd & Hnx & _).
  assert (Hx : x ∉ subtree).
  { apply (inv_unvisited Hinv). set_solver. }
  assert (Horigin : ∀ y, y ∈ pending → ∃ p, step y p ∧ p ∈ subtree).
  { intros y Hy. destruct (inv_origin Hinv) as [[E _]|Hor].
    - destruct pending; [by apply elem_of_nil in Hy|].
      apply (f_equal length) in E. rewrite length_app in E. simpl in E. lia.
    - apply Hor. set_solver. }
  split.
  - apply NoDup_app. split; [done|]. split; [|apply unvisited_children_NoDup].
    intros y Hy [Hs _]%unvisited_children_elem.
    destruct (Horigin y Hy) as (p & Hs' & Hp).
    rewrite (parent_step_functional _ _ _ Hs Hs') in Hx. done.
  - intros y [Hy|Hy]%elem_of_app.
    + apply not_elem_of_union. split.
      * intros E%elem_of_singleton. subst y. apply (Hnx x Hy). by left.
      * apply (inv_unvisited Hinv). set_solver.
    + by apply unvisited_children_elem in Hy as [_ ?].
  - right. intros y [Hy|Hy]%elem_of_app.
    + destruct (Horigin y Hy) as (p & Hs & Hp). exists p. set_solver.
    + apply unvisited_children_elem in Hy as [Hs _]. exists x. set_solver.
  - intros y [->%elem_of_singleton|Hy]%elem_of_union.
    + destruct (inv_origin Hinv) as [[E _]|Hor].
      * destruct pending as [|? [|]]; simplify_eq/=. done.
      * destruct (Hor x) as (p & Hs & Hp); [set_solver|].
        eapply rtc_l; [exact Hs|]. by apply (inv_sound Hinv).
    + by apply (inv_sound Hinv).
  - intros y p Hs [->%elem_of_singleton|Hp]%elem_of_union.
    + destruct (decide (y ∈ {[x]} ∪ subtree)) as [?|Hy]; [by left|].
      right. apply elem_of_app. right. by apply unvisited_children_elem.
    + pose proof (inv_closed Hinv y p Hs Hp) as [?|[?| ->%list_elem_of_singleton]%elem_of_app].
      * left. set_solver.
      * right. set_solver.
      * left. set_solver.
  - pose proof (inv_root Hinv) as [?|[?| ->%list_elem_of_singleton]%elem_of_app].
    + left. set_solver.
    + right. set_solver.
    + left. set_solver.
  - intros y [->%elem_of_singleton|Hy]%elem_of_union.
    + eapply loop_inv_pending_universe; [exact Hinv|]. set_solver.
    + by apply (inv_universe Hinv).
Qed.

(** With a round of fuel for every node not yet visited, and one more, the
    loop ends, on an empty [pending]. *)
Lemma subtree_loop_terminates fuel : ∀ subtree pending,
  loop_inv subtree pending →
  size (universe ∖ subtree) < fuel →
  ∃ subtree', subtree_loop fuel folders subtree pending = Some subtree'
              ∧ loop_inv subtree' [].
Proof.
  induction fuel as [|fuel IH]; intros subtree pending Hinv Hfuel; [lia|].
  simpl. destruct (pop_last pending) as [[rest x]|] eqn:Hpop.
  - apply pop_last_Some in Hpop as ->.
    apply IH; [by apply loop_inv_step|].
    assert (x ∈ universe ∖ subtree) as Hx.
    { apply elem_of_difference. split.
      - eapply loop_inv_pending_universe; [exact Hinv|]. set_solver.
      - apply (inv_unvisited Hinv). set_solver. }
    assert (universe ∖ ({[x]} ∪ subtree) ⊂ universe ∖ subtree) as Hlt.
    { split.
      - intros y [Hy Hn]%elem_of_difference. apply elem_of_difference.
        split; [done|]. intros Hs. apply Hn, elem_of_union. by right.
      - intros Hsub. specialize (Hsub x Hx).
        apply elem_of_difference in Hsub as [_ Hn].
        apply Hn, elem_of_union. left. by apply elem_of_singleton. }
    apply subset_size in Hlt. lia.
  - apply pop_last_None in Hpop as ->. eauto.
Qed.

Lemma loop_inv_done subtree x :
  loop_inv subtree [] → x ∈ subtree ↔ rtc step x root.
Proof.
  intros Hinv. split; [apply (inv_sound Hinv)|].
  intros Hrtc. remember root as r eqn:Hr.
  induction Hrtc as [x|x y z Hs Hrtc IH]; subst.
  - pose proof (inv_root Hinv) as [?|?%elem_of_nil]; done.
  - pose proof (inv_closed Hinv x y Hs (IH eq_refl Hinv)) as [?|?%elem_of_nil]; done.
Qed.
End subtree.

(** From the root alone the loop ends within one round for each folder and
    two more, with nothing left pending. *)
Lemma subtree_loop_from_root (folders : dict DocFolder.t) (root : string) (fuel : nat) :
  Dict.wf folders →
  length folders + 2 ≤ fuel →
  ∃ subtree,
    subtree_loop fuel folders ∅ [root] = Some subtree
    ∧ subtree_loop_inv folders root subtree [].
Proof.
  intros Hwf Hfuel.
  apply (subtree_loop_terminates folders root Hwf fuel ∅ [root]).
  - apply loop_inv_init.
  - pose proof (universe_size folders root Hwf) as Hsize.
    assert (size (subtree_universe folders root ∖ ∅)
            ≤ size (subtree_universe folders root)) as Hle.
    { apply subseteq_size. intros x [Hx _]%elem_of_difference. exact Hx. }
    lia.
Qed.

(** C9.  On every folder map and for every root, cyclic parent chains
    included, the subtree loop ends within one round for each folder and
    two more, and the set it returns holds exactly the root and the folders
    from which following [parent_id] reaches the root. *)
Theorem subtree_loop_total (folders : dict DocFolder.t) (root : string) (fuel : nat) :
  Dict.wf folders →
  length folders + 2 ≤ fuel →
  ∃ subtree,
    subtree_loop fuel folders ∅ [root] = Some subtree
    ∧ ∀ x, x ∈ subtree ↔ rtc (parent_step folders) x root.
Proof.
  intros Hwf Hfuel.
  destruct (subtree_loop_from_root folders root fuel Hwf Hfuel)
    as (subtree & Hrun & Hinv).
  exists subtree. split; [exact Hrun|].
  intros x. split.
  - apply (inv_sound Hinv).
  - intros Hreach. by apply (loop_inv_done folders root subtree x Hinv).
Qed.

Lemma subtree_loop_total_witness :
  ∃ subtree,
    subtree_loop 6 ex_cyclic_folders ∅ ["a"] = Some subtree
    ∧ ∀ x, x ∈ subtree ↔ rtc (parent_step ex_cyclic_folders) x "a".
Proof.
  assert (Hwf : Dict.wf ex_cyclic_folders) by compute_done.
  assert (Hfuel : length ex_cyclic_folders + 2 ≤ 6) by (simpl; lia).
  exact (subtree_loop_total ex_cyclic_folders "a" 6 Hwf Hfuel).
Defined.

(** On the corrupt tree the loop visits [a], [b] and [c] and stops. *)
Example subtree_loop_cyclic :
  subtree_loop 6 ex_cyclic_folders ∅ ["a"] = Some {[ "a"; "b"; "c" ]}.
Proof. vm_compute. reflexivity. Qed.

Lemma resolve_subtree_run fuel folders root w :
  Dict.wf folders →
  length folders + 2 ≤ fuel →
  ∃ subtree,
    resolve_subtree fuel folders root w = Ok (subtree, w)
    ∧ ∀ x, x ∈ subtree ↔ rtc (parent_step folders) x root.
Proof.
  intros Hwf Hfuel.
  destruct (subtree_loop_from_root folders root fuel Hwf Hfuel)
    as (subtree & Hrun & Hinv).
  exists subtree. split.
  - unfold resolve_subtree. by rewrite Hrun.
  - intros x. by apply loop_inv_done.
Qed.

(** ** Share resolver *)

Lemma shared_context_unknown token w :
  Dict.get (shares_file w) token = None →
  _shared_context token w = Abort NotFound.
Proof.
  intros Hget. unfold _shared_context, load_shares.
  rewrite bind_unfold. simpl. rewrite bind_unfold, Hget. done.
Qed.

Lemma shared_context_known token s w :
  Dict.get (shares_file w) token = Some s →
  _shared_context token w
  = Ok ((s, doc_folders (tenant w (DocShare.pin s)),
            documents (tenant w (DocShare.pin s))), w).
Proof.
  intros Hget. unfold _shared_context, load_shares.
  rewrite bind_unfold. simpl. rewrite bind_unfold, Hget. done.
Qed.

(** The test of the folder handlers is membership in the shared tree. *)
Lemma in_scope_within folders root (subtree : gset string) d :
  (∀ x, x ∈ subtree ↔ rtc (parent_step folders) x root) →
  opt_in (Document.parent_id d) subtree || opt_is (Document.parent_id d) root = true
  ↔ within_share folders root d.
Proof.
  intros Hsub. unfold within_share, opt_in, opt_is.
  rewrite orb_true_iff, bool_decide_eq_true.
  destruct (Document.parent_id d) as [p|].
  - rewrite bool_decide_eq_true, Hsub. split.
    + intros [?|E]; exists p; (split; [done|]); [done|].
      injection E as ->. done.
    + intros (q & [= <-] & ?). by left.
  - split; [by intros [?|?]|]. by intros (q & ? & _).
Qed.

(** C4.  A token that maps to no share makes every share handler abort
    with NotFound.  For a share of kind 'doc' the resolver allows exactly
    the document whose id is the target; for a share of kind 'folder' it
    allows exactly the documents whose parent folder is the root or reaches
    it, and reading or annotating any other document through the share
    aborts with Forbidden. *)
Theorem share_authorization fuel w token doc_id cookie data :
  (Dict.get (shares_file w) token = None →
     shared_doc cookie token w = Abort NotFound
     ∧ shared_folder cookie token w = Abort NotFound
     ∧ shared_folder_doc fuel cookie token doc_id w = Abort NotFound
     ∧ shared_folder_sub fuel cookie token doc_id w = Abort NotFound
     ∧ api_shared_add_note fuel token doc_id data w = Abort NotFound
     ∧ api_shared_resolve_doc fuel token doc_id w = Abort NotFound
     ∧ api_shared_docs_state fuel token w = Abort NotFound)
  ∧ (∀ s d,
       Dict.get (shares_file w) token = Some s →
       Dict.get (documents (tenant w (DocShare.pin s))) doc_id = Some d →
       Dict.wf (doc_folders (tenant w (DocShare.pin s))) →
       length (doc_folders (tenant w (DocShare.pin s))) + 2 ≤ fuel →
       ∃ allowed url,
         api_shared_resolve_doc fuel token doc_id w = Ok ((allowed, url), w)
         ∧ (DocShare.kind s = "doc" →
              (allowed = true ↔ DocShare.target_id s = doc_id))
         ∧ (DocShare.kind s = "folder" →
              (allowed = true
               ↔ within_share (doc_folders (tenant w (DocShare.pin s)))
                   (DocShare.target_id s) d)
              ∧ (allowed = false →
                   shared_folder_doc fuel cookie token doc_id w = Abort Forbidden
                   ∧ api_shared_add_note fuel token doc_id data w = Abort Forbidden))).
Proof.
  split.
  - intros Hget.
    unfold shared_doc, shared_folder, shared_folder_doc, shared_folder_sub,
      api_shared_add_note, api_shared_resolve_doc, api_shared_docs_state.
    rewrite !bind_unfold, !shared_context_unknown by done. done.
  - intros s d Hget Hdoc Hwf Hfuel.
    set (folders := doc_folders (tenant w (DocShare.pin s))) in *.
    set (root := DocShare.target_id s).
    destruct (resolve_subtree_run fuel folders root w Hwf Hfuel)
      as (subtree & Hsub & Hiff).
    pose proof (in_scope_within folders root subtree d Hiff) as Hscope.
    destruct (decide (DocShare.kind s = "folder")) as [Hk|Hk].
    + exists (opt_in (Document.parent_id d) subtree
              || opt_is (Document.parent_id d) root). eexists.
      split; [|split].
      * unfold api_shared_resolve_doc.
        rewrite bind_unfold, (shared_context_known _ _ _ Hget).
        rewrite bind_unfold, Hdoc. simpl.
        rewrite (bool_decide_eq_true_2 _ Hk).
        rewrite bind_unfold. fold folders root. rewrite Hsub. reflexivity.
      * intros Hk'. rewrite Hk in Hk'. discriminate Hk'.
      * intros _. split; [exact Hscope|]. intros Hno. split.
        -- unfold shared_folder_doc.
           rewrite bind_unfold, (shared_context_known _ _ _ Hget).
           rewrite (bool_decide_eq_true_2 _ Hk). simpl.
           rewrite bind_unfold, Hdoc. simpl.
           rewrite bind_unfold. fold folders root. rewrite Hsub.
           apply orb_false_iff in Hno as [-> ->]. done.
        -- unfold api_shared_add_note.
           rewrite bind_unfold, (shared_context_known _ _ _ Hget).
           rewrite (bool_decide_eq_true_2 _ Hk), orb_true_r. simpl.
           rewrite bind_unfold, Hdoc. simpl.
           rewrite !bind_unfold. fold folders root. rewrite Hsub.
           apply orb_false_iff in Hno as [-> ->]. done.
    + exists (bool_decide (DocShare.kind s = "doc")
              && bool_decide (DocShare.target_id s = doc_id)). eexists.
      split; [|split].
      * unfold api_shared_resolve_doc.
        rewrite bind_unfold, (shared_context_known _ _ _ Hget).
        rewrite bind_unfold, Hdoc. simpl.
        rewrite (bool_decide_eq_false_2 _ Hk). reflexivity.
      * intros Hk'. rewrite (bool_decide_eq_true_2 _ Hk'). simpl.
        apply bool_decide_eq_true.
      * intros Hk'. done.
Qed.

Lemma share_authorization_witness :
  (shared_doc None "zz" ex_docs_world = Abort NotFound
   ∧ shared_folder None "zz" ex_docs_world = Abort NotFound
   ∧ shared_folder_doc 5 None "zz" "d2" ex_docs_world = Abort NotFound
   ∧ shared_folder_sub 5 None "zz" "d2" ex_docs_world = Abort NotFound
   ∧ api_shared_add_note 5 "zz" "d2" ex_note ex_docs_world = Abort NotFound
   ∧ api_shared_resolve_doc 5 "zz" "d2" ex_docs_world = Abort NotFound
   ∧ api_shared_docs_state 5 "zz" ex_docs_world = Abort NotFound)
  ∧ (∃ allowed url,
       api_shared_resolve_doc 5 "sa" "d2" ex_docs_world = Ok ((allowed, url), ex_docs_world)
       ∧ (DocShare.kind (DocShare.mk "sa" "pin" "folder" "fa" 0%Z) = "doc" →
            (allowed = true ↔ "fa" = "d2"))
       ∧ (DocShare.kind (DocShare.mk "sa" "pin" "folder" "fa" 0%Z) = "folder" →
            (allowed = true
             ↔ within_share ex_folders "fa" (Document.mk "d2" "Doc2" (Some "fc") "" [] 0%Z))
            ∧ (allowed = false →
                 shared_folder_doc 5 None "sa" "d2" ex_docs_world = Abort Forbidden
                 ∧ api_shared_add_note 5 "sa" "d2" ex_note ex_docs_world = Abort Forbidden))).
Proof.
  assert (Hwf : Dict.wf ex_folders) by compute_done.
  assert (Hfuel : length ex_folders + 2 ≤ 5) by (simpl; lia).
  split.
  - exact (proj1 (share_authorization 5 ex_docs_world "zz" "d2" None ex_note) eq_refl).
  - exact (proj2 (share_authorization 5 ex_docs_world "sa" "d2" None ex_note)
             (DocShare.mk "sa" "pin" "folder" "fa" 0%Z)
             (Document.mk "d2" "Doc2" (Some "fc") "" [] 0%Z)
             eq_refl eq_refl Hwf Hfuel).
Defined.

(** The share of folder [A] allows [Doc1], which lies under its child [B],
    and not [Doc2] of the sibling [C]; the share of [Doc1] alone does not
    allow [Doc2]. *)
Example share_containment :
  fst <$> answer (api_shared_resolve_doc 5 "sa" "d1" ex_docs_world) = Some true
  ∧ fst <$> answer (api_shared_resolve_doc 5 "sa" "d2" ex_docs_world) = Some false
  ∧ fst <$> answer (api_shared_resolve_doc 5 "sd" "d1" ex_docs_world) = Some true
  ∧ fst <$> answer (api_shared_resolve_doc 5 "sd" "d2" ex_docs_world) = Some false.
Proof. repeat split; vm_compute; reflexivity. Qed.

(** The note endpoint does not compare the document with the target of a
    'doc' share: the share of [Doc1] annotates [Doc2]. *)
Example shared_add_note_doc_share :
  ∃ n w', api_shared_add_note 5 "sd" "d2" ex_note ex_docs_world = Ok (n, w')
          ∧ DocNote.text n = "hi".
Proof. eexists _, _. split; vm_compute; reflexivity. Qed.

(** ** Duplication *)

Lemma hex8_truthy v : truthy (hex8 v) = true.
Proof. done. Qed.

Lemma gen_id_run w : gen_id w = Ok (hex8 (uuid4_hi w (uuid4_calls w)), skip_ids 1 w).
Proof. unfold gen_id, skip_ids. by rewrite Nat.add_1_r. Qed.

Lemma skip_ids_0 w : skip_ids 0 w = w.
Proof. destruct w. unfold skip_ids. simpl. by rewrite Nat.add_0_r. Qed.

Lemma skip_ids_skip a b w : skip_ids a (skip_ids b w) = skip_ids (b + a) w.
Proof. unfold skip_ids. simpl. by rewrite Nat.add_assoc. Qed.

Lemma tenant_skip_ids k w pin : tenant (skip_ids k w) pin = tenant w pin.
Proof. done. Qed.

Lemma drawn_ids_app w a b :
  drawn_ids w (a + b) = drawn_ids w a ++ drawn_ids (skip_ids a w) b.
Proof. unfold drawn_ids. simpl. by rewrite seq_app, fmap_app. Qed.

Lemma drawn_ids_cons w n :
  drawn_ids w (S n) = hex8 (uuid4_hi w (uuid4_calls w)) :: drawn_ids (skip_ids 1 w) n.
Proof.
  change (S n) with (1 + n). rewrite drawn_ids_app. done.
Qed.

Lemma length_drawn_ids w n : length (drawn_ids w n) = n.
Proof. unfold drawn_ids. by rewrite length_fmap, length_seq. Qed.

(** The rule of [for_each]: an invariant of the processed prefix that every
    round re-establishes holds of the whole list at the end, and the loop
    does not abort. *)
Lemma for_each_invariant {A S} (I : list A → S → World → Prop)
    (body : S → A → M S) xs s w :
  I [] s w →
  (∀ done x rest s w,
     xs = done ++ x :: rest → I done s w →
     ∃ s' w', body s x w = Ok (s', w') ∧ I (done ++ [x]) s' w') →
  ∃ s' w', for_each xs body s w = Ok (s', w') ∧ I xs s' w'.
Proof.
  intros Hinit Hstep.
  assert (∀ rest done s w, xs = done ++ rest → I done s w →
            ∃ s' w', for_each rest body s w = Ok (s', w') ∧ I xs s' w') as Hgen.
  { induction rest as [|x rest IH]; intros done s0 w0 Hxs Hinv.
    - rewrite app_nil_r in Hxs. subst. by exists s0, w0.
    - destruct (Hstep done x rest s0 w0 Hxs Hinv) as (s1 & w1 & Hrun & Hinv1).
      destruct (IH (done ++ [x]) s1 w1) as (s' & w' & Hrest & Hfin); [|done|].
      { by rewrite <- app_assoc. }
      exists s', w'. split; [|done]. simpl. by rewrite bind_unfold, Hrun. }
  by apply (Hgen xs [] s w).
Qed.

(** *** Writing into a dictionary *)

Lemma elem_of_set {V} (d : dict V) k v k' v' :
  (k', v') ∈ Dict.set d k v → (k', v') = (k, v) ∨ (k', v') ∈ d.
Proof.
  induction d as [|[k1 v1] d IH]; simpl.
  - intros ->%list_elem_of_singleton. by left.
  - case_decide; subst.
    + intros [->|?]%elem_of_cons; [by left|]. right. by right.
    + intros [->|?]%elem_of_cons; [right; by left|].
      destruct IH as [?|?]; [done|by left|]. right. by right.
Qed.

Lemma keys_set_present {V} (d : dict V) k v :
  is_Some (Dict.get d k) → Dict.keys (Dict.set d k v) = Dict.keys d.
Proof. intros ?%DictFacts.get_is_Some. by apply DictFacts.keys_set_mem. Qed.

(** Replacing the value of a key keeps a pointwise relation to another list
    when the new value is related to whatever the old one was. *)
Lemma Forall2_set {A V} (R : A → string * V → Prop) (l : list A) (d : dict V)
    k v_old v :
  Forall2 R l d →
  Dict.get d k = Some v_old →
  (∀ x, R x (k, v_old) → R x (k, v)) →
  Forall2 R l (Dict.set d k v).
Proof.
  intros HF. induction HF as [|x [k1 v1] l d HR HF IH]; simpl; [done|].
  intros Hk Hnew. case_decide; subst.
  - injection Hk as ->. constructor; [by apply Hnew|done].
  - constructor; [done|]. by apply IH.
Qed.

(** *** First pass *)

(** The inner loop in closed form, under new identifiers that are distinct
    and not yet columns of the table. *)
Lemma copy_columns_run t_new cols : ∀ w new_columns cmap pending,
  NoDup (drawn_ids w (length cols)) →
  Forall (λ i, i ∉ Dict.keys new_columns) (drawn_ids w (length cols)) →
  for_each cols (copy_column_step t_new) (new_columns, cmap, pending) w
  = Ok ((new_columns
           ++ zip_with (λ id kc, (id, copy_column id kc.2))
                (drawn_ids w (length cols)) cols,
         foldl (λ m p, Dict.set m p.1 p.2) cmap
           (zip (Dict.keys cols) (drawn_ids w (length cols))),
         pending ++ deferred_refs t_new (drawn_ids w (length cols)) cols),
        skip_ids (length cols) w).
Proof.
  induction cols as [|[c_old c] cols IH]; intros w new_columns cmap pending Hnd Hfresh.
  - simpl. by rewrite !app_nil_r, skip_ids_0.
  - simpl length in *. rewrite drawn_ids_cons in *.
    apply NoDup_cons in Hnd as [Hhd Hnd].
    apply Forall_cons in Hfresh as [Hfr Hfresh].
    set (id := hex8 (uuid4_hi w (uuid4_calls w))) in *.
    cbn [for_each]. rewrite bind_unfold.
    unfold copy_column_step at 1. rewrite bind_unfold, gen_id_run. fold id.
    cbn [mret M_ret].
    rewrite (DictFacts.set_fresh _ _ _ Hfr).
    rewrite IH; [| done |].
    + rewrite skip_ids_skip, <- app_assoc.
      unfold deferred_refs. cbn [zip zip_with omap list_omap fst snd].
      destruct (Column.foreign_ref c); simpl; by rewrite <- ?app_assoc.
    + apply Forall_forall. intros i Hi.
      rewrite Forall_forall in Hfresh. specialize (Hfresh i Hi).
      unfold Dict.keys. rewrite fmap_app, not_elem_of_app. split; [done|].
      intros ->%list_elem_of_singleton. done.
Qed.

Lemma get_fold_set (ks vs : list string) : ∀ (m : dict string) k,
  length ks = length vs →
  (is_Some (Dict.get (foldl (λ m p, Dict.set m p.1 p.2) m (zip ks vs)) k)
   ↔ is_Some (Dict.get m k) ∨ k ∈ ks)
  ∧ (∀ v, Dict.get (foldl (λ m p, Dict.set m p.1 p.2) m (zip ks vs)) k = Some v →
          Dict.get m k = Some v ∨ v ∈ vs).
Proof.
  revert vs. induction ks as [|k0 ks IH]; intros [|v0 vs] m k Hlen; try done.
  - simpl. split; [|by left]. split; [by left|]. by intros [?|?%elem_of_nil].
  - simpl in Hlen. injection Hlen as Hlen. simpl.
    destruct (IH vs (Dict.set m k0 v0) k Hlen) as [IH1 IH2]. split.
    + rewrite IH1. destruct (decide (k0 = k)) as [->|Hne].
      * rewrite DictFacts.get_set_eq. split; [intros _; right; left|by left].
      * rewrite DictFacts.get_set_ne by done. rewrite elem_of_cons.
        split; [intros [?|?]; eauto|intros [?|[?|?]]; eauto]. congruence.
    + intros v Hv. destruct (IH2 v Hv) as [Hset|?]; [|right; by right].
      destruct (decide (k0 = k)) as [->|Hne].
      * rewrite DictFacts.get_set_eq in Hset. injection Hset as ->. right. left.
      * rewrite DictFacts.get_set_ne in Hset by done. by left.
Qed.

Lemma deferred_refs_elem t_new ids cols tk ck fr :
  (tk, ck, fr) ∈ deferred_refs t_new ids cols →
  tk = t_new
  ∧ ∃ j c_old c, ids !! j = Some ck ∧ cols !! j = Some (c_old, c)
                 ∧ Column.foreign_ref c = Some fr.
Proof.
  unfold deferred_refs. intros ([id [c_old c]] & Hin & Hfr)%list_elem_of_omap.
  simpl in Hfr. destruct (Column.foreign_ref c) as [fr'|] eqn:E; [|done].
  injection Hfr as -> -> ->. split; [done|].
  apply list_elem_of_lookup in Hin as [j Hj].
  apply lookup_zip_with_Some in Hj as (x & y & [= <- <-] & Hx & Hy).
  by exists j, c_old, c.
Qed.

Lemma copied_columns_keys ids (cols : dict Column.t) :
  length ids = length cols →
  Dict.keys (zip_with (λ id kc, (id, copy_column id kc.2)) ids cols) = ids.
Proof.
  revert cols. induction ids as [|id ids IH]; intros [|kc cols] Hlen; try done.
  simpl in *. injection Hlen as Hlen. unfold Dict.keys in *. simpl.
  f_equal. by apply IH.
Qed.

Lemma copied_columns_Forall2 ids (cols : dict Column.t) :
  length ids = length cols →
  Forall2 column_copied cols
    (zip_with (λ id kc, (id, copy_column id kc.2)) ids cols).
Proof.
  revert cols. induction ids as [|id ids IH]; intros [|kc cols] Hlen; try done.
  simpl in *. injection Hlen as Hlen. constructor; [done|by apply IH].
Qed.

Lemma flat_ids_app ts1 ts2 : flat_ids (ts1 ++ ts2) = flat_ids ts1 ++ flat_ids ts2.
Proof. unfold flat_ids. apply bind_app. Qed.

Lemma col_keys_app ts1 ts2 : col_keys (ts1 ++ ts2) = col_keys ts1 ++ col_keys ts2.
Proof. unfold col_keys. apply bind_app. Qed.

Lemma flat_ids_singleton k t : flat_ids [(k, t)] = k :: Dict.keys (Table.columns t).
Proof. unfold flat_ids. simpl. by rewrite app_nil_r. Qed.

Lemma col_keys_singleton k t : col_keys [(k, t)] = Dict.keys (Table.columns t).
Proof. unfold col_keys. simpl. by rewrite app_nil_r. Qed.

Lemma keys_flat_ids ts k : k ∈ Dict.keys ts → k ∈ flat_ids ts.
Proof.
  unfold Dict.keys, flat_ids. intros ([k' t] & -> & Hin)%list_elem_of_fmap.
  apply list_elem_of_bind. exists (k', t). split; [left|done].
Qed.

Lemma col_keys_flat_ids ts k : k ∈ col_keys ts → k ∈ flat_ids ts.
Proof.
  unfold col_keys, flat_ids. intros (kt & Hk & Hin)%list_elem_of_bind.
  apply list_elem_of_bind. exists kt. split; [by right|done].
Qed.

Lemma col_keys_elem ts k :
  k ∈ col_keys ts ↔ ∃ tk t, (tk, t) ∈ ts ∧ k ∈ Dict.keys (Table.columns t).
Proof.
  unfold col_keys. rewrite list_elem_of_bind. split.
  - intros ([tk t] & Hk & Hin). eauto.
  - intros (tk & t & Hin & Hk). by exists (tk, t).
Qed.

Lemma pass1_inv_init w1 : pass1_inv w1 [] (mkPass1 [] [] [] []) w1.
Proof.
  split; simpl.
  - by rewrite skip_ids_0.
  - done.
  - constructor.
  - intros k. split; [by intros [? ?]|by intros ?%elem_of_nil].
  - done.
  - intros k. split; [by intros [? ?]|by intros ?%elem_of_nil].
  - done.
  - by intros tk ck fr ?%elem_of_nil.
  - by intros tk t ck c ?%elem_of_nil.
Qed.

Lemma pass1_inv_step w1 tables done t_old t rest s w :
  Dict.wf tables →
  NoDup (drawn_ids w1 (length (flat_ids tables))) →
  tables = done ++ (t_old, t) :: rest →
  pass1_inv w1 done s w →
  ∃ s' w', copy_table_step s (t_old, t) w = Ok (s', w')
           ∧ pass1_inv w1 (done ++ [(t_old, t)]) s' w'.
Proof.
  intros Hwf Hnd Htables Hinv.
  set (m := length (flat_ids done)).
  set (cols := Table.columns t).
  set (n := length cols).
  (* the identifiers at hand *)
  assert (Hsplit : drawn_ids w1 (length (flat_ids tables))
                   = drawn_ids w1 m ++ drawn_ids w (S n)
                     ++ drawn_ids (skip_ids (S n) w) (length (flat_ids rest))).
  { rewrite Htables, flat_ids_app, length_app. fold m.
    change ((t_old, t) :: rest) with ([(t_old, t)] ++ rest).
    rewrite flat_ids_app, length_app, flat_ids_singleton. simpl length.
    unfold Dict.keys. rewrite length_fmap. fold cols n.
    rewrite !drawn_ids_app, (p1_world Hinv). fold m.
    by rewrite skip_ids_skip. }
  rewrite Hsplit in Hnd.
  apply NoDup_app in Hnd as (_ & Hold & Hnd).
  apply NoDup_app in Hnd as (Hnd & _ & _).
  rewrite drawn_ids_cons in Hnd, Hold.
  set (t_new := hex8 (uuid4_hi w (uuid4_calls w))) in *.
  set (ids := drawn_ids (skip_ids 1 w) n) in *.
  apply NoDup_cons in Hnd as [Hhd Hnd].
  assert (Hlen : length ids = length cols) by apply length_drawn_ids.
  (* the round *)
  unfold copy_table_step. rewrite bind_unfold, gen_id_run. fold t_new.
  rewrite bind_unfold. fold cols.
  rewrite copy_columns_run; [|exact Hnd|by apply Forall_forall; intros ? _; apply not_elem_of_nil].
  fold n ids. rewrite app_nil_l. cbn [mret M_ret].
  eexists _, _. split; [reflexivity|].
  set (new_cols := zip_with _ ids cols).
  set (new_table := Table.mk t_new (Table.name t) (Table.note t) new_cols).
  assert (Hfresh : t_new ∉ Dict.keys (new_tables s)).
  { intros Hin%keys_flat_ids. rewrite (p1_ids Hinv) in Hin. fold m in Hin.
    apply (Hold t_new Hin). by left. }
  rewrite (DictFacts.set_fresh _ _ _ Hfresh).
  assert (Hkeys : NoDup (Dict.keys done ++ [t_old])).
  { rewrite Htables in Hwf. unfold Dict.wf, Dict.keys in *.
    rewrite fmap_app, fmap_cons in Hwf.
    apply NoDup_app in Hwf as (H1 & H2 & H3).
    apply NoDup_app. split; [done|]. split; [|apply NoDup_singleton].
    intros k Hk ->%list_elem_of_singleton. apply (H2 _ Hk). by left. }
  apply NoDup_app in Hkeys as (_ & Hkeys & _).
  split; simpl.
  - rewrite skip_ids_skip, flat_ids_app, length_app, flat_ids_singleton.
    simpl length. unfold Dict.keys. rewrite length_fmap. fold cols n m.
    rewrite (p1_world Hinv), skip_ids_skip. fold m. f_equal; lia.
  - rewrite !flat_ids_app, !flat_ids_singleton, length_app. simpl length.
    unfold Dict.keys at 2. rewrite length_fmap. fold cols n m.
    rewrite (p1_ids Hinv). fold m.
    rewrite drawn_ids_app. f_equal. unfold m. rewrite <- (p1_world Hinv), drawn_ids_cons.
    fold t_new ids. f_equal. subst new_table. simpl.
    by apply copied_columns_keys.
  - apply Forall2_app.
    + eapply Forall2_impl; [apply (p1_tables Hinv)|].
      intros [k1 t1] [k1' t1'] (Hget & ?). split; [|done]. simpl in *.
      rewrite DictFacts.get_set_ne; [done|].
      intros <-. apply (Hkeys t_old); [|by left].
      apply (p1_table_dom Hinv). eauto.
    + constructor; [|constructor]. split; [apply DictFacts.get_set_eq|].
      simpl. repeat split. by apply copied_columns_Forall2.
  - intros k. unfold Dict.keys. rewrite fmap_app, elem_of_app. simpl.
    rewrite list_elem_of_singleton. destruct (decide (t_old = k)) as [->|Hne].
    + rewrite DictFacts.get_set_eq. split; [by right|eauto].
    + rewrite DictFacts.get_set_ne by done. rewrite (p1_table_dom Hinv).
      split; [by left|]. by intros [?|?].
  - intros k v. unfold Dict.keys. rewrite fmap_app, elem_of_app. simpl.
    rewrite list_elem_of_singleton. destruct (decide (t_old = k)) as [->|Hne].
    + rewrite DictFacts.get_set_eq. intros [= <-]. by right.
    + rewrite DictFacts.get_set_ne by done. intros Hv. left.
      by apply (p1_table_img Hinv) in Hv.
  - intros k. rewrite col_keys_app, col_keys_singleton, elem_of_app. fold cols.
    destruct (get_fold_set (Dict.keys cols) ids (col_id_map s) k) as [-> _].
    { unfold Dict.keys. by rewrite length_fmap. }
    by rewrite (p1_col_dom Hinv).
  - intros k v Hv. rewrite col_keys_app, col_keys_singleton, elem_of_app.
    destruct (get_fold_set (Dict.keys cols) ids (col_id_map s) k) as [_ Himg].
    { unfold Dict.keys. by rewrite length_fmap. }
    destruct (Himg v Hv) as [Hold'|Hnew].
    + left. by apply (p1_col_img Hinv) in Hold'.
    + right. subst new_table new_cols. cbn [Table.columns snd].
      by rewrite copied_columns_keys.
  - intros tk ck fr [Hin|Hin]%elem_of_app.
    + destruct (p1_pending Hinv tk ck fr Hin)
        as (i & t_old' & t1 & t1' & j & c_old & c & c' & H1 & H2 & H3 & H4 & H5).
      exists i, t_old', t1, t1', j, c_old, c, c'.
      split; [by apply lookup_app_l_Some|]. split; [by apply lookup_app_l_Some|].
      done.
    + apply deferred_refs_elem in Hin as (-> & j & c_old & c & Hid & Hc & Hfr).
      pose proof (Forall2_length _ _ _ (p1_tables Hinv)) as Hlen'.
      exists (length done), t_old, t, new_table, j, c_old, c, (copy_column ck c).
      split; [by rewrite lookup_app_r, Nat.sub_diag by lia|].
      split; [by rewrite Hlen', lookup_app_r, Nat.sub_diag by lia|].
      split; [done|]. split; [|done].
      subst new_table new_cols. simpl. apply lookup_zip_with_Some.
      by exists ck, (c_old, c).
  - intros tk t1 ck c [Hin|Hin]%elem_of_app.
    + intros Hc. exact (p1_norefs Hinv tk t1 ck c Hin Hc).
    + apply list_elem_of_singleton in Hin as [= -> ->]. subst new_table new_cols.
      cbn [Table.columns].
      intros (j & Hj)%list_elem_of_lookup.
      apply lookup_zip_with_Some in Hj as (x & y & [= -> ->] & _ & _). done.
Qed.

Lemma pass1_run tables w1 :
  Dict.wf tables →
  NoDup (drawn_ids w1 (length (flat_ids tables))) →
  ∃ p, for_each tables copy_table_step (mkPass1 [] [] [] []) w1
       = Ok (p, skip_ids (length (flat_ids tables)) w1)
       ∧ pass1_inv w1 tables p (skip_ids (length (flat_ids tables)) w1).
Proof.
  intros Hwf Hnd.
  destruct (for_each_invariant (pass1_inv w1) copy_table_step tables
              (mkPass1 [] [] [] []) w1) as (p & w' & Hrun & Hinv).
  - apply pass1_inv_init.
  - intros done [t_old t] rest s w Htables Hinv.
    by eapply pass1_inv_step.
  - pose proof (p1_world Hinv) as Hw. subst w'. by exists p.
Qed.

Lemma flat_ids_NoDup ts :
  NoDup (flat_ids ts) →
  NoDup (Dict.keys ts) ∧ Forall (λ kt, NoDup (Dict.keys (Table.columns kt.2))) ts.
Proof.
  induction ts as [|[k t] ts IH].
  - intros _. split; constructor.
  - change ((k, t) :: ts) with ([(k, t)] ++ ts).
    rewrite flat_ids_app, flat_ids_singleton.
    intros (H1 & H2 & H3)%NoDup_app.
    apply NoDup_cons in H1 as [_ H1].
    destruct (IH H3) as [IH1 IH2]. split.
    + simpl. apply NoDup_cons. split; [|done].
      intros Hk%keys_flat_ids. apply (H2 k); [by left|done].
    + by constructor.
Qed.


(** *** Second pass *)

Lemma same_keys_keys ts ts' :
  Forall2 same_keys ts ts' →
  Dict.keys ts = Dict.keys ts' ∧ col_keys ts = col_keys ts'.
Proof.
  induction 1 as [|[k t] [k' t'] ts ts' [Hk Hc] _ [IH1 IH2]]; [done|].
  simpl in *. subst k'. unfold Dict.keys, col_keys in *. simpl.
  split; [by rewrite IH1|by rewrite Hc, IH2].
Qed.

Lemma keys_lookup {V} (d : dict V) i k :
  Dict.keys d !! i = Some k → ∃ v, d !! i = Some (k, v).
Proof.
  unfold Dict.keys. rewrite list_lookup_fmap.
  destruct (d !! i) as [[k' v]|]; simpl; [|done]. intros [= ->]. eauto.
Qed.

Lemma pass2_inv_init src_tables p w1 w0 :
  pass1_inv w1 src_tables p w0 →
  pass2_inv src_tables p w0 [] (new_tables p) w0.
Proof.
  intros Hp1. split.
  - done.
  - apply (p1_tables Hp1).
  - apply Forall_Forall2_diag, Forall_forall. by intros [k t] _.
  - intros tk t ck c r Ht Hc Hr.
    by rewrite (p1_norefs Hp1 tk t ck c Ht Hc) in Hr.
Qed.

Lemma pass2_inv_step src_tables p w1 w0 done tk ck fr rest ts w :
  pass1_inv w1 src_tables p w0 →
  NoDup (flat_ids (new_tables p)) →
  pending_refs p = done ++ (tk, ck, fr) :: rest →
  pass2_inv src_tables p w0 done ts w →
  ∃ ts' w', resolve_ref_step (table_id_map p) (col_id_map p) ts (tk, ck, fr) w
            = Ok (ts', w')
            ∧ pass2_inv src_tables p w0 (done ++ [(tk, ck, fr)]) ts' w'.
Proof.
  intros Hp1 Hnd Hpending Hinv.
  assert (Hkeep : pass2_inv src_tables p w0 (done ++ [(tk, ck, fr)]) ts w).
  { split; [apply (p2_world Hinv)|apply (p2_tables Hinv)|apply (p2_keys Hinv)|].
    intros tk' t ck' c r Ht Hc Hr.
    destruct (p2_refs Hinv tk' t ck' c r Ht Hc Hr) as (fr' & Hin & ?).
    exists fr'. split; [|done]. apply elem_of_app. by left. }
  unfold resolve_ref_step.
  destruct (Dict.get (table_id_map p) (ForeignRef.table_id fr)) as [mapped_t|] eqn:Hmt;
    [|by exists ts, w].
  destruct (Dict.get (col_id_map p) (ForeignRef.column_id fr)) as [mapped_c|] eqn:Hmc;
    [|by exists ts, w].
  destruct (truthy mapped_t && truthy mapped_c); [|by exists ts, w].
  (* the column is there *)
  destruct (p1_pending Hp1 tk ck fr)
    as (i & t_old & t_src & t0 & j & c_old & c_src & c0 & _ & Ht0 & _ & Hc0 & _).
  { rewrite Hpending. apply elem_of_app. right. by left. }
  destruct (same_keys_keys _ _ (p2_keys Hinv)) as [Hkeys _].
  destruct (flat_ids_NoDup _ Hnd) as [Hnd_t Hnd_c].
  destruct (Forall2_lookup_l _ _ _ _ _ (p2_keys Hinv) Ht0) as ([tk' t] & Ht & Htk & Hck).
  simpl in Htk, Hck. subst tk'.
  assert (Hget_t : Dict.get ts tk = Some t).
  { apply DictFacts.elem_get; [unfold Dict.wf; by rewrite <- Hkeys|].
    apply list_elem_of_lookup. eauto. }
  assert (∃ c, Table.columns t !! j = Some (ck, c)) as [c Hc].
  { apply keys_lookup. rewrite <- Hck. unfold Dict.keys.
    by rewrite list_lookup_fmap, Hc0. }
  assert (Hget_c : Dict.get (Table.columns t) ck = Some c).
  { apply DictFacts.elem_get; [|apply list_elem_of_lookup; eauto].
    unfold Dict.wf. rewrite <- Hck.
    rewrite Forall_forall in Hnd_c. apply (Hnd_c (tk, t0)).
    apply list_elem_of_lookup. eauto. }
  rewrite bind_unfold. simpl. rewrite Hget_t. simpl.
  rewrite bind_unfold, Hget_c. simpl.
  set (r := ForeignRef.mk mapped_t mapped_c (ForeignRef.note fr)).
  set (c' := Column_with_foreign_ref c (Some r)).
  set (t' := Table_with_columns t (Dict.set (Table.columns t) ck c')).
  exists (Dict.set ts tk t'), w. split; [done|]. split.
  - apply (p2_world Hinv).
  - eapply Forall2_set; [apply (p2_tables Hinv)|exact Hget_t|].
    intros [k1 t1] (H1 & H2 & H3 & H4 & H5). repeat split; try done.
    simpl in *. eapply Forall2_set; [exact H5|exact Hget_c|].
    intros [k2 c2] Hcopied. exact Hcopied.
  - eapply Forall2_set; [apply (p2_keys Hinv)|exact Hget_t|].
    intros [k1 t1] [H1 H2]. split; [done|]. simpl in *.
    rewrite H2. symmetry. apply keys_set_present. eauto.
  - intros tk' t1 ck' c1 r1 [[= -> ->]|Ht1]%elem_of_set.
    + simpl. intros [[= -> ->]|Hc1]%elem_of_set.
      * simpl. intros [= <-]. exists fr.
        split; [apply elem_of_app; right; by left|done].
      * intros Hr1.
        destruct (p2_refs Hinv tk t ck' c1 r1) as (fr' & Hin & ?); try done.
        { by apply DictFacts.get_Some_elem. }
        exists fr'. split; [|done]. apply elem_of_app. by left.
    + intros Hc1 Hr1.
      destruct (p2_refs Hinv tk' t1 ck' c1 r1) as (fr' & Hin & ?); try done.
      exists fr'. split; [|done]. apply elem_of_app. by left.
Qed.

Lemma pass2_run src_tables p w1 w0 :
  pass1_inv w1 src_tables p w0 →
  NoDup (flat_ids (new_tables p)) →
  ∃ ts, for_each (pending_refs p)
          (resolve_ref_step (table_id_map p) (col_id_map p)) (new_tables p) w0
        = Ok (ts, w0)
        ∧ pass2_inv src_tables p w0 (pending_refs p) ts w0.
Proof.
  intros Hp1 Hnd.
  destruct (for_each_invariant (pass2_inv src_tables p w0)
              (resolve_ref_step (table_id_map p) (col_id_map p))
              (pending_refs p) (new_tables p) w0) as (ts & w' & Hrun & Hinv).
  - by eapply pass2_inv_init.
  - intros done [[tk ck] fr] rest ts w Hpending Hinv.
    by eapply pass2_inv_step.
  - pose proof (p2_world Hinv) as Hw. subst w'. by exists ts.
Qed.

(** *** Links *)

Lemma remap_links_run tmap cmap links : ∀ w new_links,
  NoDup (drawn_ids w (length links)) →
  Forall (λ i, i ∉ Dict.keys new_links) (drawn_ids w (length links)) →
  for_each links (remap_link_step tmap cmap) new_links w
  = Ok (new_links
          ++ zip_with (λ id kl, (id, copy_link tmap cmap id kl.2))
               (drawn_ids w (length links)) links,
        skip_ids (length links) w).
Proof.
  induction links as [|[l_old l] links IH]; intros w new_links Hnd Hfresh.
  - simpl. by rewrite app_nil_r, skip_ids_0.
  - simpl length in *. rewrite drawn_ids_cons in *.
    apply NoDup_cons in Hnd as [Hhd Hnd].
    apply Forall_cons in Hfresh as [Hfr Hfresh].
    set (id := hex8 (uuid4_hi w (uuid4_calls w))) in *.
    cbn [for_each]. rewrite bind_unfold.
    unfold remap_link_step at 1. rewrite bind_unfold, gen_id_run. fold id.
    cbn [mret M_ret].
    rewrite (DictFacts.set_fresh _ _ _ Hfr).
    rewrite IH; [| done |].
    + by rewrite skip_ids_skip, <- app_assoc.
    + apply Forall_forall. intros i Hi.
      rewrite Forall_forall in Hfresh. specialize (Hfresh i Hi).
      unfold Dict.keys. rewrite fmap_app, not_elem_of_app. split; [done|].
      intros ->%list_elem_of_singleton. done.
Qed.

Lemma copied_links_keys tmap cmap ids (links : dict Link.t) :
  length ids = length links →
  Dict.keys (zip_with (λ id kl, (id, copy_link tmap cmap id kl.2)) ids links) = ids.
Proof.
  revert links. induction ids as [|id ids IH]; intros [|kl links] Hlen; try done.
  simpl in *. injection Hlen as Hlen. unfold Dict.keys in *. simpl.
  f_equal. by apply IH.
Qed.

(** *** The whole duplication *)

Lemma NoDup_lookup_key {V} (d : dict V) i j k v v' :
  NoDup (Dict.keys d) → d !! i = Some (k, v) → d !! j = Some (k, v') →
  i = j ∧ v = v'.
Proof.
  intros Hnd Hi Hj.
  assert (i = j) as <-.
  { eapply NoDup_lookup; [exact Hnd| |]; unfold Dict.keys;
      rewrite list_lookup_fmap; [by rewrite Hi|by rewrite Hj]. }
  split; [done|]. congruence.
Qed.

Lemma same_keys_flat_ids ts ts' :
  Forall2 same_keys ts ts' → flat_ids ts = flat_ids ts'.
Proof.
  induction 1 as [|[k t] [k' t'] ts ts' [Hk Hc] _ IH]; [done|].
  simpl in Hk, Hc. subst k'.
  change ((k, t) :: ts) with ([(k, t)] ++ ts).
  change ((k, t') :: ts') with ([(k, t')] ++ ts').
  by rewrite !flat_ids_app, !flat_ids_singleton, IH, Hc.
Qed.

Lemma duplicate_run src w :
  db_wf src →
  NoDup (drawn_ids w (draws_needed src)) →
  ∃ copy tmap cmap,
    duplicate src w = Ok ((copy, tmap, cmap), skip_ids (draws_needed src) w)
    ∧ duplicated w src copy tmap cmap.
Proof.
  intros (Hwf_t & Hwf_c & Hwf_l) Hnd.
  set (a := length (flat_ids (Database.tables src))).
  set (b := length (Database.links src)).
  set (w1 := skip_ids 1 w).
  assert (Hdraw : drawn_ids w (draws_needed src)
                  = hex8 (uuid4_hi w (uuid4_calls w))
                    :: drawn_ids w1 a ++ drawn_ids (skip_ids a w1) b).
  { unfold draws_needed. fold a b. by rewrite drawn_ids_cons, drawn_ids_app. }
  rewrite Hdraw in Hnd.
  apply NoDup_cons in Hnd as [Hid Hnd].
  apply NoDup_app in Hnd as (Hnd_t & Hdisj & Hnd_l).
  destruct (pass1_run (Database.tables src) w1 Hwf_t Hnd_t) as (p & Hrun1 & Hp1).
  fold a in Hrun1, Hp1.
  assert (Hids1 : flat_ids (new_tables p) = drawn_ids w1 a) by apply (p1_ids Hp1).
  assert (Hnd1 : NoDup (flat_ids (new_tables p))) by by rewrite Hids1.
  destruct (pass2_run (Database.tables src) p w1 (skip_ids a w1) Hp1 Hnd1)
    as (ts & Hrun2 & Hp2).
  destruct (same_keys_keys _ _ (p2_keys Hp2)) as [Hkeys Hckeys].
  destruct (flat_ids_NoDup _ Hnd1) as [Hnd_k Hnd_ck].
  assert (Hflat : flat_ids ts = flat_ids (new_tables p))
    by (symmetry; apply same_keys_flat_ids, (p2_keys Hp2)).
  set (links' := zip_with (λ id kl, (id, copy_link (table_id_map p) (col_id_map p) id kl.2))
                   (drawn_ids (skip_ids a w1) b) (Database.links src)).
  exists (Database.mk (hex8 (uuid4_hi w (uuid4_calls w)))
            (Database.name src +:+ " (copy)") (Database.note src) ts links' []),
    (table_id_map p), (col_id_map p).
  split.
  - unfold duplicate. rewrite bind_unfold, gen_id_run. fold w1.
    rewrite bind_unfold, Hrun1. rewrite bind_unfold, Hrun2.
    rewrite bind_unfold, remap_links_run; fold b.
    + rewrite app_nil_l. cbn [mret M_ret]. fold links'.
      unfold w1, draws_needed. fold a b. rewrite !skip_ids_skip.
      do 3 f_equal.
    + exact Hnd_l.
    + apply Forall_forall. intros ? _. apply not_elem_of_nil.
  - assert (Hlen_l : length (drawn_ids (skip_ids a w1) b) = length (Database.links src))
      by apply length_drawn_ids.
    split; cbn [Database.id Database.name Database.note Database.tables Database.links];
      try done.
    + rewrite Hdraw, Hflat, Hids1. subst links'.
      by rewrite copied_links_keys.
    + apply (p2_tables Hp2).
    + subst links'. clear -Hlen_l. revert Hlen_l.
      generalize (drawn_ids (skip_ids a w1) b). generalize (Database.links src).
      intros ls. induction ls as [|kl ls IH]; intros [|id ids] Hlen; try done.
      simpl in *. injection Hlen as Hlen. constructor; [done|by apply IH].
    + apply (p1_table_dom Hp1).
    + intros k v Hv. rewrite <- Hkeys. by apply (p1_table_img Hp1) in Hv.
    + apply (p1_col_dom Hp1).
    + intros k v Hv. rewrite <- Hckeys. by apply (p1_col_img Hp1) in Hv.
    + intros tk t ck c r Ht Hc Hr.
      destruct (p2_refs Hp2 tk t ck c r Ht Hc Hr) as (fr & Hin & Hmt & Hmc & Hnote).
      destruct (p1_pending Hp1 tk ck fr Hin)
        as (i & t_old & t_src & t0 & j & c_old & c_src & c0 & H1 & H2 & H3 & H4 & H5).
      exists i, t_old, t_src, j, c_old, c_src, fr.
      destruct (Forall2_lookup_l _ _ _ _ _ (p2_keys Hp2) H2) as ([tk' t'] & Ht' & Htk & Hck).
      simpl in Htk, Hck. subst tk'.
      apply list_elem_of_lookup in Ht as [i' Hi'].
      destruct (NoDup_lookup_key ts i i' tk t' t) as [<- ->];
        [by rewrite <- Hkeys|done|done|].
      assert (∃ c', Table.columns t !! j = Some (ck, c')) as [c' Hc'].
      { apply keys_lookup. rewrite <- Hck. unfold Dict.keys.
        by rewrite list_lookup_fmap, H4. }
      apply list_elem_of_lookup in Hc as [j' Hj'].
      destruct (NoDup_lookup_key (Table.columns t) j j' ck c' c) as [<- ->];
        [|done|done|done].
      rewrite <- Hck. rewrite Forall_forall in Hnd_ck. apply (Hnd_ck (tk, t0)).
      apply list_elem_of_lookup. eauto.
Qed.

Lemma duplicate_database_run pin w db_id src :
  truthy pin = true →
  Dict.get (dbs (tenant w pin)) db_id = Some src →
  db_wf src →
  NoDup (drawn_ids w (draws_needed src)) →
  ∃ copy tmap cmap w',
    duplicate src w = Ok ((copy, tmap, cmap), skip_ids (draws_needed src) w)
    ∧ duplicate_database (Some pin) db_id w = Ok (copy, w')
    ∧ duplicated w src copy tmap cmap
    ∧ tenant w' pin
      = mkTenant (Dict.set (dbs (tenant w pin)) (Database.id copy) copy)
          (doc_folders (tenant w pin)) (documents (tenant w pin))
    ∧ (∀ pin', pin' ≠ pin → files w' !! pin' = files w !! pin')
    ∧ shares_file w' = shares_file w.
Proof.
  intros Hpin Hdb Hwf Hnd.
  destruct (duplicate_run src w Hwf Hnd) as (copy & tmap & cmap & Hrun & Hdup).
  unfold duplicate_database.
  rewrite bind_unfold, require_pin_Some by done.
  rewrite bind_unfold. unfold get_state_or_init, load_state.
  rewrite bind_unfold, Hdb. cbn [or_abort mret M_ret].
  rewrite bind_unfold, Hrun. rewrite bind_unfold.
  match goal with
  | |- context [save_state ?p ?d ?w0] =>
      destruct (save_state p d w0) as [[[] w']| |] eqn:Hsave; try discriminate Hsave
  end.
  exists copy, tmap, cmap, w'. split; [done|]. split; [done|]. split; [done|].
  rewrite (tenant_save_state _ _ _ _ Hsave), tenant_skip_ids.
  split; [done|].
  unfold save_state in Hsave. injection Hsave as <-. simpl.
  split; [|done]. intros pin' Hne. by rewrite lookup_insert_ne.
Qed.

Lemma Forall2_elem_r {A B} (R : A → B → Prop) l k y :
  Forall2 R l k → y ∈ k → ∃ x, x ∈ l ∧ R x y.
Proof.
  intros HF (i & Hi)%list_elem_of_lookup.
  destruct (Forall2_lookup_r _ _ _ _ _ HF Hi) as (x & Hx & HR).
  exists x. split; [|done]. apply list_elem_of_lookup. eauto.
Qed.

(** An endpoint that names an entity of the source is sent to an entity of
    the copy, under one of the identifiers drawn. *)
Lemma remap_endpoint_resolves w src copy tmap cmap ty id :
  duplicated w src copy tmap cmap →
  endpoint_resolves src ty id →
  endpoint_resolves copy ty (remap_endpoint tmap cmap ty id)
  ∧ remap_endpoint tmap cmap ty id ∈ flat_ids (Database.tables copy).
Proof.
  intros Hdup [[-> Hin]|[-> Hin]]; unfold remap_endpoint.
  - rewrite decide_True by done.
    apply (dup_table_dom Hdup) in Hin as [v Hv]. rewrite Hv. simpl.
    apply (dup_table_img Hdup) in Hv. split; [by left|by apply keys_flat_ids].
  - rewrite decide_False, decide_True by done.
    apply (dup_col_dom Hdup) in Hin as [v Hv]. rewrite Hv. simpl.
    apply (dup_col_img Hdup) in Hv. split; [by right|by apply col_keys_flat_ids].
Qed.

(** C1.  Under identifiers that are distinct and new to the source, the
    duplicate has as many tables as the source, as many columns table by
    table, and as many links; the two halves of every foreign reference of
    the copy, and the two endpoints of every link of the copy when those of
    the source name entities of the source, name a table or a column of the
    copy and no table or column of the source. *)
Theorem duplicate_isomorphic pin w db_id src :
  truthy pin = true →
  Dict.get (dbs (tenant w pin)) db_id = Some src →
  db_wf src →
  NoDup (drawn_ids w (draws_needed src)) →
  Forall (λ i, i ∉ entity_ids src) (drawn_ids w (draws_needed src)) →
  links_resolve src →
  ∃ copy w',
    duplicate_database (Some pin) db_id w = Ok (copy, w')
    ∧ length (Database.tables copy) = length (Database.tables src)
    ∧ Forall2 (λ kt kt', length (Table.columns kt'.2) = length (Table.columns kt.2))
        (Database.tables src) (Database.tables copy)
    ∧ length (Database.links copy) = length (Database.links src)
    ∧ (∀ tk t ck c r,
         (tk, t) ∈ Database.tables copy → (ck, c) ∈ Table.columns t →
         Column.foreign_ref c = Some r →
         ref_resolves copy r
         ∧ (ForeignRef.table_id r ∉ entity_ids src)
         ∧ (ForeignRef.column_id r ∉ entity_ids src))
    ∧ (∀ k l,
         (k, l) ∈ Database.links copy →
         endpoint_resolves copy (Link.from_type l) (Link.from_id l)
         ∧ endpoint_resolves copy (Link.to_type l) (Link.to_id l)
         ∧ (Link.from_id l ∉ entity_ids src)
         ∧ (Link.to_id l ∉ entity_ids src)).
Proof.
  intros Hpin Hdb Hwf Hnd Hnew Hlinks.
  destruct (duplicate_database_run pin w db_id src Hpin Hdb Hwf Hnd)
    as (copy & tmap & cmap & w' & _ & Hrun & Hdup & _).
  assert (Hfresh : ∀ i, i ∈ flat_ids (Database.tables copy) → i ∉ entity_ids src).
  { intros i Hi. rewrite Forall_forall in Hnew. apply Hnew.
    rewrite <- (dup_ids Hdup). right. apply elem_of_app. by left. }
  exists copy, w'. split; [done|].
  split; [symmetry; apply (Forall2_length _ _ _ (dup_tables Hdup))|].
  split.
  { eapply Forall2_impl; [apply (dup_tables Hdup)|].
    intros kt kt' (_ & _ & _ & _ & Hcols). symmetry.
    apply (Forall2_length _ _ _ Hcols). }
  split; [symmetry; apply (Forall2_length _ _ _ (dup_links Hdup))|].
  split.
  - intros tk t ck c r Ht Hc Hr.
    destruct (dup_refs Hdup tk t ck c r Ht Hc Hr)
      as (i & t_old & t_src & j & c_old & c_src & fr & _ & _ & _ & _ & _ & Hmt & Hmc & _).
    apply (dup_table_img Hdup) in Hmt. apply (dup_col_img Hdup) in Hmc.
    split; [by split|].
    split; apply Hfresh; [by apply keys_flat_ids|by apply col_keys_flat_ids].
  - intros k l' Hl'.
    destruct (Forall2_elem_r _ _ _ _ (dup_links Hdup) Hl') as ([k0 l] & Hl & Hcopy).
    simpl in Hcopy. subst l'. destruct (Hlinks k0 l Hl) as [Hfrom Hto].
    destruct (remap_endpoint_resolves _ _ _ _ _ _ _ Hdup Hfrom) as [Hf1 Hf2].
    destruct (remap_endpoint_resolves _ _ _ _ _ _ _ Hdup Hto) as [Ht1 Ht2].
    simpl. split; [done|]. split; [done|]. split; by apply Hfresh.
Qed.

(** C7.  Duplication does not abort, and where the reference of a source
    column names a table or a column that the id maps do not know, the
    column of the copy at the same place has no reference.  The maps know
    exactly the tables and the columns of the source. *)
Theorem duplicate_drops_unmapped_refs pin w db_id src :
  truthy pin = true →
  Dict.get (dbs (tenant w pin)) db_id = Some src →
  db_wf src →
  NoDup (drawn_ids w (draws_needed src)) →
  ∃ copy tmap cmap w1 w',
    duplicate src w = Ok ((copy, tmap, cmap), w1)
    ∧ duplicate_database (Some pin) db_id w = Ok (copy, w')
    ∧ (∀ k, Dict.get tmap k = None ↔ k ∉ Dict.keys (Database.tables src))
    ∧ (∀ k, Dict.get cmap k = None ↔ k ∉ col_keys (Database.tables src))
    ∧ ∀ i t_old t j c_old c fr,
        Database.tables src !! i = Some (t_old, t) →
        Table.columns t !! j = Some (c_old, c) →
        Column.foreign_ref c = Some fr →
        Dict.get tmap (ForeignRef.table_id fr) = None
        ∨ Dict.get cmap (ForeignRef.column_id fr) = None →
        ∃ tk t' ck c',
          Database.tables copy !! i = Some (tk, t')
          ∧ Table.columns t' !! j = Some (ck, c')
          ∧ Column.name c' = Column.name c
          ∧ Column.foreign_ref c' = None.
Proof.
  intros Hpin Hdb Hwf Hnd.
  destruct (duplicate_database_run pin w db_id src Hpin Hdb Hwf Hnd)
    as (copy & tmap & cmap & w' & Hdupl & Hrun & Hdup & _).
  exists copy, tmap, cmap, (skip_ids (draws_needed src) w), w'.
  split; [done|]. split; [done|].
  split. { intros k. rewrite <- (dup_table_dom Hdup). apply eq_None_not_Some. }
  split. { intros k. rewrite <- (dup_col_dom Hdup). apply eq_None_not_Some. }
  assert (Hnd_copy : NoDup (flat_ids (Database.tables copy))).
  { rewrite <- (dup_ids Hdup) in Hnd. apply NoDup_cons in Hnd as [_ Hnd].
    by apply NoDup_app in Hnd as (? & _ & _). }
  destruct (flat_ids_NoDup _ Hnd_copy) as [Hnd_t Hnd_c].
  intros i t_old t j c_old c fr Ht Hc Hfr Hunmapped.
  destruct (Forall2_lookup_l _ _ _ _ _ (dup_tables Hdup) Ht)
    as ([tk t'] & Ht' & _ & _ & _ & _ & Hcols).
  destruct (Forall2_lookup_l _ _ _ _ _ Hcols Hc) as ([ck c'] & Hc' & Hcopied).
  exists tk, t', ck, c'. split; [done|]. split; [done|].
  unfold column_copied in Hcopied. simpl in Hcopied. split.
  { apply (f_equal Column.name) in Hcopied. done. }
  destruct (Column.foreign_ref c') as [r|] eqn:Hr; [|done]. exfalso.
  destruct (dup_refs Hdup tk t' ck c' r)
    as (i' & t_old' & t_src & j' & c_old' & c_src & fr' & H1 & H2 & H3 & H4 & H5 & Hmt & Hmc & _);
    [apply list_elem_of_lookup; eauto..|done|].
  destruct (NoDup_lookup_key _ i i' tk t' t' Hnd_t Ht' H2) as [<- _].
  assert (NoDup (Dict.keys (Table.columns t'))) as Hnd_c'.
  { rewrite Forall_forall in Hnd_c. apply (Hnd_c (tk, t')).
    apply list_elem_of_lookup. eauto. }
  destruct (NoDup_lookup_key _ j j' ck c' c' Hnd_c' Hc' H4) as [<- _].
  assert (fr' = fr) as -> by congruence.
  destruct Hunmapped; congruence.
Qed.

(** C10.  Under identifiers that are distinct and with a first one that is
    no key of the tenant's databases, duplication appends the copy to the
    databases of the tenant: the source and every other database keep
    their place and their value, and the folders, the documents, the other
    tenants and the shares are untouched. *)
Theorem duplicate_frame pin w db_id src :
  truthy pin = true →
  Dict.get (dbs (tenant w pin)) db_id = Some src →
  db_wf src →
  NoDup (drawn_ids w (draws_needed src)) →
  hex8 (uuid4_hi w (uuid4_calls w)) ∉ Dict.keys (dbs (tenant w pin)) →
  ∃ copy w',
    duplicate_database (Some pin) db_id w = Ok (copy, w')
    ∧ dbs (tenant w' pin) = dbs (tenant w pin) ++ [(Database.id copy, copy)]
    ∧ Dict.get (dbs (tenant w' pin)) db_id = Some src
    ∧ (∀ k, k ≠ Database.id copy →
            Dict.get (dbs (tenant w' pin)) k = Dict.get (dbs (tenant w pin)) k)
    ∧ doc_folders (tenant w' pin) = doc_folders (tenant w pin)
    ∧ documents (tenant w' pin) = documents (tenant w pin)
    ∧ (∀ pin', pin' ≠ pin → files w' !! pin' = files w !! pin')
    ∧ shares_file w' = shares_file w.
Proof.
  intros Hpin Hdb Hwf Hnd Hnew.
  destruct (duplicate_database_run pin w db_id src Hpin Hdb Hwf Hnd)
    as (copy & tmap & cmap & w' & _ & Hrun & Hdup & Htenant & Hfiles & Hshares).
  rewrite <- (dup_id Hdup) in Hnew.
  exists copy, w'. split; [done|]. rewrite Htenant. simpl.
  split; [by apply DictFacts.set_fresh|].
  split.
  { rewrite DictFacts.get_set_ne; [done|]. intros E. apply Hnew. rewrite E.
    apply DictFacts.get_is_Some. eauto. }
  split; [intros k Hk; by apply DictFacts.get_set_ne|]. done.
Qed.

Lemma links_resolve_Forall db :
  Forall (λ kl, endpoint_resolves db (Link.from_type kl.2) (Link.from_id kl.2)
                ∧ endpoint_resolves db (Link.to_type kl.2) (Link.to_id kl.2))
    (Database.links db) →
  links_resolve db.
Proof. intros HF k l Hin. rewrite Forall_forall in HF. apply (HF (k, l) Hin). Qed.

Lemma ex_shop_wf : db_wf ex_shop.
Proof. repeat split; compute_done. Qed.

Lemma ex_dangling_wf : db_wf ex_dangling.
Proof. repeat split; compute_done. Qed.

Lemma duplicate_isomorphic_witness :
  ∃ copy w',
    duplicate_database (Some "pin") "db1" ex_world = Ok (copy, w')
    ∧ length (Database.tables copy) = length (Database.tables ex_shop)
    ∧ Forall2 (λ kt kt', length (Table.columns kt'.2) = length (Table.columns kt.2))
        (Database.tables ex_shop) (Database.tables copy)
    ∧ length (Database.links copy) = length (Database.links ex_shop)
    ∧ (∀ tk t ck c r,
         (tk, t) ∈ Database.tables copy → (ck, c) ∈ Table.columns t →
         Column.foreign_ref c = Some r →
         ref_resolves copy r
         ∧ (ForeignRef.table_id r ∉ entity_ids ex_shop)
         ∧ (ForeignRef.column_id r ∉ entity_ids ex_shop))
    ∧ (∀ k l,
         (k, l) ∈ Database.links copy →
         endpoint_resolves copy (Link.from_type l) (Link.from_id l)
         ∧ endpoint_resolves copy (Link.to_type l) (Link.to_id l)
         ∧ (Link.from_id l ∉ entity_ids ex_shop)
         ∧ (Link.to_id l ∉ entity_ids ex_shop)).
Proof.
  assert (Hnd : NoDup (drawn_ids ex_world (draws_needed ex_shop))) by compute_done.
  assert (Hnew : Forall (λ i, i ∉ entity_ids ex_shop)
                   (drawn_ids ex_world (draws_needed ex_shop))) by compute_done.
  assert (Hlinks : links_resolve ex_shop)
    by (apply links_resolve_Forall; compute_done).
  exact (duplicate_isomorphic "pin" ex_world "db1" ex_shop
           eq_refl eq_refl ex_shop_wf Hnd Hnew Hlinks).
Defined.

Lemma duplicate_drops_unmapped_refs_witness :
  ∃ copy tmap cmap w1 w',
    duplicate ex_dangling ex_world = Ok ((copy, tmap, cmap), w1)
    ∧ duplicate_database (Some "pin") "db2" ex_world = Ok (copy, w')
    ∧ (∀ k, Dict.get tmap k = None ↔ k ∉ Dict.keys (Database.tables ex_dangling))
    ∧ (∀ k, Dict.get cmap k = None ↔ k ∉ col_keys (Database.tables ex_dangling))
    ∧ ∀ i t_old t j c_old c fr,
        Database.tables ex_dangling !! i = Some (t_old, t) →
        Table.columns t !! j = Some (c_old, c) →
        Column.foreign_ref c = Some fr →
        Dict.get tmap (ForeignRef.table_id fr) = None
        ∨ Dict.get cmap (ForeignRef.column_id fr) = None →
        ∃ tk t' ck c',
          Database.tables copy !! i = Some (tk, t')
          ∧ Table.columns t' !! j = Some (ck, c')
          ∧ Column.name c' = Column.name c
          ∧ Column.foreign_ref c' = None.
Proof.
  assert (Hnd : NoDup (drawn_ids ex_world (draws_needed ex_dangling))) by compute_done.
  exact (duplicate_drops_unmapped_refs "pin" ex_world "db2" ex_dangling
           eq_refl eq_refl ex_dangling_wf Hnd).
Defined.

Lemma duplicate_frame_witness :
  ∃ copy w',
    duplicate_database (Some "pin") "db1" ex_world = Ok (copy, w')
    ∧ dbs (tenant w' "pin") = dbs (tenant ex_world "pin") ++ [(Database.id copy, copy)]
    ∧ Dict.get (dbs (tenant w' "pin")) "db1" = Some ex_shop
    ∧ (∀ k, k ≠ Database.id copy →
            Dict.get (dbs (tenant w' "pin")) k = Dict.get (dbs (tenant ex_world "pin")) k)
    ∧ doc_folders (tenant w' "pin") = doc_folders (tenant ex_world "pin")
    ∧ documents (tenant w' "pin") = documents (tenant ex_world "pin")
    ∧ (∀ pin', pin' ≠ "pin" → files w' !! pin' = files ex_world !! pin')
    ∧ shares_file w' = shares_file ex_world.
Proof.
  assert (Hnd : NoDup (drawn_ids ex_world (draws_needed ex_shop))) by compute_done.
  assert (Hnew : hex8 (uuid4_hi ex_world (uuid4_calls ex_world))
                 ∉ Dict.keys (dbs (tenant ex_world "pin"))) by compute_done.
  exact (duplicate_frame "pin" ex_world "db1" ex_shop
           eq_refl eq_refl ex_shop_wf Hnd Hnew).
Defined.

(** The scenario of the tests: in the copy of the shop, [Orders.user_id]
    refers to the copy of [Users] and of its column [id]; the copy of the
    dangling reference is dropped. *)
Example duplicate_remaps_foreign_ref :
  (λ db, (λ kt : string * Table.t,
            (kt.1, (λ kc : string * Column.t, (kc.1, Column.foreign_ref kc.2))
                   <$> Table.columns kt.2))
         <$> Database.tables db)
  <$> answer (duplicate_database (Some "pin") "db1" ex_world)
  = Some [("00000002", [("00000003", None)]);
          ("00000004", [("00000005", Some (ForeignRef.mk "00000002" "00000003" ""))]);
          ("00000006", [])]
  ∧ (λ db, Database.links db)
    <$> answer (duplicate_database (Some "pin") "db1" ex_world)
    = Some [("00000007", Link.mk "00000007" "column" "00000005" "column" "00000003" "fk");
            ("00000008", Link.mk "00000008" "table" "00000004" "table" "00000002" "");
            ("00000009", Link.mk "00000009" "table" "00000004" "column" "00000005" "")]
  ∧ (λ db, Database.tables db)
    <$> answer (duplicate_database (Some "pin") "db2" ex_world)
    = Some [("00000002",
             Table.mk "00000002" "Log" ""
               [("00000003", Column.mk "00000003" "ref" "INT" false true None "" None 0%Z)])].
Proof. repeat split; vm_compute; reflexivity. Qed.

(** ** Scenarios *)

(** The test of the repository: in the copy, [Posts.user_id] refers to the
    copy of [Users]. *)
Example duplicate_scenario :
  answer (ex_duplicate_scenario ex_empty_world)
  = Some (Some "00000007",
          [Some (ForeignRef.mk "00000007" "00000008" "")]).
Proof. vm_compute. reflexivity. Qed.

(** A folder that holds a document cannot be deleted; once the document is
    deleted it can. *)
Example delete_folder_after_children :
  api_delete_folder (Some "pin") "00000001" ex_folder_with_doc = Abort InvalidInput
  ∧ answer (api_delete_folder (Some "pin") "00000001"
              (serve (api_delete_doc (Some "pin") "00000002") ex_folder_with_doc))
    = Some tt.
Proof. split; vm_compute; reflexivity. Qed.

(** What the contract of the generator is for: when [uuid4] repeats
    itself, the tables of the copy fall onto one key and the resolve pass
    misses the column it deferred. *)
Example duplicate_under_colliding_ids :
  duplicate_database (Some "pin") "db1" ex_stuck_world = Abort ServerError.
Proof. vm_compute. reflexivity. Qed.

(** * More of the code *)

(** ** A logic of frames *)

Section keeps.
Context (R : relation World) `{!PreOrder R}.

Lemma keeps_ret {A} (a : A) : keeps R (mret a).
Proof. intros w a' w' [= _ <-]. reflexivity. Qed.

Lemma keeps_abort {A} e : keeps R (abort e : M A).
Proof. by intros w a w'. Qed.

Lemma keeps_bind {A B} (m : M A) (f : A → M B) :
  keeps R m → (∀ a, keeps R (f a)) → keeps R (m ≫= f).
Proof.
  intros Hm Hf w b w'. rewrite bind_unfold.
  destruct (m w) as [[a w1]| |] eqn:E; [|done..].
  intros Hrun. etrans; [by eapply Hm|by eapply Hf].
Qed.

Lemma keeps_or_abort {A} e (o : option A) : keeps R (or_abort e o).
Proof. destruct o; [apply keeps_ret|apply keeps_abort]. Qed.

Lemma keeps_require_pin cookie : keeps R (require_pin cookie).
Proof.
  unfold require_pin. destruct (get_pin cookie) as [pin|]; [|apply keeps_abort].
  destruct (truthy pin); [apply keeps_ret|apply keeps_abort].
Qed.

Lemma keeps_pure {A} (f : World → A) : keeps R (λ w, Ok (f w, w)).
Proof. intros w a w' [= _ <-]. reflexivity. Qed.

Lemma keeps_load_state pin : keeps R (load_state pin).
Proof. apply keeps_pure. Qed.

Lemma keeps_get_state_or_init pin : keeps R (get_state_or_init pin).
Proof. apply keeps_pure. Qed.

Lemma keeps_load_docs pin : keeps R (load_docs pin).
Proof. apply (keeps_pure (λ w, (doc_folders (tenant w pin), documents (tenant w pin)))). Qed.

Lemma keeps_load_shares : keeps R load_shares.
Proof. apply keeps_pure. Qed.

Lemma keeps_time_time : keeps R time_time.
Proof. apply keeps_pure. Qed.

Lemma keeps_resolve_subtree fuel folders root :
  keeps R (resolve_subtree fuel folders root).
Proof.
  intros w a w'. unfold resolve_subtree.
  destruct (subtree_loop _ _ _ _); [|done]. intros [= _ <-]. reflexivity.
Qed.

Lemma keeps_shared_context token : keeps R (_shared_context token).
Proof.
  unfold _shared_context.
  apply keeps_bind; [apply keeps_load_shares|intros shares].
  apply keeps_bind; [apply keeps_or_abort|intros s].
  apply keeps_bind; [apply keeps_load_docs|intros [folders docs]].
  apply keeps_ret.
Qed.

Lemma keeps_for_each {A S} (xs : list A) (body : S → A → M S) s :
  (∀ s x, keeps R (body s x)) → keeps R (for_each xs body s).
Proof.
  intros Hbody. revert s. induction xs as [|x xs IH]; intros s; simpl.
  - apply keeps_ret.
  - apply keeps_bind; [apply Hbody|apply IH].
Qed.

Lemma keeps_serve {A} (h : M A) w : keeps R h → R w (serve h w).
Proof.
  intros Hh. unfold serve. destruct (h w) as [[a w']| |] eqn:E; [|reflexivity..].
  by eapply Hh.
Qed.
End keeps.

Global Instance same_documents_preorder : PreOrder same_documents.
Proof.
  split.
  - intros w. split; [intros pin _; split|]; reflexivity.
  - intros w1 w2 w3 [H1 E1] [H2 E2]. split; [|congruence].
    intros pin Hp. destruct (H1 pin Hp), (H2 pin Hp). split; congruence.
Qed.

Global Instance same_databases_preorder : PreOrder same_databases.
Proof.
  split.
  - intros w. split; [intros pin _|]; reflexivity.
  - intros w1 w2 w3 [H1 E1] [H2 E2]. split; [|congruence].
    intros pin Hp. specialize (H1 pin Hp). specialize (H2 pin Hp). congruence.
Qed.

Global Instance same_files_preorder : PreOrder same_files.
Proof.
  split.
  - by intros w.
  - intros w1 w2 w3 H1 H2. unfold same_files in *. congruence.
Qed.

Global Instance plain_files_preorder : PreOrder plain_files.
Proof.
  split.
  - by intros w pin _.
  - intros w1 w2 w3 H1 H2 pin Hp. rewrite (H2 pin Hp). by apply H1.
Qed.

Lemma tenant_insert fs sh u c n pin t pin' :
  tenant (mkWorld (<[pin := t]> fs) sh u c n) pin'
  = if decide (pin = pin') then t else default (mkTenant [] [] []) (fs !! pin').
Proof.
  unfold tenant. simpl. case_decide as Hp.
  - subst. by rewrite lookup_insert_eq.
  - by rewrite lookup_insert_ne.
Qed.

Lemma keeps_docs_gen_id : keeps same_documents gen_id.
Proof. intros w a w' [= _ <-]. split; [intros pin _; split|]; reflexivity. Qed.

Lemma keeps_docs_save_state pin ds : keeps same_documents (save_state pin ds).
Proof.
  intros w [] w' [= <-]. split; [|done]. intros pin' _.
  rewrite tenant_insert. by case_decide as Hp; [subst|].
Qed.

Lemma keeps_dbs_gen_id : keeps same_databases gen_id.
Proof. intros w a w' [= _ <-]. split; [intros pin _|]; reflexivity. Qed.

Lemma keeps_dbs_save_docs pin fs ds : keeps same_databases (save_docs pin fs ds).
Proof.
  intros w [] w' [= <-]. split; [|done]. intros pin' _.
  rewrite tenant_insert. by case_decide as Hp; [subst|].
Qed.

Lemma keeps_files_gen_id : keeps same_files gen_id.
Proof. by intros w a w' [= _ <-]. Qed.

Lemma keeps_files_save_shares shares : keeps same_files (save_shares shares).
Proof. by intros w [] w' [= <-]. Qed.

Lemma keeps_plain_gen_id : keeps plain_files gen_id.
Proof. by intros w a w' [= _ <-] pin _. Qed.

Lemma keeps_plain_save_shares shares : keeps plain_files (save_shares shares).
Proof. by intros w [] w' [= <-] pin _. Qed.

Create HintDb keeps discriminated.
#[global] Hint Resolve keeps_ret keeps_abort keeps_or_abort keeps_require_pin
  keeps_load_state keeps_get_state_or_init keeps_load_docs keeps_load_shares
  keeps_time_time keeps_resolve_subtree keeps_shared_context
  keeps_docs_gen_id keeps_docs_save_state keeps_dbs_gen_id keeps_dbs_save_docs
  keeps_files_gen_id keeps_files_save_shares
  keeps_plain_gen_id keeps_plain_save_shares : keeps.

(** Walk down a handler: split the binds, case on what it branches on, and
    close the leaves from the hint base. *)
Ltac keeps_step :=
  lazymatch goal with
  | |- keeps _ (_ ≫= _) => apply keeps_bind; [apply _| |intros ?]
  | |- keeps _ (for_each _ _ _) => apply keeps_for_each; [apply _|intros ? ?]
  | |- keeps _ (match ?x with _ => _ end) => destruct x eqn:?
  | |- keeps _ (let '(_, _) := ?x in _) => destruct x
  | |- _ => solve [eauto with keeps typeclass_instances]
  end.
Ltac keeps_auto := repeat keeps_step.

(** ** Who may call what *)

(** Every handler that asks for the PIN, the twenty-eight handlers that call
    [abort(401)], begins with that check: without the cookie, or with an
    empty one, it aborts with 401 before it reads or writes anything. *)
Theorem handlers_require_pin cookie w :
  cookie = None ∨ cookie = Some "" →
  (∀ name, create_database cookie name w = Abort Unauthorized)
  ∧ (∀ db_id, delete_database cookie db_id w = Abort Unauthorized)
  ∧ (∀ db_id data, update_database cookie db_id data w = Abort Unauthorized)
  ∧ (∀ db_id, duplicate_database cookie db_id w = Abort Unauthorized)
  ∧ (∀ db_id name, create_table cookie db_id name w = Abort Unauthorized)
  ∧ (∀ db_id t_id, delete_table cookie db_id t_id w = Abort Unauthorized)
  ∧ (∀ db_id t_id data, update_table cookie db_id t_id data w = Abort Unauthorized)
  ∧ (∀ db_id t_id data, create_column cookie db_id t_id data w = Abort Unauthorized)
  ∧ (∀ db_id t_id c_id, delete_column cookie db_id t_id c_id w = Abort Unauthorized)
  ∧ (∀ db_id t_id c_id data,
       update_column cookie db_id t_id c_id data w = Abort Unauthorized)
  ∧ (∀ db_id data, create_link cookie db_id data w = Abort Unauthorized)
  ∧ (∀ db_id l_id note, update_link cookie db_id l_id note w = Abort Unauthorized)
  ∧ (∀ db_id l_id, delete_link cookie db_id l_id w = Abort Unauthorized)
  ∧ get_state cookie w = Abort Unauthorized
  ∧ (∀ data, api_create_folder cookie data w = Abort Unauthorized)
  ∧ (∀ fid data, api_update_folder cookie fid data w = Abort Unauthorized)
  ∧ (∀ fid, api_delete_folder cookie fid w = Abort Unauthorized)
  ∧ (∀ data, api_create_doc cookie data w = Abort Unauthorized)
  ∧ (∀ doc_id, api_get_doc cookie doc_id w = Abort Unauthorized)
  ∧ (∀ doc_id data, api_update_doc cookie doc_id data w = Abort Unauthorized)
  ∧ (∀ doc_id, api_delete_doc cookie doc_id w = Abort Unauthorized)
  ∧ (∀ doc_id, api_get_notes cookie doc_id w = Abort Unauthorized)
  ∧ (∀ doc_id data, api_add_note cookie doc_id data w = Abort Unauthorized)
  ∧ (∀ doc_id nid, api_delete_note cookie doc_id nid w = Abort Unauthorized)
  ∧ (∀ doc_id, api_share_doc cookie doc_id w = Abort Unauthorized)
  ∧ (∀ fid, api_share_folder cookie fid w = Abort Unauthorized)
  ∧ api_docs_state cookie w = Abort Unauthorized
  ∧ (∀ q, api_search cookie q w = Abort Unauthorized).
Proof. intros [-> | ->]; repeat split; intros; reflexivity. Qed.

Lemma handlers_require_pin_witness :
  create_database None (Some "shop") ex_world = Abort Unauthorized
  ∧ api_share_doc None "d1" ex_docs_world = Abort Unauthorized
  ∧ api_search (Some "") (Some "doc") ex_docs_world = Abort Unauthorized.
Proof.
  pose proof (handlers_require_pin None ex_world (or_introl eq_refl)) as H1.
  pose proof (handlers_require_pin None ex_docs_world (or_introl eq_refl)) as H2.
  pose proof (handlers_require_pin (Some "") ex_docs_world (or_intror eq_refl)) as H3.
  split; [apply H1|split; [apply H2|apply H3]].
Defined.

(** ** What a request leaves alone *)

(** The schema handlers rewrite the databases of a PIN file and nothing
    else: called with a plain PIN, whatever they answer, the folders and
    the documents of every plain PIN, and the shares, are as they were. *)
Theorem schema_handlers_keep_documents pin :
  plain_pin pin = true →
  (∀ name, keeps same_documents (create_database (Some pin) name))
  ∧ (∀ db_id, keeps same_documents (delete_database (Some pin) db_id))
  ∧ (∀ db_id data, keeps same_documents (update_database (Some pin) db_id data))
  ∧ (∀ db_id, keeps same_documents (duplicate_database (Some pin) db_id))
  ∧ (∀ db_id name, keeps same_documents (create_table (Some pin) db_id name))
  ∧ (∀ db_id t_id, keeps same_documents (delete_table (Some pin) db_id t_id))
  ∧ (∀ db_id t_id data, keeps same_documents (update_table (Some pin) db_id t_id data))
  ∧ (∀ db_id t_id data, keeps same_documents (create_column (Some pin) db_id t_id data))
  ∧ (∀ db_id t_id c_id, keeps same_documents (delete_column (Some pin) db_id t_id c_id))
  ∧ (∀ db_id t_id c_id data,
       keeps same_documents (update_column (Some pin) db_id t_id c_id data))
  ∧ (∀ db_id data, keeps same_documents (create_link (Some pin) db_id data))
  ∧ (∀ db_id l_id note, keeps same_documents (update_link (Some pin) db_id l_id note))
  ∧ (∀ db_id l_id, keeps same_documents (delete_link (Some pin) db_id l_id)).
Proof.
  intros _. repeat apply conj; intros;
    unfold create_database, delete_database, update_database, duplicate_database,
      duplicate, create_table, delete_table, update_table, create_column,
      delete_column, update_column, create_link, update_link, delete_link,
      copy_table_step, copy_column_step, resolve_ref_step, remap_link_step;
    keeps_auto.
Qed.

Lemma schema_handlers_keep_documents_witness :
  ∃ db w', create_database (Some "pin") (Some "Shop") ex_docs_world = Ok (db, w')
           ∧ same_documents ex_docs_world w'.
Proof.
  destruct (create_database (Some "pin") (Some "Shop") ex_docs_world)
    as [[db w']| |] eqn:E; [|by vm_compute in E..].
  exists db, w'. split; [reflexivity|].
  exact (proj1 (schema_handlers_keep_documents "pin" eq_refl)
           (Some "Shop") ex_docs_world db w' E).
Defined.

(** The document handlers, the note route of the shares included, rewrite
    the folders and the documents of a PIN file and nothing else: called
    with a plain PIN, or with the token of a share of a plain PIN, whatever
    they answer, the databases of every plain PIN, and the shares, are as
    they were. *)
Theorem document_handlers_keep_databases pin :
  plain_pin pin = true →
  (∀ data, keeps same_databases (api_create_folder (Some pin) data))
  ∧ (∀ fid data, keeps same_databases (api_update_folder (Some pin) fid data))
  ∧ (∀ fid, keeps same_databases (api_delete_folder (Some pin) fid))
  ∧ (∀ data, keeps same_databases (api_create_doc (Some pin) data))
  ∧ (∀ doc_id data, keeps same_databases (api_update_doc (Some pin) doc_id data))
  ∧ (∀ doc_id, keeps same_databases (api_delete_doc (Some pin) doc_id))
  ∧ (∀ doc_id data, keeps same_databases (api_add_note (Some pin) doc_id data))
  ∧ (∀ doc_id nid, keeps same_databases (api_delete_note (Some pin) doc_id nid))
  ∧ (∀ fuel token doc_id data w s n w',
       Dict.get (shares_file w) token = Some s →
       DocShare.pin s = pin →
       api_shared_add_note fuel token doc_id data w = Ok (n, w') →
       same_databases w w').
Proof.
  intros _. repeat apply conj; intros.
  1-8: unfold api_create_folder, api_update_folder, api_delete_folder,
      api_create_doc, api_update_doc, api_delete_doc, api_add_note,
      api_delete_note; keeps_auto.
  assert (Hk : keeps same_databases (api_shared_add_note fuel token doc_id data))
    by (unfold api_shared_add_note; keeps_auto).
  by eapply Hk.
Qed.

Lemma document_handlers_keep_databases_witness :
  ∃ doc w', api_create_doc (Some "pin") (mkDocData (Some "Plan") None None) ex_world
            = Ok (doc, w')
            ∧ same_databases ex_world w'.
Proof.
  destruct (api_create_doc (Some "pin") (mkDocData (Some "Plan") None None) ex_world)
    as [[doc w']| |] eqn:E; [|by vm_compute in E..].
  exists doc, w'. split; [reflexivity|].
  exact (proj1 (proj2 (proj2 (proj2 (document_handlers_keep_databases "pin" eq_refl))))
           (mkDocData (Some "Plan") None None) ex_world doc w' E).
Defined.

(** Creating a share writes the share file only: called with a plain PIN,
    it leaves the file of every plain PIN as it was. *)
Theorem share_handlers_keep_files pin :
  plain_pin pin = true →
  (∀ doc_id, keeps plain_files (api_share_doc (Some pin) doc_id))
  ∧ (∀ fid, keeps plain_files (api_share_folder (Some pin) fid)).
Proof.
  intros _.
  repeat apply conj; intros; unfold api_share_doc, api_share_folder; keeps_auto.
Qed.

Lemma share_handlers_keep_files_witness :
  ∃ token w', api_share_doc (Some "pin") "d2" ex_docs_world = Ok (token, w')
              ∧ plain_files ex_docs_world w'.
Proof.
  destruct (api_share_doc (Some "pin") "d2" ex_docs_world)
    as [[token w']| |] eqn:E; [|by vm_compute in E..].
  exists token, w'. split; [reflexivity|].
  exact (proj1 (share_handlers_keep_files "pin" eq_refl) "d2" ex_docs_world token w' E).
Defined.

(** The handlers of the GET routes change nothing at all: not a file, not
    the shares, and they draw no identifier. *)
Theorem read_handlers_change_nothing cookie :
  keeps eq (get_state cookie)
  ∧ keeps eq (api_docs_state cookie)
  ∧ (∀ doc_id, keeps eq (api_get_doc cookie doc_id))
  ∧ (∀ doc_id, keeps eq (api_get_notes cookie doc_id))
  ∧ (∀ token, keeps eq (shared_doc cookie token))
  ∧ (∀ token, keeps eq (shared_folder cookie token))
  ∧ (∀ fuel token doc_id, keeps eq (shared_folder_doc fuel cookie token doc_id))
  ∧ (∀ fuel token folder_id, keeps eq (shared_folder_sub fuel cookie token folder_id))
  ∧ (∀ fuel token doc_id, keeps eq (api_shared_resolve_doc fuel token doc_id))
  ∧ (∀ fuel token, keeps eq (api_shared_docs_state fuel token)).
Proof.
  repeat apply conj; intros;
    unfold get_state, api_docs_state, api_get_doc, api_get_notes, shared_doc,
      shared_folder, shared_folder_doc, shared_folder_sub, api_shared_resolve_doc,
      api_shared_docs_state;
    keeps_auto.
Qed.

(** ** More on dictionaries and files *)

Module DictFacts2.
Section facts.
Context {V : Type}.
Implicit Types d : dict V.

Lemma set_get_id d k v : Dict.get d k = Some v → Dict.set d k v = d.
Proof.
  induction d as [|[k' v'] d IH]; simpl; [done|].
  case_decide as Hk; [by intros [= ->]|]. intros Hget. by rewrite IH.
Qed.

Lemma set_set d k a b : Dict.set (Dict.set d k a) k b = Dict.set d k b.
Proof.
  induction d as [|[k' v'] d IH]; simpl.
  - by rewrite decide_True.
  - case_decide as Hk; simpl.
    + by rewrite decide_True.
    + by rewrite decide_False, IH.
Qed.

Lemma elem_pop d k k' v : (k', v) ∈ Dict.pop d k ↔ k' ≠ k ∧ (k', v) ∈ d.
Proof. unfold Dict.pop. by rewrite list_elem_of_filter. Qed.

Lemma keys_pop d k k' : k' ∈ Dict.keys (Dict.pop d k) ↔ k' ≠ k ∧ k' ∈ Dict.keys d.
Proof.
  unfold Dict.keys. rewrite !list_elem_of_fmap. split.
  - intros ([k0 v] & -> & [Hne Hin]%elem_pop). split; [done|]. by exists (k0, v).
  - intros [Hne ([k0 v] & -> & Hin)]. exists (k0, v). split; [done|].
    by apply elem_pop.
Qed.

Lemma pop_notin d k : k ∉ Dict.keys d → Dict.pop d k = d.
Proof.
  unfold Dict.pop, Dict.keys. induction d as [|[k' v'] d IH]; [done|].
  rewrite fmap_cons, not_elem_of_cons. intros [Hne Hnotin].
  rewrite filter_cons_True by (simpl; naive_solver). by rewrite IH.
Qed.

Lemma pop_set_fresh d k v : k ∉ Dict.keys d → Dict.pop (Dict.set d k v) k = d.
Proof.
  intros Hk. rewrite DictFacts.set_fresh by done. unfold Dict.pop.
  rewrite filter_app, filter_cons_False, filter_nil, app_nil_r by (simpl; auto).
  by apply pop_notin.
Qed.

Lemma Forall_set (P : string * V → Prop) d k v :
  Forall P d → P (k, v) → Forall P (Dict.set d k v).
Proof.
  intros Hd Hv. induction Hd as [|[k' v'] d Hkv Hd IH]; simpl.
  - by constructor.
  - case_decide as Hk; constructor; try done. by subst.
Qed.

Lemma Forall_pop (P : string * V → Prop) d k :
  Forall P d → Forall P (Dict.pop d k).
Proof.
  rewrite !Forall_forall. intros Hd [k' v] [_ Hin]%list_elem_of_filter. by apply Hd.
Qed.

Lemma Forall_get (P : string * V → Prop) d k v :
  Forall P d → Dict.get d k = Some v → P (k, v).
Proof.
  intros Hd Hget%DictFacts.get_Some_elem. by eapply Forall_forall in Hd.
Qed.
End facts.
End DictFacts2.

Lemma tenant_present w pin :
  tenant w pin ≠ mkTenant [] [] [] → files w !! pin = Some (tenant w pin).
Proof. unfold tenant. by destruct (files w !! pin). Qed.

Lemma tenant_present_db w pin k db :
  Dict.get (dbs (tenant w pin)) k = Some db → files w !! pin = Some (tenant w pin).
Proof. intros Hget. apply tenant_present. intros E. by rewrite E in Hget. Qed.

Lemma tenant_present_folder w pin k f :
  Dict.get (doc_folders (tenant w pin)) k = Some f →
  files w !! pin = Some (tenant w pin).
Proof. intros Hget. apply tenant_present. intros E. by rewrite E in Hget. Qed.

Lemma tenant_present_doc w pin k d :
  Dict.get (documents (tenant w pin)) k = Some d →
  files w !! pin = Some (tenant w pin).
Proof. intros Hget. apply tenant_present. intros E. by rewrite E in Hget. Qed.

Lemma tenant_eta t : mkTenant (dbs t) (doc_folders t) (documents t) = t.
Proof. by destruct t. Qed.

(** Running the primitives of a handler of the tenant [pin]. *)
Ltac run_handler :=
  repeat first
    [ rewrite bind_unfold
    | rewrite require_pin_Some by done
    | progress unfold get_state_or_init, load_state, load_docs, load_shares,
        time_time
    | progress cbn [or_abort mret M_ret abort] ].

(** ** Links *)

(** [create_link] checks that both endpoints are given and nothing else:
    without one of them it aborts with 400; with both it stores the link
    under the identifier drawn, its types defaulting to 'table', whether or
    not the endpoints name anything.  A link whose endpoint names no entity
    of the database leaves it with a dangling link. *)
Theorem create_link_endpoints pin w db_id db data :
  truthy pin = true →
  Dict.get (dbs (tenant w pin)) db_id = Some db →
  match or_none (ld_from_id data), or_none (ld_to_id data) with
  | Some from_id, Some to_id =>
      let link := Link.mk (hex8 (uuid4_hi w (uuid4_calls w)))
                    (default "table" (ld_from_type data)) from_id
                    (default "table" (ld_to_type data)) to_id
                    (default "" (ld_note data)) in
      let db' := Database_with_links db
                   (Dict.set (Database.links db) (Link.id link) link) in
      ∃ w', create_link (Some pin) db_id data w = Ok (link, w')
            ∧ dbs (tenant w' pin) = Dict.set (dbs (tenant w pin)) db_id db'
            ∧ ((¬ endpoint_resolves db (Link.from_type link) from_id)
               ∨ (¬ endpoint_resolves db (Link.to_type link) to_id) →
               ¬ links_resolve db')
  | _, _ =>
      create_link (Some pin) db_id data w = Abort InvalidInput
  end.
Proof.
  intros Hpin Hdb. unfold create_link. run_handler. rewrite Hdb. run_handler.
  unfold gen_id at 1. run_handler. unfold or_none.
  destruct (ld_from_id data) as [from_id|]; [|done].
  destruct (truthy from_id) eqn:Hf; simpl.
  2:{ by destruct (ld_to_id data). }
  destruct (ld_to_id data) as [to_id|]; [|done].
  destruct (truthy to_id) eqn:Ht; simpl; [|done].
  run_handler. unfold save_state. eexists. split; [reflexivity|].
  rewrite tenant_insert, decide_True by done. simpl. split; [done|].
  intros Hdangling Hres.
  destruct (Hres (hex8 (uuid4_hi w (uuid4_calls w)))
              (Link.mk (hex8 (uuid4_hi w (uuid4_calls w)))
                 (default "table" (ld_from_type data)) from_id
                 (default "table" (ld_to_type data)) to_id
                 (default "" (ld_note data)))) as [H1 H2].
  { simpl. apply DictFacts.get_Some_elem, DictFacts.get_set_eq. }
  destruct Hdangling as [Hd|Hd]; apply Hd; [apply H1|apply H2].
Qed.

Lemma create_link_endpoints_witness :
  ∃ w', create_link (Some "pin") "db1"
          (mkLinkData (Some "column") (Some "nowhere") None (Some "t1") None) ex_world
        = Ok (Link.mk "00000001" "column" "nowhere" "table" "t1" "", w').
Proof.
  pose proof (create_link_endpoints "pin" ex_world "db1" ex_shop
                (mkLinkData (Some "column") (Some "nowhere") None (Some "t1") None)
                eq_refl eq_refl) as (w' & Hrun & _).
  by exists w'.
Defined.

Lemma Database_with_links_id db : Database_with_links db (Database.links db) = db.
Proof. by destruct db. Qed.

Lemma Database_with_tables_id db : Database_with_tables db (Database.tables db) = db.
Proof. by destruct db. Qed.

Lemma Table_with_columns_id t : Table_with_columns t (Table.columns t) = t.
Proof. by destruct t. Qed.

Lemma files_save_back w pin t :
  files w !! pin = Some t → <[pin := t]> (files w) = files w.
Proof. apply insert_id. Qed.

(** Deleting a link that was just created, under an identifier new to the
    links of the database, gives back the files as they were before the
    link was created. *)
Theorem create_delete_link_roundtrip pin w db_id db data link w1 :
  truthy pin = true →
  Dict.get (dbs (tenant w pin)) db_id = Some db →
  hex8 (uuid4_hi w (uuid4_calls w)) ∉ Dict.keys (Database.links db) →
  create_link (Some pin) db_id data w = Ok (link, w1) →
  ∃ w2, delete_link (Some pin) db_id (Link.id link) w1 = Ok (tt, w2)
        ∧ files w2 = files w
        ∧ shares_file w2 = shares_file w.
Proof.
  intros Hpin Hdb Hfresh. unfold create_link. run_handler. rewrite Hdb. run_handler.
  unfold gen_id at 1. run_handler.
  destruct (ld_from_id data) as [from_id|]; [|done].
  destruct (ld_to_id data) as [to_id|]; [|done].
  destruct (truthy from_id && truthy to_id); [|done].
  run_handler. unfold save_state at 1. intros [= <- <-].
  unfold delete_link. run_handler.
  rewrite tenant_insert, decide_True by done. cbn [dbs].
  rewrite DictFacts.get_set_eq. run_handler. cbn [Database.links Database_with_links Link.id].
  replace (Dict.mem _ _) with true.
  2:{ symmetry. apply DictFacts.mem_get. rewrite DictFacts.get_set_eq. by eexists. }
  run_handler. unfold save_state. eexists. split; [reflexivity|]. simpl.
  split; [|done].
  rewrite tenant_insert, decide_True by done. simpl.
  rewrite insert_insert_eq, DictFacts2.set_set, DictFacts2.pop_set_fresh by done.
  replace (Database_with_links (Database_with_links db _) _) with db
    by (by destruct db).
  rewrite DictFacts2.set_get_id by done.
  change (tenant (mkWorld (files w) _ _ _ _) pin) with (tenant w pin).
  rewrite tenant_eta. apply insert_id. by eapply tenant_present_db.
Qed.

Lemma create_delete_link_roundtrip_witness :
  ∃ w2, delete_link (Some "pin") "db1" "00000001"
          (serve (create_link (Some "pin") "db1"
                    (mkLinkData None (Some "t1") None (Some "t2") None)) ex_world)
        = Ok (tt, w2)
        ∧ files w2 = files ex_world.
Proof.
  assert (Hfresh : hex8 (uuid4_hi ex_world (uuid4_calls ex_world))
                   ∉ Dict.keys (Database.links ex_shop)) by compute_done.
  pose proof (create_delete_link_roundtrip "pin" ex_world "db1" ex_shop
                (mkLinkData None (Some "t1") None (Some "t2") None)
                (Link.mk "00000001" "table" "t1" "table" "t2" "")
                (serve (create_link (Some "pin") "db1"
                          (mkLinkData None (Some "t1") None (Some "t2") None)) ex_world)
                eq_refl eq_refl Hfresh eq_refl) as (w2 & Hrun & Hfiles & _).
  by exists w2.
Defined.

(** ** Deleting a table *)

(** [delete_table] scrubs links, not foreign references: the other tables
    are stored as they were, so a column whose reference names the deleted
    table keeps it, and the reference names no table of the database any
    more. *)
Theorem delete_table_keeps_foreign_refs pin w db_id db t_id t :
  truthy pin = true →
  Dict.get (dbs (tenant w pin)) db_id = Some db →
  Dict.get (Database.tables db) t_id = Some t →
  ∃ w' db',
    delete_table (Some pin) db_id t_id w = Ok (tt, w')
    ∧ Dict.get (dbs (tenant w' pin)) db_id = Some db'
    ∧ Database.tables db' = Dict.pop (Database.tables db) t_id
    ∧ (∀ k, k ≠ t_id →
         Dict.get (Database.tables db') k = Dict.get (Database.tables db) k)
    ∧ (∀ k t' ck c fr,
         (k, t') ∈ Database.tables db' → (ck, c) ∈ Table.columns t' →
         Column.foreign_ref c = Some fr → ForeignRef.table_id fr = t_id →
         ¬ ref_resolves db' fr).
Proof.
  intros Hpin Hdb Ht. unfold delete_table. run_handler. rewrite Hdb. run_handler.
  rewrite Ht. run_handler. unfold save_state.
  eexists _, _. split; [reflexivity|].
  rewrite tenant_insert, decide_True by done. cbn [dbs].
  split; [apply DictFacts.get_set_eq|]. cbn [Database.tables Database_with_tables].
  split; [done|]. split.
  - intros k Hk. by apply DictFacts.get_pop_ne.
  - intros k t' ck c fr _ _ _ Hfr [Hres _]. cbn [Database.tables] in Hres.
    rewrite Hfr in Hres. by apply DictFacts2.keys_pop in Hres as [? _].
Qed.

Lemma delete_table_keeps_foreign_refs_witness :
  ∃ w' db',
    delete_table (Some "pin") "db1" "t1" ex_world = Ok (tt, w')
    ∧ Dict.get (dbs (tenant w' "pin")) "db1" = Some db'
    ∧ Database.tables db' = Dict.pop (Database.tables ex_shop) "t1".
Proof.
  destruct (delete_table_keeps_foreign_refs "pin" ex_world "db1" ex_shop "t1" ex_users
              eq_refl eq_refl eq_refl) as (w' & db' & Hrun & Hget & Htables & _).
  by exists w', db'.
Defined.

(** ** Patches *)

Lemma world_eta w :
  mkWorld (files w) (shares_file w) (uuid4_hi w) (uuid4_calls w) (now w) = w.
Proof. by destruct w. Qed.

Lemma save_state_same pin w :
  files w !! pin = Some (tenant w pin) →
  save_state pin (dbs (tenant w pin)) w = Ok (tt, w).
Proof.
  intros Hfile. unfold save_state. rewrite tenant_eta, insert_id by done.
  by rewrite world_eta.
Qed.

Lemma save_docs_same pin w :
  files w !! pin = Some (tenant w pin) →
  save_docs pin (doc_folders (tenant w pin)) (documents (tenant w pin)) w = Ok (tt, w).
Proof.
  intros Hfile. unfold save_docs. rewrite tenant_eta, insert_id by done.
  by rewrite world_eta.
Qed.

Ltac same_world :=
  unfold save_state, save_docs; cbn [mret M_ret];
  rewrite ?tenant_eta, ?insert_id, ?world_eta by done.

(** A PATCH with an empty body answers with the entity as it is stored and
    leaves the world exactly as it was; so does a column patch whose only
    key is an [order] that is not an integer, and a document is not marked
    as updated. *)
Theorem empty_patch_changes_nothing pin w :
  truthy pin = true →
  (∀ db_id db,
     Dict.get (dbs (tenant w pin)) db_id = Some db →
     update_database (Some pin) db_id no_database_patch w = Ok (db, w)
     ∧ (∀ l_id l, Dict.get (Database.links db) l_id = Some l →
          update_link (Some pin) db_id l_id None w = Ok (l, w))
     ∧ (∀ t_id t, Dict.get (Database.tables db) t_id = Some t →
          update_table (Some pin) db_id t_id no_table_patch w = Ok (t, w)
          ∧ ∀ c_id c order,
              Dict.get (Table.columns t) c_id = Some c →
              order = IntAbsent ∨ order = IntBad →
              update_column (Some pin) db_id t_id c_id (no_column_patch order) w
              = Ok (c, w)))
  ∧ (∀ fid f,
       Dict.get (doc_folders (tenant w pin)) fid = Some f →
       api_update_folder (Some pin) fid no_folder_patch w = Ok (f, w))
  ∧ (∀ doc_id d,
       Dict.get (documents (tenant w pin)) doc_id = Some d →
       api_update_doc (Some pin) doc_id no_doc_patch w = Ok (d, w)).
Proof.
  intros Hpin. split; [|split].
  - intros db_id db Hdb.
    pose proof (tenant_present_db _ _ _ _ Hdb) as Hfile.
    split; [|split].
    + unfold update_database. run_handler. rewrite Hdb. run_handler. simpl.
      replace (Database.mk _ _ _ _ _ _) with db by (by destruct db).
      rewrite DictFacts2.set_get_id by done. by same_world.
    + intros l_id l Hl. unfold update_link. run_handler. rewrite Hdb. run_handler.
      rewrite Hl. run_handler. simpl.
      replace (Link.mk _ _ _ _ _ _) with l by (by destruct l).
      rewrite (DictFacts2.set_get_id _ _ _ Hl), Database_with_links_id.
      rewrite DictFacts2.set_get_id by done. by same_world.
    + intros t_id t Ht. split.
      * unfold update_table. run_handler. rewrite Hdb. run_handler.
        rewrite Ht. run_handler. simpl.
        replace (Table.mk _ _ _ _) with t by (by destruct t).
        rewrite (DictFacts2.set_get_id _ _ _ Ht), Database_with_tables_id.
        rewrite DictFacts2.set_get_id by done. by same_world.
      * intros c_id c order Hc Horder. unfold update_column. run_handler.
        rewrite Hdb. run_handler. rewrite Ht. run_handler. rewrite Hc. run_handler.
        replace (patch_column (no_column_patch order) c) with c
          by (by destruct c, Horder as [-> | ->]).
        rewrite (DictFacts2.set_get_id _ _ _ Hc), Table_with_columns_id.
        rewrite (DictFacts2.set_get_id _ _ _ Ht), Database_with_tables_id.
        rewrite DictFacts2.set_get_id by done. by same_world.
  - intros fid f Hf. pose proof (tenant_present_folder _ _ _ _ Hf) as Hfile.
    unfold api_update_folder. run_handler. rewrite Hf. run_handler. simpl.
    run_handler.
    rewrite DictFacts2.set_get_id by done. by same_world.
  - intros doc_id d Hd. pose proof (tenant_present_doc _ _ _ _ Hd) as Hfile.
    unfold api_update_doc. run_handler. rewrite Hd. run_handler. simpl.
    run_handler.
    replace (Document.mk _ _ _ _ _ _) with d by (by destruct d).
    rewrite DictFacts2.set_get_id by done. by same_world.
Qed.

Lemma empty_patch_changes_nothing_witness :
  update_database (Some "pin") "db1" no_database_patch ex_world = Ok (ex_shop, ex_world).
Proof.
  pose proof (empty_patch_changes_nothing "pin" ex_world eq_refl) as [H _].
  apply (H "db1" ex_shop eq_refl).
Defined.

(** ** Invariants *)

Global Instance preserves_preorder I : PreOrder (preserves I).
Proof.
  split.
  - by intros w pin.
  - intros w1 w2 w3 H1 H2 pin H. by apply H2, H1.
Qed.

(** Symbolic execution of a handler, for a goal [h w = Ok (a, w') → _]. *)
Lemma tenant_files w sh u c n pin :
  tenant (mkWorld (files w) sh u c n) pin = tenant w pin.
Proof. done. Qed.

Ltac exec :=
  repeat first
    [ rewrite bind_unfold
    | progress unfold require_pin, get_pin, get_state_or_init, load_state,
        load_docs, load_shares, time_time, gen_id, save_state, save_docs,
        save_shares, or_abort, abort, mret, M_ret
    | progress cbn [files shares_file uuid4_hi uuid4_calls now]
    | rewrite tenant_files
    | progress cbv beta iota zeta ].

Ltac head_case :=
  lazymatch goal with
  | |- ?lhs = Ok _ → _ =>
      let rec go t :=
        lazymatch t with
        | match ?x with _ => _ end => first [go x | destruct x eqn:?]
        | ?f _ => go f
        end in
      go lhs
  end.

Ltac exec_cases := repeat (exec; head_case; try done); exec.

Lemma strip_name_nonempty n d : d ≠ "" → str_or (Some (strip n)) d ≠ "".
Proof.
  intros Hd. unfold str_or, truthy. case_bool_decide; done.
Qed.

Lemma patched_name_nonempty n old : old ≠ "" → patched_name n old ≠ "".
Proof. apply strip_name_nonempty. Qed.



Lemma if_truthy_nonempty s d : d ≠ "" → (if truthy s then s else d) ≠ "".
Proof. intros Hd. unfold truthy. by case_bool_decide. Qed.

Lemma for_each_preserves {A S} (I : S → Prop) (body : S → A → M S) xs :
  (∀ s x w s' w', x ∈ xs → I s → body s x w = Ok (s', w') → I s') →
  ∀ s w s' w', I s → for_each xs body s w = Ok (s', w') → I s'.
Proof.
  induction xs as [|x xs IH]; intros Hbody s w s' w' Hs; simpl.
  - by intros [= <- _].
  - rewrite bind_unfold. destruct (body s x w) as [[s1 w1]| |] eqn:E; [|done..].
    apply IH; [|eapply Hbody; [|done..]; by left].
    intros ????? Hin. apply Hbody. by right.
Qed.

Lemma database_ok_get t k db :
  schema_ok t → Dict.get (dbs t) k = Some db → database_ok (k, db).
Proof. apply DictFacts2.Forall_get. Qed.

Lemma table_ok_get k db tk t :
  database_ok (k, db) → Dict.get (Database.tables db) tk = Some t → table_ok (tk, t).
Proof. intros (_ & _ & Hts & _). by apply DictFacts2.Forall_get. Qed.

Lemma column_ok_get tk t ck c :
  table_ok (tk, t) → Dict.get (Table.columns t) ck = Some c → column_ok (ck, c).
Proof. intros (_ & _ & Hcs). by apply DictFacts2.Forall_get. Qed.

Lemma link_ok_get k db lk l :
  database_ok (k, db) → Dict.get (Database.links db) lk = Some l → link_ok (lk, l).
Proof. intros (_ & _ & _ & Hls). by apply DictFacts2.Forall_get. Qed.

Lemma Forall_pop_all {V} (P : string * V → Prop) d ks :
  Forall P d → Forall P (Dict.pop_all d ks).
Proof.
  revert d. induction ks as [|k ks IH]; intros d Hd; simpl; [done|].
  by apply IH, DictFacts2.Forall_pop.
Qed.

(** The copy made by [duplicate] is well formed when the source is,
    whatever identifiers are drawn. *)
Lemma duplicate_ok k src w copy tm cm w' :
  database_ok (k, src) →
  duplicate src w = Ok ((copy, tm, cm), w') →
  database_ok (Database.id copy, copy).
Proof.
  intros (_ & _ & Hts & Hls). unfold duplicate. exec_cases.
  intros [= <- _ _ _]. split; [done|]. cbn [snd Database.name Database.tables Database.links].
  split; [by destruct (Database.name src)|]. split.
  - match goal with
    | H1 : for_each (Database.tables src) _ _ _ = Ok (?p1, _),
      H2 : for_each (pending_refs ?p1) _ _ _ = _ |- _ =>
        eapply (for_each_preserves (λ ts, Forall table_ok ts)) in H2; [done| |];
        [|eapply (for_each_preserves (λ s, Forall table_ok (new_tables s))) in H1;
          [done| |by constructor]]
    end.
    + intros ts [[tk ck] fr] wa ts' wb _ Hok. unfold resolve_ref_step. exec_cases.
      all: intros [= <- _]; try done.
      apply DictFacts2.Forall_set; [done|].
      match goal with
      | Ht : Dict.get ts tk = Some ?t, Hc : Dict.get (Table.columns ?t) ck = Some ?c |- _ =>
          pose proof (DictFacts2.Forall_get _ _ _ _ Hok Ht) as (Hid & Hname & Hcols);
          pose proof (DictFacts2.Forall_get _ _ _ _ Hcols Hc) as [Hcid Hcname]
      end.
      split; [done|]. split; [done|]. cbn [snd Table_with_columns Table.columns].
      by apply DictFacts2.Forall_set.
    + intros s [tk t] wa s' wb Hin Hok. unfold copy_table_step. exec_cases.
      intros [= <- _]. cbn [new_tables].
      apply DictFacts2.Forall_set; [done|].
      rewrite Forall_forall in Hts. destruct (Hts _ Hin) as (_ & Hname & Hcols).
      split; [done|]. split; [done|]. cbn [snd Table.columns].
      match goal with
      | H : for_each (Table.columns t) _ _ _ = _ |- _ =>
          eapply (for_each_preserves
                    (λ s : dict Column.t * dict string * list pending_ref,
                       Forall column_ok s.1.1)) in H; [done| |by constructor]
      end.
      intros [[cols cmap] pend] [ck c] wc s1 wd Hc Hcok. unfold copy_column_step.
      exec_cases. intros [= <- _]. cbn [fst].
      apply DictFacts2.Forall_set; [done|].
      rewrite Forall_forall in Hcols. destruct (Hcols _ Hc) as [_ Hcname]. done.
  - match goal with
    | H : for_each (Database.links src) _ _ _ = _ |- _ =>
        eapply (for_each_preserves (λ ls, Forall link_ok ls)) in H; [done| |by constructor]
    end.
    intros ls [lk lnk] wa ls' wb _ Hok. unfold remap_link_step. exec_cases.
    intros [= <- _]. by apply DictFacts2.Forall_set.
Qed.

Lemma duplicate_same_files src : keeps same_files (duplicate src).
Proof.
  unfold duplicate, copy_table_step, copy_column_step, resolve_ref_step,
    remap_link_step. keeps_auto.
Qed.

Ltac name_ok :=
  first [ done
        | apply patched_name_nonempty; done
        | apply strip_name_nonempty; done
        | apply if_truthy_nonempty; done ].

Ltac schema_world :=
  let pin' := fresh "pin'" in
  let Hok := fresh "Hok" in
  intros [= <- <-] pin' Hok; rewrite tenant_insert; case_decide;
  [subst pin'|done]; unfold schema_ok in *; cbn [dbs].

(** Every schema handler keeps the stored schema well formed: each
    database, table, column and link sits under its own identifier, and no
    database, table or column has an empty name. *)
Theorem schema_handlers_keep_schema_ok cookie :
  (∀ name, keeps (preserves schema_ok) (create_database cookie name))
  ∧ (∀ db_id, keeps (preserves schema_ok) (delete_database cookie db_id))
  ∧ (∀ db_id data, keeps (preserves schema_ok) (update_database cookie db_id data))
  ∧ (∀ db_id, keeps (preserves schema_ok) (duplicate_database cookie db_id))
  ∧ (∀ db_id name, keeps (preserves schema_ok) (create_table cookie db_id name))
  ∧ (∀ db_id t_id, keeps (preserves schema_ok) (delete_table cookie db_id t_id))
  ∧ (∀ db_id t_id data,
       keeps (preserves schema_ok) (update_table cookie db_id t_id data))
  ∧ (∀ db_id t_id data,
       keeps (preserves schema_ok) (create_column cookie db_id t_id data))
  ∧ (∀ db_id t_id c_id,
       keeps (preserves schema_ok) (delete_column cookie db_id t_id c_id))
  ∧ (∀ db_id t_id c_id data,
       keeps (preserves schema_ok) (update_column cookie db_id t_id c_id data))
  ∧ (∀ db_id data, keeps (preserves schema_ok) (create_link cookie db_id data))
  ∧ (∀ db_id l_id note,
       keeps (preserves schema_ok) (update_link cookie db_id l_id note))
  ∧ (∀ db_id l_id, keeps (preserves schema_ok) (delete_link cookie db_id l_id)).
Proof.
  repeat apply conj.
  - intros name w a w'. unfold create_database. exec_cases. schema_world.
    apply DictFacts2.Forall_set; [done|].
    split; [done|]. split; [name_ok|]. split; constructor.
  - intros db_id w a w'. unfold delete_database. exec_cases. schema_world.
    by apply DictFacts2.Forall_pop.
  - intros db_id data w a w'. unfold update_database. exec_cases. schema_world.
    apply DictFacts2.Forall_set; [done|].
    match goal with
    | H : Dict.get _ _ = Some _ |- _ =>
        pose proof (database_ok_get _ _ _ Hok H) as (Hid & Hname & Hts & Hls)
    end.
    split; [done|]. split; [|by split].
    cbn [snd Database.name]. destruct (dp_name data); name_ok.
  - intros db_id w a w'. unfold duplicate_database. exec_cases.
    match goal with
    | H : duplicate _ _ = Ok (_, ?w1) |- _ =>
        pose proof (duplicate_same_files _ _ _ _ H) as Hfiles;
        change (tenant w1) with (λ p, default (mkTenant [] [] []) (files w1 !! p));
        cbv beta; rewrite Hfiles;
        change (λ p, default (mkTenant [] [] []) (files w !! p)) with (tenant w)
    end.
    schema_world.
    match goal with
    | H : Dict.get _ _ = Some _, Hd : duplicate _ _ = _ |- _ =>
        pose proof (database_ok_get _ _ _ Hok H) as Hsrc;
        pose proof (duplicate_ok _ _ _ _ _ _ _ Hsrc Hd)
    end.
    by apply DictFacts2.Forall_set.
  - intros db_id name w a w'. unfold create_table. exec_cases. schema_world.
    apply DictFacts2.Forall_set; [done|].
    match goal with
    | H : Dict.get _ _ = Some _ |- _ =>
        pose proof (database_ok_get _ _ _ Hok H) as (Hid & Hname & Hts & Hls)
    end.
    split; [done|]. split; [done|]. split; [|done].
    apply DictFacts2.Forall_set; [done|].
    split; [done|]. split; [name_ok|constructor].
  - intros db_id t_id w a w'. unfold delete_table. exec_cases. schema_world.
    apply DictFacts2.Forall_set; [done|].
    match goal with
    | H : Dict.get (dbs _) _ = Some _ |- _ =>
        pose proof (database_ok_get _ _ _ Hok H) as (Hid & Hname & Hts & Hls)
    end.
    split; [done|]. split; [done|].
    split; [by apply DictFacts2.Forall_pop|by do 2 apply Forall_pop_all].
  - intros db_id t_id data w a w'. unfold update_table. exec_cases. schema_world.
    apply DictFacts2.Forall_set; [done|].
    match goal with
    | H : Dict.get (dbs _) _ = Some ?db, Ht : Dict.get (Database.tables ?db) _ = Some _ |- _ =>
        pose proof (database_ok_get _ _ _ Hok H) as Hdb;
        pose proof (table_ok_get _ _ _ _ Hdb Ht) as (Htid & Htname & Hcols);
        destruct Hdb as (Hid & Hname & Hts & Hls)
    end.
    split; [done|]. split; [done|]. split; [|done].
    apply DictFacts2.Forall_set; [done|].
    split; [done|]. split; [|done].
    cbn [snd Table.name]. destruct (tp_name data); name_ok.
  - intros db_id t_id data w a w'. unfold create_column. exec_cases. schema_world.
    apply DictFacts2.Forall_set; [done|].
    match goal with
    | H : Dict.get (dbs _) _ = Some ?db, Ht : Dict.get (Database.tables ?db) _ = Some _ |- _ =>
        pose proof (database_ok_get _ _ _ Hok H) as Hdb;
        pose proof (table_ok_get _ _ _ _ Hdb Ht) as (Htid & Htname & Hcols);
        destruct Hdb as (Hid & Hname & Hts & Hls)
    end.
    split; [done|]. split; [done|]. split; [|done].
    apply DictFacts2.Forall_set; [done|].
    split; [done|]. split; [done|].
    apply DictFacts2.Forall_set; [done|]. split; [done|]. name_ok.
  - intros db_id t_id c_id w a w'. unfold delete_column. exec_cases. schema_world.
    apply DictFacts2.Forall_set; [done|].
    match goal with
    | H : Dict.get (dbs _) _ = Some ?db, Ht : Dict.get (Database.tables ?db) _ = Some _ |- _ =>
        pose proof (database_ok_get _ _ _ Hok H) as Hdb;
        pose proof (table_ok_get _ _ _ _ Hdb Ht) as (Htid & Htname & Hcols);
        destruct Hdb as (Hid & Hname & Hts & Hls)
    end.
    split; [done|]. split; [done|]. split; [|by apply Forall_pop_all].
    apply DictFacts2.Forall_set; [done|].
    split; [done|]. split; [done|]. by apply DictFacts2.Forall_pop.
  - intros db_id t_id c_id data w a w'. unfold update_column. exec_cases. schema_world.
    apply DictFacts2.Forall_set; [done|].
    match goal with
    | H : Dict.get (dbs _) _ = Some ?db,
      Ht : Dict.get (Database.tables ?db) _ = Some ?t,
      Hc : Dict.get (Table.columns ?t) _ = Some _ |- _ =>
        pose proof (database_ok_get _ _ _ Hok H) as Hdb;
        pose proof (table_ok_get _ _ _ _ Hdb Ht) as Ht';
        pose proof (column_ok_get _ _ _ _ Ht' Hc) as [Hcid Hcname];
        destruct Ht' as (Htid & Htname & Hcols);
        destruct Hdb as (Hid & Hname & Hts & Hls)
    end.
    split; [done|]. split; [done|]. split; [|done].
    apply DictFacts2.Forall_set; [done|].
    split; [done|]. split; [done|].
    apply DictFacts2.Forall_set; [done|]. split; [done|].
    cbn [snd patch_column Column.name]. destruct (cp_name data); name_ok.
  - intros db_id data w a w'. unfold create_link. exec_cases. schema_world.
    apply DictFacts2.Forall_set; [done|].
    match goal with
    | H : Dict.get _ _ = Some _ |- _ =>
        pose proof (database_ok_get _ _ _ Hok H) as (Hid & Hname & Hts & Hls)
    end.
    split; [done|]. split; [done|]. split; [done|].
    by apply DictFacts2.Forall_set.
  - intros db_id l_id note w a w'. unfold update_link. exec_cases. schema_world.
    apply DictFacts2.Forall_set; [done|].
    match goal with
    | H : Dict.get (dbs _) _ = Some ?db, Hl : Dict.get (Database.links ?db) _ = Some _ |- _ =>
        pose proof (database_ok_get _ _ _ Hok H) as Hdb;
        pose proof (link_ok_get _ _ _ _ Hdb Hl) as Hlid;
        destruct Hdb as (Hid & Hname & Hts & Hls)
    end.
    split; [done|]. split; [done|]. split; [done|].
    by apply DictFacts2.Forall_set.
  - intros db_id l_id w a w'. unfold delete_link. exec_cases. schema_world.
    apply DictFacts2.Forall_set; [done|].
    match goal with
    | H : Dict.get _ _ = Some _ |- _ =>
        pose proof (database_ok_get _ _ _ Hok H) as (Hid & Hname & Hts & Hls)
    end.
    split; [done|]. split; [done|]. split; [done|].
    by apply DictFacts2.Forall_pop.
Qed.

Lemma keys_set_incl {V} (d : dict V) k v k' :
  k' ∈ Dict.keys d → k' ∈ Dict.keys (Dict.set d k v).
Proof.
  intros Hk'. destruct (decide (k ∈ Dict.keys d)) as [Hk|Hk].
  - by rewrite DictFacts.keys_set_mem.
  - rewrite DictFacts.set_fresh by done. unfold Dict.keys in *.
    rewrite fmap_app, elem_of_app. by left.
Qed.

Lemma parent_ok_keys (fs fs' : dict DocFolder.t) p :
  (∀ x, x ∈ Dict.keys fs → x ∈ Dict.keys fs') → parent_ok fs p → parent_ok fs' p.
Proof. intros Hincl Hp x Hx. destruct (Hp x Hx) as [?|?]; [by left|right; auto]. Qed.

Lemma folders_ok_keys (fs fs' l : dict DocFolder.t) :
  (∀ x, x ∈ Dict.keys fs → x ∈ Dict.keys fs') →
  Forall (folder_ok fs) l → Forall (folder_ok fs') l.
Proof.
  intros Hincl Hl. eapply Forall_impl; [done|]. intros kf (Hid & Hname & Hp).
  split; [done|]. split; [done|]. by eapply parent_ok_keys.
Qed.

Lemma docs_ok_keys (fs fs' : dict DocFolder.t) (l : dict Document.t) :
  (∀ x, x ∈ Dict.keys fs → x ∈ Dict.keys fs') →
  Forall (doc_ok fs) l → Forall (doc_ok fs') l.
Proof.
  intros Hincl Hl. eapply Forall_impl; [done|]. intros kd (Hid & Hname & Hp & Hn).
  split; [done|]. split; [done|]. split; [|done]. by eapply parent_ok_keys.
Qed.

Lemma parent_ok_or_none (fs : dict DocFolder.t) o :
  dangling_parent (or_none o) fs = false → parent_ok fs (or_none o).
Proof. intros Hd x Hx. by eapply dangling_parent_false. Qed.

Lemma parent_ok_pop (fs : dict DocFolder.t) fid p :
  p ≠ Some fid → parent_ok fs p → parent_ok (Dict.pop fs fid) p.
Proof.
  intros Hne Hp x ->. destruct (Hp x eq_refl) as [?|Hin]; [by left|right].
  apply DictFacts2.keys_pop. split; [congruence|done].
Qed.

Lemma truthy_nonempty s : truthy s = true → s ≠ "".
Proof. unfold truthy. by intros ?%bool_decide_eq_true. Qed.

Ltac docs_world :=
  let pin' := fresh "pin'" in
  let Hok := fresh "Hok" in
  let Hfs := fresh "Hfs" in
  let Hds := fresh "Hds" in
  intros [= <- <-] pin' Hok; rewrite tenant_insert;
  match goal with
  | |- context [decide (?p = pin')] => destruct (decide (p = pin')) as [<-|?]
  end; [|done]; destruct Hok as [Hfs Hds]; split;
  cbn [doc_folders documents].

(** Every handler that writes folders or documents, the note route of the
    shares included, keeps the stored tree well formed: each folder,
    document and note sits under its own identifier, no folder or document
    has an empty name, no note an empty text, and every parent named is a
    folder of the tree (or the empty string). *)
Theorem document_handlers_keep_docs_ok cookie :
  (∀ data, keeps (preserves docs_ok) (api_create_folder cookie data))
  ∧ (∀ fid data, keeps (preserves docs_ok) (api_update_folder cookie fid data))
  ∧ (∀ fid, keeps (preserves docs_ok) (api_delete_folder cookie fid))
  ∧ (∀ data, keeps (preserves docs_ok) (api_create_doc cookie data))
  ∧ (∀ doc_id data, keeps (preserves docs_ok) (api_update_doc cookie doc_id data))
  ∧ (∀ doc_id, keeps (preserves docs_ok) (api_delete_doc cookie doc_id))
  ∧ (∀ doc_id data, keeps (preserves docs_ok) (api_add_note cookie doc_id data))
  ∧ (∀ doc_id nid, keeps (preserves docs_ok) (api_delete_note cookie doc_id nid))
  ∧ (∀ fuel token doc_id data,
       keeps (preserves docs_ok) (api_shared_add_note fuel token doc_id data)).
Proof.
  repeat apply conj.
  - intros data w a w'. unfold api_create_folder. exec_cases. docs_world.
    + apply DictFacts2.Forall_set.
      * eapply folders_ok_keys; [|done]. intros x. apply keys_set_incl.
      * split; [done|]. split; [name_ok|].
        eapply parent_ok_keys; [|by apply parent_ok_or_none].
        intros x. apply keys_set_incl.
    + eapply docs_ok_keys; [|done]. intros x. apply keys_set_incl.
  - intros fid data w a w'. unfold api_update_folder. exec_cases.
    all: docs_world.
    all: match goal with
         | H : Dict.get (doc_folders _) _ = Some _ |- _ =>
             pose proof (DictFacts2.Forall_get _ _ _ _ Hfs H) as (Hid & Hname & Hp)
         end.
    all: try (eapply docs_ok_keys; [|done]; intros x; apply keys_set_incl).
    all: apply DictFacts2.Forall_set;
      [eapply folders_ok_keys; [|done]; intros x; apply keys_set_incl|].
    all: split; [by destruct (fp_name data)|].
    all: split; [destruct (fp_name data); cbn; name_ok|].
    + eapply parent_ok_keys; [intros x; apply keys_set_incl|].
      intros x Hx. eapply dangling_parent_false; [done|].
      by destruct (fp_name data).
    + eapply parent_ok_keys; [intros x; apply keys_set_incl|].
      by destruct (fp_name data).
  - intros fid w a w'. unfold api_delete_folder. exec_cases. docs_world.
    + match goal with
      | H : has_child_document _ _ || has_child_folder _ _ = false |- _ =>
          apply orb_false_iff in H as [Hdoc Hfold]
      end.
      rewrite Forall_forall in Hfs. apply Forall_forall.
      intros [k f] [Hk Hin]%DictFacts2.elem_pop.
      destruct (Hfs _ Hin) as (Hid & Hname & Hp).
      split; [done|]. split; [done|]. apply parent_ok_pop; [|done].
      intros Hparent. apply not_true_iff_false in Hfold. apply Hfold.
      apply has_child_folder_true. exists f. split; [|split; [|done]].
      * apply list_elem_of_fmap. by exists (k, f).
      * simpl in Hid. congruence.
    + match goal with
      | H : has_child_document _ _ || has_child_folder _ _ = false |- _ =>
          apply orb_false_iff in H as [Hdoc Hfold]
      end.
      rewrite Forall_forall in Hds. apply Forall_forall. intros [k d] Hin.
      destruct (Hds _ Hin) as (Hid & Hname & Hp & Hn).
      split; [done|]. split; [done|]. split; [|done]. apply parent_ok_pop; [|done].
      intros Hparent. apply not_true_iff_false in Hdoc. apply Hdoc.
      apply has_child_document_true. exists d. split; [|done].
      apply list_elem_of_fmap. by exists (k, d).
  - intros data w a w'. unfold api_create_doc. exec_cases. docs_world; [done|].
    apply DictFacts2.Forall_set; [done|].
    split; [done|]. split; [name_ok|]. split; [|constructor].
    by apply parent_ok_or_none.
  - intros doc_id data w a w'. unfold api_update_doc. exec_cases.
    all: docs_world; [done|].
    all: match goal with
         | H : Dict.get (documents _) _ = Some _ |- _ =>
             pose proof (DictFacts2.Forall_get _ _ _ _ Hds H) as (Hid & Hname & Hp & Hn)
         end.
    all: apply DictFacts2.Forall_set; [done|].
    all: split; [done|].
    all: split; [cbn; destruct (dc_name data); name_ok|].
    all: split; [|done].
    + intros x Hx. by eapply dangling_parent_false.
    + done.
  - intros doc_id w a w'. unfold api_delete_doc. exec_cases. docs_world; [done|].
    by apply DictFacts2.Forall_pop.
  - intros doc_id data w a w'. unfold api_add_note. exec_cases.
    docs_world; [done|].
    match goal with
    | H : Dict.get (documents _) _ = Some _ |- _ =>
        pose proof (DictFacts2.Forall_get _ _ _ _ Hds H) as (Hid & Hname & Hp & Hn)
    end.
    apply DictFacts2.Forall_set; [done|].
    split; [done|]. split; [done|]. split; [done|].
    apply DictFacts2.Forall_set; [done|]. split; [done|].
    apply truthy_nonempty. by apply negb_false_iff.
  - intros doc_id nid w a w'. unfold api_delete_note. exec_cases.
    docs_world; [done|].
    match goal with
    | H : Dict.get (documents _) _ = Some _ |- _ =>
        pose proof (DictFacts2.Forall_get _ _ _ _ Hds H) as (Hid & Hname & Hp & Hn)
    end.
    apply DictFacts2.Forall_set; [done|].
    split; [done|]. split; [done|]. split; [done|].
    by apply DictFacts2.Forall_pop.
  - intros fuel token doc_id data w a w'.
    unfold api_shared_add_note, _shared_context, resolve_subtree. exec_cases.
    all: docs_world; [done|].
    all: match goal with
         | H : Dict.get (documents _) _ = Some _ |- _ =>
             pose proof (DictFacts2.Forall_get _ _ _ _ Hds H) as (Hid & Hname & Hp & Hn)
         end.
    all: apply DictFacts2.Forall_set; [done|].
    all: split; [done|]; split; [done|]; split; [done|].
    all: apply DictFacts2.Forall_set; [done|]; split; [done|].
    all: apply truthy_nonempty; by apply negb_false_iff.
Qed.

(** ** Duplication keeps the references *)

Lemma column_at_Some ts i j tk ck c :
  column_at ts i j = Some (tk, ck, c)
  ↔ ∃ t, ts !! i = Some (tk, t) ∧ Table.columns t !! j = Some (ck, c).
Proof.
  unfold column_at. split.
  - destruct (ts !! i) as [[tk' t]|]; [|done].
    destruct (Table.columns t !! j) as [[ck' c']|] eqn:E; [|done].
    intros [= -> -> ->]. by exists t.
  - intros (t & -> & ->). done.
Qed.

Lemma column_at_app_l ts ts' i j :
  i < length ts → column_at (ts ++ ts') i j = column_at ts i j.
Proof. intros Hi. unfold column_at. by rewrite lookup_app_l. Qed.

Lemma column_at_app_r ts ts' i j :
  length ts ≤ i → column_at (ts ++ ts') i j = column_at ts' (i - length ts) j.
Proof. intros Hi. unfold column_at. by rewrite lookup_app_r. Qed.

Lemma column_at_lt ts i j x : column_at ts i j = Some x → i < length ts.
Proof.
  unfold column_at. destruct (ts !! i) eqn:E; [|done]. intros _.
  by eapply lookup_lt_Some.
Qed.

Lemma column_at_col_keys ts i j tk ck c :
  column_at ts i j = Some (tk, ck, c) → ck ∈ col_keys ts.
Proof.
  intros (t & Hi & Hj)%column_at_Some. unfold col_keys.
  apply list_elem_of_bind. exists (tk, t). split.
  - simpl. unfold Dict.keys. apply list_elem_of_fmap. exists (ck, c).
    split; [done|]. apply list_elem_of_lookup. eauto.
  - apply list_elem_of_lookup. eauto.
Qed.

Lemma get_fold_set_notin (ks vs : list string) : ∀ (m : dict string) k,
  k ∉ ks →
  Dict.get (foldl (λ m p, Dict.set m p.1 p.2) m (zip ks vs)) k = Dict.get m k.
Proof.
  revert vs. induction ks as [|k0 ks IH]; intros [|v0 vs] m k Hk; try done.
  apply not_elem_of_cons in Hk as [Hne Hk]. simpl.
  rewrite IH by done. by rewrite DictFacts.get_set_ne.
Qed.

Lemma get_fold_set_lookup (ks vs : list string) : ∀ (m : dict string) j k v,
  NoDup ks → ks !! j = Some k → vs !! j = Some v →
  Dict.get (foldl (λ m p, Dict.set m p.1 p.2) m (zip ks vs)) k = Some v.
Proof.
  revert vs. induction ks as [|k0 ks IH]; intros [|v0 vs] m j k v Hnd Hk Hv; try done.
  apply NoDup_cons in Hnd as [Hk0 Hnd]. destruct j as [|j]; simpl in *.
  - injection Hk as ->. injection Hv as ->.
    rewrite get_fold_set_notin by done. apply DictFacts.get_set_eq.
  - by eapply IH.
Qed.

Lemma deferred_refs_complete t_new ids (cols : dict Column.t) j ck c_old c fr :
  ids !! j = Some ck → cols !! j = Some (c_old, c) →
  Column.foreign_ref c = Some fr →
  (t_new, ck, fr) ∈ deferred_refs t_new ids cols.
Proof.
  intros Hid Hc Hfr. unfold deferred_refs. apply list_elem_of_omap.
  exists (ck, (c_old, c)). split.
  - apply list_elem_of_lookup. exists j. apply lookup_zip_with_Some.
    by exists ck, (c_old, c).
  - simpl. by rewrite Hfr.
Qed.

Lemma drawn_ids_truthy w n i : i ∈ drawn_ids w n → truthy i = true.
Proof.
  unfold drawn_ids. intros (k & -> & _)%list_elem_of_fmap. apply hex8_truthy.
Qed.

(** One round of the first pass, in closed form. *)
Lemma copy_table_step_run w1 tables done t_old t rest s w :
  NoDup (drawn_ids w1 (length (flat_ids tables))) →
  tables = done ++ (t_old, t) :: rest →
  pass1_inv w1 done s w →
  let t_new := hex8 (uuid4_hi w (uuid4_calls w)) in
  let ids := drawn_ids (skip_ids 1 w) (length (Table.columns t)) in
  copy_table_step s (t_old, t) w
  = Ok (mkPass1
          (new_tables s
             ++ [(t_new, Table.mk t_new (Table.name t) (Table.note t)
                           (zip_with (λ id kc, (id, copy_column id kc.2)) ids
                              (Table.columns t)))])
          (Dict.set (table_id_map s) t_old t_new)
          (foldl (λ m p, Dict.set m p.1 p.2) (col_id_map s)
             (zip (Dict.keys (Table.columns t)) ids))
          (pending_refs s ++ deferred_refs t_new ids (Table.columns t)),
        skip_ids (S (length (Table.columns t))) w).
Proof.
  intros Hnd Htables Hinv.
  set (m := length (flat_ids done)).
  set (cols := Table.columns t).
  set (n := length cols).
  assert (Hsplit : drawn_ids w1 (length (flat_ids tables))
                   = drawn_ids w1 m ++ drawn_ids w (S n)
                     ++ drawn_ids (skip_ids (S n) w) (length (flat_ids rest))).
  { rewrite Htables, flat_ids_app, length_app. fold m.
    change ((t_old, t) :: rest) with ([(t_old, t)] ++ rest).
    rewrite flat_ids_app, length_app, flat_ids_singleton. simpl length.
    unfold Dict.keys. rewrite length_fmap. fold cols n.
    rewrite !drawn_ids_app, (p1_world Hinv). fold m.
    by rewrite skip_ids_skip. }
  rewrite Hsplit in Hnd.
  apply NoDup_app in Hnd as (_ & Hold & Hnd).
  apply NoDup_app in Hnd as (Hnd & _ & _).
  rewrite drawn_ids_cons in Hnd, Hold.
  intros t_new ids. fold n in ids.
  apply NoDup_cons in Hnd as [Hhd Hnd].
  unfold copy_table_step. rewrite bind_unfold, gen_id_run. fold t_new.
  rewrite bind_unfold. fold cols.
  rewrite copy_columns_run;
    [|exact Hnd|by apply Forall_forall; intros ? _; apply not_elem_of_nil].
  fold n ids. rewrite app_nil_l. cbn [mret M_ret].
  assert (Hfresh : t_new ∉ Dict.keys (new_tables s)).
  { intros Hin%keys_flat_ids. rewrite (p1_ids Hinv) in Hin. fold m in Hin.
    apply (Hold t_new Hin). by left. }
  rewrite (DictFacts.set_fresh _ _ _ Hfresh), skip_ids_skip.
  do 2 f_equal.
Qed.

Lemma col_keys_NoDup_app ts1 k t ts2 :
  NoDup (col_keys (ts1 ++ (k, t) :: ts2)) →
  NoDup (Dict.keys (Table.columns t))
  ∧ ∀ x, x ∈ col_keys ts1 → x ∉ Dict.keys (Table.columns t).
Proof.
  change ((k, t) :: ts2) with ([(k, t)] ++ ts2).
  rewrite !col_keys_app, col_keys_singleton.
  intros (_ & Hdisj & (Hnd & _ & _)%NoDup_app)%NoDup_app. split; [done|].
  intros x Hx Hin. apply (Hdisj x Hx). apply elem_of_app. by left.
Qed.

Lemma pass1_maps_init : pass1_maps [] (mkPass1 [] [] [] []).
Proof. split; intros; by simplify_eq. Qed.

Lemma pass1_maps_step w1 tables done t_old t rest s w s' w' :
  NoDup (col_keys tables) →
  NoDup (drawn_ids w1 (length (flat_ids tables))) →
  tables = done ++ (t_old, t) :: rest →
  pass1_inv w1 done s w →
  pass1_maps done s →
  copy_table_step s (t_old, t) w = Ok (s', w') →
  pass1_maps (done ++ [(t_old, t)]) s'.
Proof.
  intros Hck Hnd Htables Hinv Hmaps.
  rewrite (copy_table_step_run w1 tables done t_old t rest s w Hnd Htables Hinv).
  intros [= <- _].
  set (t_new := hex8 (uuid4_hi w (uuid4_calls w))).
  set (ids := drawn_ids (skip_ids 1 w) (length (Table.columns t))).
  rewrite Htables in Hck. apply col_keys_NoDup_app in Hck as [Hnd_c Hdisj].
  pose proof (Forall2_length _ _ _ (p1_tables Hinv)) as Hlen.
  assert (Hnew : ∀ i j t0 c_old c tk ck c',
            column_at (done ++ [(t_old, t)]) i j = Some (t0, c_old, c) →
            column_at (new_tables s
                         ++ [(t_new, Table.mk t_new (Table.name t) (Table.note t)
                                       (zip_with (λ id kc, (id, copy_column id kc.2)) ids
                                          (Table.columns t)))]) i j
            = Some (tk, ck, c') →
            (i < length done ∧ column_at done i j = Some (t0, c_old, c)
             ∧ column_at (new_tables s) i j = Some (tk, ck, c'))
            ∨ (tk = t_new ∧ ids !! j = Some ck
               ∧ Table.columns t !! j = Some (c_old, c))).
  { intros i j t0 c_old c tk ck c' Hsrc Hcopy.
    pose proof (column_at_lt _ _ _ _ Hsrc) as Hi. rewrite length_app in Hi.
    simpl in Hi. destruct (decide (i < length done)) as [Hlt|Hge].
    - left. rewrite column_at_app_l in Hsrc by done.
      rewrite column_at_app_l in Hcopy by lia. done.
    - right. rewrite column_at_app_r in Hsrc by lia.
      rewrite column_at_app_r in Hcopy by lia.
      replace (i - length done) with 0 in Hsrc by lia.
      replace (i - length (new_tables s)) with 0 in Hcopy by lia.
      apply column_at_Some in Hsrc as (t1 & [= <- <-] & Hj).
      apply column_at_Some in Hcopy as (t1' & [= <- <-] & Hj').
      cbn [Table.columns] in Hj'.
      apply lookup_zip_with_Some in Hj' as (x & y & [= <- _] & Hx & _). done. }
  split; cbn [col_id_map pending_refs new_tables].
  - intros i j t0 c_old c tk ck c' Hsrc Hcopy.
    destruct (Hnew _ _ _ _ _ _ _ _ Hsrc Hcopy) as [(_ & H1 & H2)|(-> & Hid & Hc)].
    + rewrite get_fold_set_notin; [by eapply (p1_col_at Hmaps)|].
      apply Hdisj. by eapply column_at_col_keys.
    + eapply get_fold_set_lookup; [done| |done].
      unfold Dict.keys. by rewrite list_lookup_fmap, Hc.
  - intros i j t0 c_old c tk ck c' fr Hsrc Hcopy Hfr. apply elem_of_app.
    destruct (Hnew _ _ _ _ _ _ _ _ Hsrc Hcopy) as [(_ & H1 & H2)|(-> & Hid & Hc)].
    + left. by eapply (p1_deferred Hmaps).
    + right. by eapply deferred_refs_complete.
Qed.

Lemma pass1_run_maps tables w1 :
  Dict.wf tables →
  NoDup (col_keys tables) →
  NoDup (drawn_ids w1 (length (flat_ids tables))) →
  ∃ p, for_each tables copy_table_step (mkPass1 [] [] [] []) w1
       = Ok (p, skip_ids (length (flat_ids tables)) w1)
       ∧ pass1_inv w1 tables p (skip_ids (length (flat_ids tables)) w1)
       ∧ pass1_maps tables p.
Proof.
  intros Hwf Hck Hnd.
  destruct (for_each_invariant
              (λ done s w, pass1_inv w1 done s w ∧ pass1_maps done s)
              copy_table_step tables (mkPass1 [] [] [] []) w1)
    as (p & w' & Hrun & Hinv & Hmaps).
  - split; [apply pass1_inv_init|apply pass1_maps_init].
  - intros done [t_old t] rest s w Htables [Hinv Hmaps].
    destruct (pass1_inv_step w1 tables done t_old t rest s w Hwf Hnd Htables Hinv)
      as (s' & w' & Hrun & Hinv').
    exists s', w'. split; [done|]. split; [done|]. by eapply pass1_maps_step.
  - pose proof (p1_world Hinv) as Hw. subst w'. by exists p.
Qed.

Lemma column_at_same_keys ts ts' i j tk ck c :
  Forall2 same_keys ts ts' →
  column_at ts' i j = Some (tk, ck, c) →
  ∃ c0, column_at ts i j = Some (tk, ck, c0).
Proof.
  intros Hkeys (t' & Hi & Hj)%column_at_Some.
  destruct (Forall2_lookup_r _ _ _ _ _ Hkeys Hi) as ([tk0 t0] & Hi0 & Htk & Hck).
  simpl in Htk, Hck. subst tk0.
  destruct (keys_lookup (Table.columns t0) j ck) as [c0 Hc0].
  { rewrite Hck. unfold Dict.keys. by rewrite list_lookup_fmap, Hj. }
  exists c0. apply column_at_Some. by exists t0.
Qed.

Lemma column_at_get ts i j tk ck c :
  NoDup (flat_ids ts) →
  column_at ts i j = Some (tk, ck, c) →
  ∃ t, Dict.get ts tk = Some t ∧ Dict.get (Table.columns t) ck = Some c.
Proof.
  intros [Hnd_t Hnd_c]%flat_ids_NoDup (t & Hi & Hj)%column_at_Some.
  exists t. split.
  - apply DictFacts.elem_get; [done|]. apply list_elem_of_lookup. eauto.
  - apply DictFacts.elem_get; [|apply list_elem_of_lookup; eauto].
    rewrite Forall_forall in Hnd_c. apply (Hnd_c (tk, t)).
    apply list_elem_of_lookup. eauto.
Qed.

Lemma column_at_copied tmap src ts i j t_old c_old c :
  Forall2 (table_copied tmap) src ts →
  column_at src i j = Some (t_old, c_old, c) →
  ∃ tk ck c', column_at ts i j = Some (tk, ck, c')
              ∧ Dict.get tmap t_old = Some tk.
Proof.
  intros Hcopied (t & Hi & Hj)%column_at_Some.
  destruct (Forall2_lookup_l _ _ _ _ _ Hcopied Hi)
    as ([tk t'] & Hi' & Hget & _ & _ & _ & Hcols).
  destruct (Forall2_lookup_l _ _ _ _ _ Hcols Hj) as ([ck c'] & Hj' & _).
  exists tk, ck, c'. split; [|done]. apply column_at_Some. by exists t'.
Qed.

(** Two references deferred under the same keys are the same reference. *)
Lemma pending_functional w1 src_tables p w0 tk ck fr fr' :
  pass1_inv w1 src_tables p w0 →
  NoDup (flat_ids (new_tables p)) →
  (tk, ck, fr) ∈ pending_refs p → (tk, ck, fr') ∈ pending_refs p → fr = fr'.
Proof.
  intros Hp1 Hnd Hin Hin'.
  destruct (flat_ids_NoDup _ Hnd) as [Hnd_t Hnd_c].
  destruct (p1_pending Hp1 tk ck fr Hin)
    as (i & t_old & t & t' & j & c_old & c & c' & H1 & H2 & H3 & H4 & H5).
  destruct (p1_pending Hp1 tk ck fr' Hin')
    as (i2 & t_old2 & t2 & t2' & j2 & c_old2 & c2 & c2' & G1 & G2 & G3 & G4 & G5).
  destruct (NoDup_lookup_key _ _ _ _ _ _ Hnd_t H2 G2) as [<- <-].
  assert (NoDup (Dict.keys (Table.columns t'))) as Hnd_t'.
  { rewrite Forall_forall in Hnd_c. apply (Hnd_c (tk, t')).
    apply list_elem_of_lookup. eauto. }
  destruct (NoDup_lookup_key _ _ _ _ _ _ Hnd_t' H4 G4) as [<- _].
  congruence.
Qed.

Lemma pass2_mapped_step src_tables p w1 w0 done tk ck fr rest ts w ts' w' :
  pass1_inv w1 src_tables p w0 →
  NoDup (flat_ids (new_tables p)) →
  pending_refs p = done ++ (tk, ck, fr) :: rest →
  pass2_mapped p done ts →
  resolve_ref_step (table_id_map p) (col_id_map p) ts (tk, ck, fr) w = Ok (ts', w') →
  pass2_mapped p (done ++ [(tk, ck, fr)]) ts'.
Proof.
  intros Hp1 Hnd Hpending Hmapped. unfold resolve_ref_step.
  assert (Hold : ∀ e, e ∈ done → e ∈ pending_refs p).
  { intros e He. rewrite Hpending. apply elem_of_app. by left. }
  assert (Hnew : (tk, ck, fr) ∈ pending_refs p).
  { rewrite Hpending. apply elem_of_app. right. by left. }
  destruct (Dict.get (table_id_map p) (ForeignRef.table_id fr)) as [mt|] eqn:Hmt.
  2:{ intros [= <- _] tk' ck' fr' mt' mc' [Hin|[= -> -> ->]%list_elem_of_singleton]%elem_of_app;
        [by apply Hmapped|congruence]. }
  destruct (Dict.get (col_id_map p) (ForeignRef.column_id fr)) as [mc|] eqn:Hmc.
  2:{ intros [= <- _] tk' ck' fr' mt' mc' [Hin|[= -> -> ->]%list_elem_of_singleton]%elem_of_app;
        [by apply Hmapped|congruence]. }
  assert (truthy mt = true) as ->.
  { apply (drawn_ids_truthy w1 (length (flat_ids src_tables))).
    rewrite <- (p1_ids Hp1). apply keys_flat_ids. by eapply (p1_table_img Hp1). }
  assert (truthy mc = true) as ->.
  { apply (drawn_ids_truthy w1 (length (flat_ids src_tables))).
    rewrite <- (p1_ids Hp1). apply col_keys_flat_ids. by eapply (p1_col_img Hp1). }
  cbn [andb]. rewrite bind_unfold.
  destruct (Dict.get ts tk) as [t|] eqn:Ht; [|done]. cbn [or_abort mret M_ret].
  rewrite bind_unfold.
  destruct (Dict.get (Table.columns t) ck) as [c|] eqn:Hc; [|done].
  cbn [or_abort mret M_ret]. intros [= <- _].
  intros tk' ck' fr' mt' mc' [Hin|[= -> -> ->]%list_elem_of_singleton]%elem_of_app.
  - intros Hmt' Hmc'.
    destruct (Hmapped tk' ck' fr' mt' mc' Hin Hmt' Hmc') as (t0 & c0 & Ht0 & Hc0 & Hr0).
    destruct (decide (tk = tk')) as [<-|Hne_t].
    + rewrite Ht in Ht0. injection Ht0 as <-.
      destruct (decide (ck = ck')) as [<-|Hne_c].
      * eexists _, _. split; [apply DictFacts.get_set_eq|].
        cbn [Table.columns Table_with_columns].
        rewrite DictFacts.get_set_eq. split; [done|].
        cbn [Column.foreign_ref Column_with_foreign_ref].
        assert (fr' = fr) as -> by (eapply pending_functional; eauto).
        congruence.
      * eexists _, c0. split; [apply DictFacts.get_set_eq|].
        cbn [Table.columns Table_with_columns].
        rewrite DictFacts.get_set_ne by done. split; [exact Hc0|exact Hr0].
    + exists t0, c0. by rewrite DictFacts.get_set_ne.
  - intros Hmt' Hmc'. eexists _, _. split; [apply DictFacts.get_set_eq|].
    cbn [Table.columns Table_with_columns]. rewrite DictFacts.get_set_eq.
    split; [done|]. cbn [Column.foreign_ref Column_with_foreign_ref]. congruence.
Qed.

Lemma pass2_run_mapped src_tables p w1 w0 :
  pass1_inv w1 src_tables p w0 →
  NoDup (flat_ids (new_tables p)) →
  ∃ ts, for_each (pending_refs p)
          (resolve_ref_step (table_id_map p) (col_id_map p)) (new_tables p) w0
        = Ok (ts, w0)
        ∧ pass2_inv src_tables p w0 (pending_refs p) ts w0
        ∧ pass2_mapped p (pending_refs p) ts.
Proof.
  intros Hp1 Hnd.
  destruct (for_each_invariant
              (λ done ts w, pass2_inv src_tables p w0 done ts w
                            ∧ pass2_mapped p done ts)
              (resolve_ref_step (table_id_map p) (col_id_map p))
              (pending_refs p) (new_tables p) w0) as (ts & w' & Hrun & Hinv & Hmapped).
  - split; [by eapply pass2_inv_init|]. by intros tk ck fr mt mc ?%elem_of_nil.
  - intros done [[tk ck] fr] rest ts w Hpending [Hinv Hmapped].
    destruct (pass2_inv_step src_tables p w1 w0 done tk ck fr rest ts w
                Hp1 Hnd Hpending Hinv) as (ts' & w' & Hrun & Hinv').
    exists ts', w'. split; [done|]. split; [done|]. by eapply pass2_mapped_step.
  - pose proof (p2_world Hinv) as Hw. subst w'. by exists ts.
Qed.

(** The whole duplication, with the invariants of its first two passes. *)
Lemma duplicate_run_passes src w :
  db_wf src →
  NoDup (col_keys (Database.tables src)) →
  NoDup (drawn_ids w (draws_needed src)) →
  ∃ p ts ls,
    duplicate src w
    = Ok ((Database.mk (hex8 (uuid4_hi w (uuid4_calls w)))
             (Database.name src +:+ " (copy)") (Database.note src) ts ls [],
           table_id_map p, col_id_map p),
          skip_ids (draws_needed src) w)
    ∧ NoDup (flat_ids (new_tables p))
    ∧ pass1_maps (Database.tables src) p
    ∧ pass2_inv (Database.tables src) p
        (skip_ids (length (flat_ids (Database.tables src))) (skip_ids 1 w))
        (pending_refs p) ts
        (skip_ids (length (flat_ids (Database.tables src))) (skip_ids 1 w))
    ∧ pass2_mapped p (pending_refs p) ts.
Proof.
  intros (Hwf_t & Hwf_c & Hwf_l) Hck Hnd.
  set (a := length (flat_ids (Database.tables src))).
  set (b := length (Database.links src)).
  set (w1 := skip_ids 1 w).
  assert (Hdraw : drawn_ids w (draws_needed src)
                  = hex8 (uuid4_hi w (uuid4_calls w))
                    :: drawn_ids w1 a ++ drawn_ids (skip_ids a w1) b).
  { unfold draws_needed. fold a b. by rewrite drawn_ids_cons, drawn_ids_app. }
  rewrite Hdraw in Hnd.
  apply NoDup_cons in Hnd as [Hid Hnd].
  apply NoDup_app in Hnd as (Hnd_t & Hdisj & Hnd_l).
  destruct (pass1_run_maps (Database.tables src) w1 Hwf_t Hck Hnd_t)
    as (p & Hrun1 & Hp1 & Hmaps).
  fold a in Hrun1, Hp1.
  assert (Hnd1 : NoDup (flat_ids (new_tables p))) by by rewrite (p1_ids Hp1).
  destruct (pass2_run_mapped (Database.tables src) p w1 (skip_ids a w1) Hp1 Hnd1)
    as (ts & Hrun2 & Hp2 & Hmapped).
  eexists p, ts, _. split; [|done].
  unfold duplicate. rewrite bind_unfold, gen_id_run. fold w1.
  rewrite bind_unfold, Hrun1. rewrite bind_unfold, Hrun2.
  rewrite bind_unfold, remap_links_run; fold b.
  - rewrite app_nil_l. cbn [mret M_ret].
    unfold w1, draws_needed. fold a b. rewrite !skip_ids_skip.
    do 3 f_equal.
  - exact Hnd_l.
  - apply Forall_forall. intros ? _. apply not_elem_of_nil.
Qed.

(** When the column keys of the source are distinct throughout and the
    reference of a column names a table and a column of the source, the
    copy of that column refers to the copy of that table and the copy of
    that column, those at the same places in the duplicate, with the note
    of the reference kept. *)
Theorem duplicate_remaps_foreign_refs pin w db_id src :
  truthy pin = true →
  Dict.get (dbs (tenant w pin)) db_id = Some src →
  db_wf src →
  NoDup (col_keys (Database.tables src)) →
  NoDup (drawn_ids w (draws_needed src)) →
  ∃ copy w',
    duplicate_database (Some pin) db_id w = Ok (copy, w')
    ∧ ∀ i j t_old c_old c fr i1 t_ref i2 j2 t_ref2 c_ref,
        column_at (Database.tables src) i j = Some (t_old, c_old, c) →
        Column.foreign_ref c = Some fr →
        Database.tables src !! i1 = Some (ForeignRef.table_id fr, t_ref) →
        column_at (Database.tables src) i2 j2
        = Some (t_ref2, ForeignRef.column_id fr, c_ref) →
        ∃ tk ck c' tk1 t_ref' tk2 ck2 c_ref',
          column_at (Database.tables copy) i j = Some (tk, ck, c')
          ∧ Database.tables copy !! i1 = Some (tk1, t_ref')
          ∧ column_at (Database.tables copy) i2 j2 = Some (tk2, ck2, c_ref')
          ∧ Column.foreign_ref c'
            = Some (ForeignRef.mk tk1 ck2 (ForeignRef.note fr)).
Proof.
  intros Hpin Hdb Hwf Hck Hnd.
  destruct (duplicate_database_run pin w db_id src Hpin Hdb Hwf Hnd)
    as (copy & tmap & cmap & w' & Hdup & Hrun & _).
  destruct (duplicate_run_passes src w Hwf Hck Hnd)
    as (p & ts & ls & Hdup' & Hnd1 & Hmaps & Hp2 & Hmapped).
  rewrite Hdup' in Hdup. injection Hdup as <- _ _.
  exists (Database.mk (hex8 (uuid4_hi w (uuid4_calls w)))
            (Database.name src +:+ " (copy)") (Database.note src) ts ls []), w'.
  split; [done|]. cbn [Database.tables].
  intros i j t_old c_old c fr i1 t_ref i2 j2 t_ref2 c_ref Hsrc Hfr Hi1 Hsrc2.
  assert (Hnd2 : NoDup (flat_ids ts)).
  { by rewrite <- (same_keys_flat_ids _ _ (p2_keys Hp2)). }
  destruct (column_at_copied _ _ _ _ _ _ _ _ (p2_tables Hp2) Hsrc)
    as (tk & ck & c' & Hcopy & _).
  destruct (column_at_copied _ _ _ _ _ _ _ _ (p2_tables Hp2) Hsrc2)
    as (tk2 & ck2 & c_ref' & Hcopy2 & _).
  destruct (Forall2_lookup_l _ _ _ _ _ (p2_tables Hp2) Hi1)
    as ([tk1 t_ref'] & Hi1' & Hmt & _).
  simpl in Hmt.
  destruct (column_at_same_keys _ _ _ _ _ _ _ (p2_keys Hp2) Hcopy) as [c0 Hnew].
  destruct (column_at_same_keys _ _ _ _ _ _ _ (p2_keys Hp2) Hcopy2) as [c02 Hnew2].
  pose proof (p1_deferred Hmaps _ _ _ _ _ _ _ _ _ Hsrc Hnew Hfr) as Hpending.
  pose proof (p1_col_at Hmaps _ _ _ _ _ _ _ _ Hsrc2 Hnew2) as Hmc.
  destruct (Hmapped tk ck fr tk1 ck2 Hpending Hmt Hmc) as (t & c1 & Ht & Hc1 & Hr).
  destruct (column_at_get _ _ _ _ _ _ Hnd2 Hcopy) as (t' & Ht' & Hc').
  assert (t' = t) as -> by congruence. assert (c1 = c') as -> by congruence.
  by exists tk, ck, c', tk1, t_ref', tk2, ck2, c_ref'.
Qed.

Lemma duplicate_remaps_foreign_refs_witness :
  ∃ copy w',
    duplicate_database (Some "pin") "db1" ex_world = Ok (copy, w')
    ∧ ∀ i j t_old c_old c fr i1 t_ref i2 j2 t_ref2 c_ref,
        column_at (Database.tables ex_shop) i j = Some (t_old, c_old, c) →
        Column.foreign_ref c = Some fr →
        Database.tables ex_shop !! i1 = Some (ForeignRef.table_id fr, t_ref) →
        column_at (Database.tables ex_shop) i2 j2
        = Some (t_ref2, ForeignRef.column_id fr, c_ref) →
        ∃ tk ck c' tk1 t_ref' tk2 ck2 c_ref',
          column_at (Database.tables copy) i j = Some (tk, ck, c')
          ∧ Database.tables copy !! i1 = Some (tk1, t_ref')
          ∧ column_at (Database.tables copy) i2 j2 = Some (tk2, ck2, c_ref')
          ∧ Column.foreign_ref c'
            = Some (ForeignRef.mk tk1 ck2 (ForeignRef.note fr)).
Proof.
  assert (Hck : NoDup (col_keys (Database.tables ex_shop))) by compute_done.
  assert (Hnd : NoDup (drawn_ids ex_world (draws_needed ex_shop))) by compute_done.
  exact (duplicate_remaps_foreign_refs "pin" ex_world "db1" ex_shop
           eq_refl eq_refl ex_shop_wf Hck Hnd).
Defined.

Lemma duplicate_diagram src w copy tm cm w' :
  duplicate src w = Ok ((copy, tm, cm), w') → Database.diagram copy = [].
Proof. unfold duplicate. exec_cases. by intros [= <- _ _ _]. Qed.

Lemma remap_endpoint_unresolved w src copy tmap cmap ty id :
  duplicated w src copy tmap cmap →
  ¬ endpoint_resolves src ty id →
  remap_endpoint tmap cmap ty id = id.
Proof.
  intros Hdup Hres. unfold remap_endpoint.
  case_decide as Ht; [|case_decide as Hc; [|done]].
  - destruct (Dict.get tmap id) as [v|] eqn:Hget; [|done].
    destruct Hres. left. split; [done|]. apply (dup_table_dom Hdup). eauto.
  - destruct (Dict.get cmap id) as [v|] eqn:Hget; [|done].
    destruct Hres. right. split; [done|]. apply (dup_col_dom Hdup). eauto.
Qed.

(** What a duplicate keeps and what it does not.  The copy is named after
    the source with " (copy)" appended and keeps its note; its diagram is
    empty.  Place by place, a table keeps its name and note; a column keeps
    its name, datatype, flags, default and note, while its [order] is 0
    whatever it was in the source; a link keeps its types and its note, and
    an endpoint that names no entity of the source is copied as it is.
    Every copied entity carries the key it is stored under as its id. *)
Theorem duplicate_copies_fields pin w db_id src :
  truthy pin = true →
  Dict.get (dbs (tenant w pin)) db_id = Some src →
  db_wf src →
  NoDup (drawn_ids w (draws_needed src)) →
  ∃ copy w',
    duplicate_database (Some pin) db_id w = Ok (copy, w')
    ∧ Database.name copy = Database.name src +:+ " (copy)"
    ∧ Database.note copy = Database.note src
    ∧ Database.diagram copy = []
    ∧ (∀ i t_old t,
         Database.tables src !! i = Some (t_old, t) →
         ∃ tk t', Database.tables copy !! i = Some (tk, t')
                  ∧ Table.id t' = tk
                  ∧ Table.name t' = Table.name t
                  ∧ Table.note t' = Table.note t)
    ∧ (∀ i j t_old c_old c,
         column_at (Database.tables src) i j = Some (t_old, c_old, c) →
         ∃ tk ck c', column_at (Database.tables copy) i j = Some (tk, ck, c')
                     ∧ Column.id c' = ck
                     ∧ Column.name c' = Column.name c
                     ∧ Column.datatype c' = Column.datatype c
                     ∧ Column.is_primary c' = Column.is_primary c
                     ∧ Column.is_nullable c' = Column.is_nullable c
                     ∧ Column.default c' = Column.default c
                     ∧ Column.note c' = Column.note c
                     ∧ Column.order c' = 0%Z)
    ∧ (∀ i k l,
         Database.links src !! i = Some (k, l) →
         ∃ k' l', Database.links copy !! i = Some (k', l')
                  ∧ Link.id l' = k'
                  ∧ Link.from_type l' = Link.from_type l
                  ∧ Link.to_type l' = Link.to_type l
                  ∧ Link.note l' = Link.note l
                  ∧ ((¬ endpoint_resolves src (Link.from_type l) (Link.from_id l)) →
                     Link.from_id l' = Link.from_id l)
                  ∧ ((¬ endpoint_resolves src (Link.to_type l) (Link.to_id l)) →
                     Link.to_id l' = Link.to_id l)).
Proof.
  intros Hpin Hdb Hwf Hnd.
  destruct (duplicate_database_run pin w db_id src Hpin Hdb Hwf Hnd)
    as (copy & tmap & cmap & w' & Hdup_run & Hrun & Hdup & _).
  exists copy, w'. split; [done|].
  split; [apply (dup_name Hdup)|]. split; [apply (dup_note Hdup)|].
  split; [by eapply duplicate_diagram|]. split; [|split].
  - intros i t_old t Hi.
    destruct (Forall2_lookup_l _ _ _ _ _ (dup_tables Hdup) Hi)
      as ([tk t'] & Hi' & _ & Hid & Hname & Hnote & _).
    by exists tk, t'.
  - intros i j t_old c_old c (t & Hi & Hj)%column_at_Some.
    destruct (Forall2_lookup_l _ _ _ _ _ (dup_tables Hdup) Hi)
      as ([tk t'] & Hi' & _ & _ & _ & _ & Hcols).
    destruct (Forall2_lookup_l _ _ _ _ _ Hcols Hj) as ([ck c'] & Hj' & Hcopied).
    exists tk, ck, c'. split; [apply column_at_Some; by exists t'|].
    unfold column_copied, copy_column, Column_with_foreign_ref in Hcopied.
    simpl in Hcopied. by injection Hcopied.
  - intros i k l Hi.
    destruct (Forall2_lookup_l _ _ _ _ _ (dup_links Hdup) Hi)
      as ([k' l'] & Hi' & Hcopied).
    simpl in Hcopied. subst l'. exists k', (copy_link tmap cmap k' l).
    split; [done|]. cbn [copy_link Link.id Link.from_type Link.to_type Link.note
                          Link.from_id Link.to_id].
    repeat split; try done; by eapply remap_endpoint_unresolved.
Qed.

Lemma duplicate_copies_fields_witness :
  ∃ copy w',
    duplicate_database (Some "pin") "db1" ex_world = Ok (copy, w')
    ∧ Database.name copy = "Shop (copy)"
    ∧ Database.diagram copy = [].
Proof.
  assert (Hnd : NoDup (drawn_ids ex_world (draws_needed ex_shop))) by compute_done.
  destruct (duplicate_copies_fields "pin" ex_world "db1" ex_shop
              eq_refl eq_refl ex_shop_wf Hnd)
    as (copy & w' & Hrun & Hname & _ & Hdiagram & _).
  by exists copy, w'.
Defined.

(** ** The flow of the tests *)

Lemma mem_cons_eq {V} k (v : V) d : Dict.mem k ((k, v) :: d) = true.
Proof. apply DictFacts.mem_true. by left. Qed.

Lemma pop_cons_eq {V} k (v : V) d : Dict.pop ((k, v) :: d) k = Dict.pop d k.
Proof. unfold Dict.pop. by rewrite filter_cons_False by (simpl; auto). Qed.

Lemma pop_nil {V} k : Dict.pop ([] : dict V) k = [].
Proof. done. Qed.

Lemma link_ids_where_singleton (P : Link.t → Prop) `{∀ l, Decision (P l)} k l :
  P l → link_ids_where P [(k, l)] = [k].
Proof. intros HP. unfold link_ids_where. by rewrite filter_cons_True. Qed.

Ltac flow_step :=
  repeat first
    [ rewrite bind_unfold
    | progress unfold require_pin, get_pin, get_state_or_init, load_state,
        load_docs, load_shares, time_time, gen_id, save_state, save_docs,
        save_shares, or_abort, abort, mret, M_ret,
        Database_with_tables, Database_with_links, Table_with_columns
    | progress cbn [files shares_file uuid4_hi uuid4_calls now]
    | rewrite tenant_files
    | progress cbv beta iota zeta
    | rewrite tenant_insert
    | rewrite decide_True by done
    | rewrite DictFacts.get_set_eq
    | rewrite DictFacts2.set_set
    | rewrite insert_insert_eq
    | rewrite hex8_truthy
    | rewrite mem_cons_eq
    | rewrite pop_cons_eq
    | rewrite pop_nil
    | progress cbn [dbs doc_folders documents Database.tables Database.links
                    Database.id Database.name Database.note Database.diagram
                    Table.id Table.name Table.note Column.id Link.id Table.columns
                    ld_from_id ld_to_id ld_from_type ld_to_type ld_note
                    Dict.set Dict.get Dict.pop_all foldl andb] ].

(** The flow of [test_flow], with a plain PIN, from any state of the tenant
    and with any bodies: when the identifier drawn for the database is new
    to the tenant, every request is answered, the state fetched at the end
    is the state the tenant had before the flow, and so is its file. *)
Theorem test_flow_restores_state pin w db_name t_name column note :
  plain_pin pin = true →
  truthy pin = true →
  hex8 (uuid4_hi w (uuid4_calls w)) ∉ Dict.keys (dbs (tenant w pin)) →
  ∃ w', test_flow (Some pin) db_name t_name column note w
        = Ok (dbs (tenant w pin), w')
        ∧ tenant w' pin = tenant w pin
        ∧ shares_file w' = shares_file w.
Proof.
  intros _ Hpin Hfresh. unfold test_flow.
  unfold create_database. flow_step. rewrite Hpin. flow_step.
  unfold create_table. flow_step. rewrite Hpin. flow_step.
  unfold create_column. flow_step. rewrite Hpin. flow_step.
  unfold create_link. flow_step. rewrite Hpin. flow_step.
  unfold delete_column. flow_step. rewrite Hpin. flow_step.
  rewrite link_ids_where_singleton by (left; by split). flow_step.
  unfold delete_table. flow_step. rewrite Hpin. flow_step.
  unfold link_ids_where. rewrite !filter_nil. flow_step.
  unfold delete_database. flow_step. rewrite Hpin. flow_step.
  replace (Dict.mem _ _) with true
    by (symmetry; apply DictFacts.mem_get; rewrite DictFacts.get_set_eq; eauto).
  flow_step. rewrite DictFacts2.pop_set_fresh by done.
  unfold get_state. flow_step. rewrite Hpin. flow_step.
  eexists. split; [reflexivity|]. flow_step. split; [|done].
  apply tenant_eta.
Qed.

Lemma test_flow_restores_state_witness :
  ∃ w', test_flow (Some "testpin") (Some "MyDB") (Some "Users")
          (mkColumnData (Some "id") (Some "INT") (Some true) (Some false) None None None)
          (Some "fk-like") ex_empty_world
        = Ok ([], w')
        ∧ tenant w' "testpin" = tenant ex_empty_world "testpin"
        ∧ shares_file w' = shares_file ex_empty_world.
Proof.
  assert (Hfresh : hex8 (uuid4_hi ex_empty_world (uuid4_calls ex_empty_world))
                   ∉ Dict.keys (dbs (tenant ex_empty_world "testpin")))
    by compute_done.
  exact (test_flow_restores_state "testpin" ex_empty_world (Some "MyDB") (Some "Users")
           (mkColumnData (Some "id") (Some "INT") (Some true) (Some false) None None None)
           (Some "fk-like") eq_refl eq_refl Hfresh).
Defined.

(** ** Shares *)

(** With a plain PIN, sharing an entity that is there answers with the
    identifier drawn as token, and the token opens the entity at once: the
    document for [shared_doc], the folder for [shared_folder], editable
    exactly when the cookie is the PIN of the owner.  Sharing what is not
    there aborts with 404. *)
Theorem share_then_open pin w :
  plain_pin pin = true →
  truthy pin = true →
  let token := hex8 (uuid4_hi w (uuid4_calls w)) in
  (∀ doc_id,
     match Dict.get (documents (tenant w pin)) doc_id with
     | Some d =>
         ∃ w1, api_share_doc (Some pin) doc_id w = Ok (token, w1)
               ∧ Dict.get (shares_file w1) token
                 = Some (DocShare.mk token pin "doc" doc_id (now w))
               ∧ ∀ cookie, shared_doc cookie token w1
                           = Ok ((d, bool_decide (cookie = Some pin)), w1)
     | None => api_share_doc (Some pin) doc_id w = Abort NotFound
     end)
  ∧ (∀ fid,
       match Dict.get (doc_folders (tenant w pin)) fid with
       | Some f =>
           ∃ w1, api_share_folder (Some pin) fid w = Ok (token, w1)
                 ∧ Dict.get (shares_file w1) token
                   = Some (DocShare.mk token pin "folder" fid (now w))
                 ∧ ∀ cookie, shared_folder cookie token w1
                             = Ok ((DocFolder.id f, bool_decide (cookie = Some pin)), w1)
       | None => api_share_folder (Some pin) fid w = Abort NotFound
       end).
Proof.
  intros _ Hpin token. split.
  - intros doc_id. unfold api_share_doc. run_handler.
    destruct (Dict.get (documents (tenant w pin)) doc_id) as [d|] eqn:Hd.
    + replace (Dict.mem _ _) with true
        by (symmetry; apply DictFacts.mem_get; eauto).
      cbn [negb]. run_handler. unfold gen_id at 1. run_handler.
      unfold save_shares. eexists. split; [reflexivity|].
      cbn [shares_file]. split; [apply DictFacts.get_set_eq|].
      intros cookie. unfold shared_doc.
      rewrite bind_unfold.
      erewrite shared_context_known by (cbn [shares_file]; apply DictFacts.get_set_eq).
      cbn [DocShare.kind DocShare.pin DocShare.target_id files now].
      rewrite tenant_files.
      rewrite bool_decide_eq_true_2 by done. cbn [negb]. rewrite bind_unfold, Hd.
      done.
    + replace (Dict.mem _ _) with false; [done|].
      symmetry. apply not_true_iff_false. rewrite DictFacts.mem_get, Hd.
      by intros [? ?].
  - intros fid. unfold api_share_folder. run_handler.
    destruct (Dict.get (doc_folders (tenant w pin)) fid) as [f|] eqn:Hf.
    + replace (Dict.mem _ _) with true
        by (symmetry; apply DictFacts.mem_get; eauto).
      cbn [negb]. run_handler. unfold gen_id at 1. run_handler.
      unfold save_shares. eexists. split; [reflexivity|].
      cbn [shares_file]. split; [apply DictFacts.get_set_eq|].
      intros cookie. unfold shared_folder.
      rewrite bind_unfold.
      erewrite shared_context_known by (cbn [shares_file]; apply DictFacts.get_set_eq).
      cbn [DocShare.kind DocShare.pin DocShare.target_id files now].
      rewrite tenant_files.
      rewrite bool_decide_eq_true_2 by done. cbn [negb]. rewrite bind_unfold, Hf.
      done.
    + replace (Dict.mem _ _) with false; [done|].
      symmetry. apply not_true_iff_false. rewrite DictFacts.mem_get, Hf.
      by intros [? ?].
Qed.

Lemma share_then_open_witness :
  ∃ w1, api_share_doc (Some "pin") "d2" ex_docs_world = Ok ("00000001", w1)
        ∧ shared_doc None "00000001" w1
          = Ok ((Document.mk "d2" "Doc2" (Some "fc") "" [] 0%Z, false), w1).
Proof.
  pose proof (share_then_open "pin" ex_docs_world eq_refl eq_refl) as [H _].
  destruct (H "d2") as (w1 & Hrun & _ & Hopen).
  exists w1. split; [exact Hrun|]. apply (Hopen None).
Defined.

(** The routes of a share check its kind first: a token of another kind is
    answered with 404, whatever it points to.  The resolver alone does not
    abort. *)
Theorem share_kind_gates fuel w token s cookie :
  Dict.get (shares_file w) token = Some s →
  (DocShare.kind s ≠ "doc" → shared_doc cookie token w = Abort NotFound)
  ∧ (DocShare.kind s ≠ "folder" →
       shared_folder cookie token w = Abort NotFound
       ∧ api_shared_docs_state fuel token w = Abort NotFound
       ∧ ∀ id, shared_folder_doc fuel cookie token id w = Abort NotFound
               ∧ shared_folder_sub fuel cookie token id w = Abort NotFound)
  ∧ (DocShare.kind s ≠ "doc" → DocShare.kind s ≠ "folder" →
       ∀ doc_id,
         (∀ data, api_shared_add_note fuel token doc_id data w = Abort NotFound)
         ∧ (∀ d, Dict.get (documents (tenant w (DocShare.pin s))) doc_id = Some d →
                 api_shared_resolve_doc fuel token doc_id w = Ok ((false, None), w))).
Proof.
  intros Hget. split; [|split].
  - intros Hk. unfold shared_doc.
    rewrite bind_unfold, (shared_context_known _ _ _ Hget).
    by rewrite bool_decide_eq_false_2.
  - intros Hk. split; [|split; [|intros id; split]].
    all: unfold shared_folder, api_shared_docs_state, shared_folder_doc,
           shared_folder_sub.
    all: rewrite bind_unfold, (shared_context_known _ _ _ Hget).
    all: by rewrite bool_decide_eq_false_2.
  - intros Hd Hf doc_id. split.
    + intros data. unfold api_shared_add_note.
      rewrite bind_unfold, (shared_context_known _ _ _ Hget).
      by rewrite !bool_decide_eq_false_2.
    + intros d Hdoc. unfold api_shared_resolve_doc.
      rewrite bind_unfold, (shared_context_known _ _ _ Hget).
      rewrite bind_unfold, Hdoc. cbn [or_abort mret M_ret].
      rewrite (bool_decide_eq_false_2 _ Hf), (bool_decide_eq_false_2 _ Hd). done.
Qed.

Lemma share_kind_gates_witness :
  shared_doc None "sa" ex_docs_world = Abort NotFound
  ∧ shared_folder None "sd" ex_docs_world = Abort NotFound.
Proof.
  pose proof (share_kind_gates 5 ex_docs_world "sa"
                (DocShare.mk "sa" "pin" "folder" "fa" 0%Z) None eq_refl) as [H1 _].
  pose proof (share_kind_gates 5 ex_docs_world "sd"
                (DocShare.mk "sd" "pin" "doc" "d1" 0%Z) None eq_refl) as [_ [H2 _]].
  split; [by apply H1|by apply H2].
Defined.

(** Through a folder share, a folder opens exactly when it is the root or
    following [parent_id] from it reaches the root, whether or not it is a
    folder of the tree, and is refused with 403 otherwise; a document that
    lies in such a folder opens.  What opens is editable exactly when the
    cookie is the PIN of the owner. *)
Theorem shared_folder_scope fuel w token s cookie :
  Dict.get (shares_file w) token = Some s →
  DocShare.kind s = "folder" →
  Dict.wf (doc_folders (tenant w (DocShare.pin s))) →
  length (doc_folders (tenant w (DocShare.pin s))) + 2 ≤ fuel →
  let folders := doc_folders (tenant w (DocShare.pin s)) in
  let root := DocShare.target_id s in
  (∀ folder_id,
     (rtc (parent_step folders) folder_id root →
        shared_folder_sub fuel cookie token folder_id w
        = Ok ((folder_id, bool_decide (cookie = Some (DocShare.pin s))), w))
     ∧ (¬ rtc (parent_step folders) folder_id root →
        shared_folder_sub fuel cookie token folder_id w = Abort Forbidden))
  ∧ (∀ doc_id d,
       Dict.get (documents (tenant w (DocShare.pin s))) doc_id = Some d →
       within_share folders root d →
       shared_folder_doc fuel cookie token doc_id w
       = Ok ((d, bool_decide (cookie = Some (DocShare.pin s))), w)).
Proof.
  intros Hget Hk Hwf Hfuel folders root.
  destruct (resolve_subtree_run fuel folders root w Hwf Hfuel)
    as (subtree & Hsub & Hiff).
  split.
  - intros folder_id.
    assert (shared_folder_sub fuel cookie token folder_id w
            = if bool_decide (folder_id ∈ subtree)
              then Ok ((folder_id, bool_decide (cookie = Some (DocShare.pin s))), w)
              else Abort Forbidden) as ->.
    { unfold shared_folder_sub.
      rewrite bind_unfold, (shared_context_known _ _ _ Hget).
      rewrite (bool_decide_eq_true_2 _ Hk). cbn [negb].
      rewrite bind_unfold. fold folders root. rewrite Hsub.
      case_bool_decide as Hin; [done|]. cbn [negb andb].
      case_bool_decide as Hroot; [|done]. subst folder_id.
      destruct Hin. by apply Hiff. }
    case_bool_decide as Hin; rewrite Hiff in Hin; by split.
  - intros doc_id d Hdoc Hwithin. unfold shared_folder_doc.
    rewrite bind_unfold, (shared_context_known _ _ _ Hget).
    rewrite (bool_decide_eq_true_2 _ Hk). cbn [negb].
    rewrite bind_unfold, Hdoc. cbn [or_abort mret M_ret].
    rewrite bind_unfold. fold folders root. rewrite Hsub.
    apply (in_scope_within folders root subtree d Hiff) in Hwithin.
    apply orb_true_iff in Hwithin as [-> | ->]; [done|].
    by rewrite andb_false_r.
Qed.

Lemma shared_folder_scope_witness :
  (∀ folder_id,
     (rtc (parent_step ex_folders) folder_id "fa" →
        shared_folder_sub 5 None "sa" folder_id ex_docs_world
        = Ok ((folder_id, false), ex_docs_world))
     ∧ (¬ rtc (parent_step ex_folders) folder_id "fa" →
        shared_folder_sub 5 None "sa" folder_id ex_docs_world = Abort Forbidden))
  ∧ (∀ doc_id d,
       Dict.get ex_documents doc_id = Some d →
       within_share ex_folders "fa" d →
       shared_folder_doc 5 None "sa" doc_id ex_docs_world
       = Ok ((d, false), ex_docs_world)).
Proof.
  assert (Hwf : Dict.wf ex_folders) by compute_done.
  assert (Hfuel : length ex_folders + 2 ≤ 5) by (simpl; lia).
  exact (shared_folder_scope 5 ex_docs_world "sa"
           (DocShare.mk "sa" "pin" "folder" "fa" 0%Z) None eq_refl eq_refl Hwf Hfuel).
Defined.

(** The listing of a folder share shows the shared tree and nothing beyond
    it: the folders listed are the folders of the owner that are the root
    or reach it, the documents listed are those whose parent is such a
    folder, each with the fields of the owner's own listing. *)
Theorem shared_docs_state_scope fuel w token s :
  Dict.get (shares_file w) token = Some s →
  DocShare.kind s = "folder" →
  Dict.wf (doc_folders (tenant w (DocShare.pin s))) →
  length (doc_folders (tenant w (DocShare.pin s))) + 2 ≤ fuel →
  let folders := doc_folders (tenant w (DocShare.pin s)) in
  let docs := documents (tenant w (DocShare.pin s)) in
  let root := DocShare.target_id s in
  ∃ mf md,
    api_shared_docs_state fuel token w = Ok ((mf, md, root), w)
    ∧ (∀ fid e,
         (fid, e) ∈ mf
         ↔ ∃ f, Dict.get folders fid = Some f
                ∧ rtc (parent_step folders) fid root
                ∧ e = mkFolderEntry (DocFolder.id f) (DocFolder.name f)
                        (DocFolder.parent_id f))
    ∧ (∀ did e,
         (did, e) ∈ md
         ↔ ∃ d, (did, d) ∈ docs
                ∧ within_share folders root d
                ∧ e = mkDocEntry (Document.id d) (Document.name d)
                        (Document.parent_id d) (Document.updated_at d)).
Proof.
  intros Hget Hk Hwf Hfuel folders docs root.
  destruct (resolve_subtree_run fuel folders root w Hwf Hfuel)
    as (subtree & Hsub & Hiff).
  eexists _, _. split; [|split].
  - unfold api_shared_docs_state.
    rewrite bind_unfold, (shared_context_known _ _ _ Hget).
    rewrite (bool_decide_eq_true_2 _ Hk). cbn [negb].
    rewrite bind_unfold. fold folders root docs. rewrite Hsub. reflexivity.
  - intros fid e. rewrite list_elem_of_omap. split.
    + intros (x & Hx%elem_of_elements & Hf).
      destruct (Dict.get folders x) as [f|] eqn:Hgetf; [|done].
      injection Hf as <- <-. exists f. split; [done|]. split; [|done].
      by apply Hiff.
    + intros (f & Hgetf & Hreach & ->). exists fid.
      split; [by apply elem_of_elements, Hiff|]. by rewrite Hgetf.
  - intros did e. rewrite list_elem_of_fmap. split.
    + intros ([k d] & [= -> ->] & [Hscope Hin]%list_elem_of_filter).
      exists d. split; [done|]. split; [|done].
      apply (in_scope_within folders root subtree d Hiff).
      by apply Is_true_true.
    + intros (d & Hin & Hwithin & ->). exists (did, d). split; [done|].
      apply list_elem_of_filter. split; [|done].
      apply Is_true_true. by apply (in_scope_within folders root subtree d Hiff).
Qed.

Lemma shared_docs_state_scope_witness :
  ∃ mf md,
    api_shared_docs_state 5 "sa" ex_docs_world = Ok ((mf, md, "fa"), ex_docs_world)
    ∧ (∀ did e,
         (did, e) ∈ md
         ↔ ∃ d, (did, d) ∈ ex_documents
                ∧ within_share ex_folders "fa" d
                ∧ e = mkDocEntry (Document.id d) (Document.name d)
                        (Document.parent_id d) (Document.updated_at d)).
Proof.
  assert (Hwf : Dict.wf ex_folders) by compute_done.
  assert (Hfuel : length ex_folders + 2 ≤ 5) by (simpl; lia).
  destruct (shared_docs_state_scope 5 ex_docs_world "sa"
              (DocShare.mk "sa" "pin" "folder" "fa" 0%Z) eq_refl eq_refl Hwf Hfuel)
    as (mf & md & Hrun & _ & Hmd).
  by exists mf, md.
Defined.

(** The note route of a share of one document does not look at which
    document the share is for: with the token of a 'doc' share of a plain
    PIN a note of ASCII text is stored in any document of the owner, also
    in one for which the resolver answers that it is not allowed.  The note
    is stored under the identifier drawn and the document is not marked as
    updated. *)
Theorem shared_add_note_any_document fuel w token s doc_id d data start_line end_line :
  Dict.get (shares_file w) token = Some s →
  plain_pin (DocShare.pin s) = true →
  DocShare.kind s = "doc" →
  Dict.get (documents (tenant w (DocShare.pin s))) doc_id = Some d →
  parse_lines data = Some (start_line, end_line) →
  is_ascii (str_or (nd_text data) "") = true →
  is_ascii (str_or (nd_author data) "") = true →
  strip (str_or (nd_text data) "") ≠ "" →
  let n := DocNote.mk (hex8 (uuid4_hi w (uuid4_calls w))) start_line end_line
             (strip (str_or (nd_text data) "")) (strip (str_or (nd_author data) ""))
             (now w) in
  ∃ w',
    api_shared_add_note fuel token doc_id data w = Ok (n, w')
    ∧ Dict.get (documents (tenant w' (DocShare.pin s))) doc_id
      = Some (Document.mk (Document.id d) (Document.name d) (Document.parent_id d)
                (Document.content d)
                (Dict.set (Document.notes d) (DocNote.id n) n)
                (Document.updated_at d))
    ∧ (doc_id ≠ DocShare.target_id s →
       api_shared_resolve_doc fuel token doc_id w = Ok ((false, None), w)).
Proof.
  intros Hget _ Hk Hdoc Hlines _ _ Htext n.
  assert (Hnf : DocShare.kind s ≠ "folder") by (rewrite Hk; done).
  eexists. split; [|split].
  - unfold api_shared_add_note.
    rewrite bind_unfold, (shared_context_known _ _ _ Hget).
    rewrite (bool_decide_eq_true_2 _ Hk). cbn [orb negb].
    rewrite bind_unfold, Hdoc. cbn [or_abort mret M_ret].
    rewrite (bool_decide_eq_false_2 _ Hnf).
    exec. rewrite Hlines. exec.
    replace (truthy (strip (str_or (nd_text data) ""))) with true
      by (symmetry; by apply bool_decide_eq_true).
    cbn [negb]. exec. reflexivity.
  - rewrite tenant_insert, decide_True by done. cbn [documents].
    by rewrite DictFacts.get_set_eq.
  - intros Hne. unfold api_shared_resolve_doc.
    rewrite bind_unfold, (shared_context_known _ _ _ Hget).
    rewrite bind_unfold, Hdoc. cbn [or_abort mret M_ret].
    rewrite (bool_decide_eq_false_2 _ Hnf), (bool_decide_eq_true_2 _ Hk).
    by rewrite bool_decide_eq_false_2.
Qed.

Lemma shared_add_note_any_document_witness :
  ∃ w',
    api_shared_add_note 5 "sd" "d2" ex_note ex_docs_world
    = Ok (DocNote.mk "00000001" 1%Z 1%Z "hi" "" 0%Z, w')
    ∧ api_shared_resolve_doc 5 "sd" "d2" ex_docs_world = Ok ((false, None), ex_docs_world).
Proof.
  assert (Htext : strip (str_or (nd_text ex_note) "") ≠ "") by compute_done.
  destruct (shared_add_note_any_document 5 ex_docs_world "sd"
              (DocShare.mk "sd" "pin" "doc" "d1" 0%Z) "d2"
              (Document.mk "d2" "Doc2" (Some "fc") "" [] 0%Z) ex_note 1%Z 1%Z
              eq_refl eq_refl eq_refl eq_refl eq_refl eq_refl eq_refl Htext)
    as (w' & Hrun & _ & Hres).
  exists w'. split; [exact Hrun|]. by apply Hres.
Defined.

(** ** Tenants *)

Global Instance other_files_preorder pin : PreOrder (other_files pin).
Proof.
  split.
  - by intros w pin' _ _.
  - intros w1 w2 w3 H1 H2 pin' Hp Hne. by rewrite H2, H1.
Qed.

Lemma keeps_require_pin_bind (R : relation World) `{!PreOrder R} {B}
    cookie (f : string → M B) :
  (∀ pin, cookie = Some pin → keeps R (f pin)) → keeps R (require_pin cookie ≫= f).
Proof.
  intros Hf w b w'. rewrite bind_unfold. unfold require_pin, get_pin.
  destruct cookie as [pin|]; [|done]. destruct (truthy pin); [|done].
  by apply Hf.
Qed.

Lemma keeps_others_gen_id pin : keeps (other_files pin) gen_id.
Proof. by intros w a w' [= _ <-] pin' _ _. Qed.

Lemma keeps_others_save_state pin ds : keeps (other_files pin) (save_state pin ds).
Proof. intros w [] w' [= <-] pin' _ Hne. simpl. by rewrite lookup_insert_ne. Qed.

Lemma keeps_others_save_docs pin fs ds : keeps (other_files pin) (save_docs pin fs ds).
Proof. intros w [] w' [= <-] pin' _ Hne. simpl. by rewrite lookup_insert_ne. Qed.

Lemma keeps_others_save_shares pin shares :
  keeps (other_files pin) (save_shares shares).
Proof. by intros w [] w' [= <-] pin' _ _. Qed.

#[global] Hint Resolve keeps_others_gen_id keeps_others_save_state
  keeps_others_save_docs keeps_others_save_shares : keeps.

Ltac keeps_pin :=
  apply keeps_require_pin_bind; [apply _|];
  let pin' := fresh "pin" in
  let E := fresh "E" in
  intros pin' E; injection E as <-; keeps_auto.

(** A request with a plain PIN as cookie changes the file of no other plain
    PIN, whatever the handler; and a note added through a share of a plain
    PIN is written to the file of the owner of the share and to that of no
    other plain PIN. *)
Theorem tenant_isolation pin :
  plain_pin pin = true →
  (∀ name, keeps (other_files pin) (create_database (Some pin) name))
  ∧ (∀ db_id, keeps (other_files pin) (delete_database (Some pin) db_id))
  ∧ (∀ db_id data, keeps (other_files pin) (update_database (Some pin) db_id data))
  ∧ (∀ db_id, keeps (other_files pin) (duplicate_database (Some pin) db_id))
  ∧ (∀ db_id name, keeps (other_files pin) (create_table (Some pin) db_id name))
  ∧ (∀ db_id t_id, keeps (other_files pin) (delete_table (Some pin) db_id t_id))
  ∧ (∀ db_id t_id data,
       keeps (other_files pin) (update_table (Some pin) db_id t_id data))
  ∧ (∀ db_id t_id data,
       keeps (other_files pin) (create_column (Some pin) db_id t_id data))
  ∧ (∀ db_id t_id c_id,
       keeps (other_files pin) (delete_column (Some pin) db_id t_id c_id))
  ∧ (∀ db_id t_id c_id data,
       keeps (other_files pin) (update_column (Some pin) db_id t_id c_id data))
  ∧ (∀ db_id data, keeps (other_files pin) (create_link (Some pin) db_id data))
  ∧ (∀ db_id l_id note,
       keeps (other_files pin) (update_link (Some pin) db_id l_id note))
  ∧ (∀ db_id l_id, keeps (other_files pin) (delete_link (Some pin) db_id l_id))
  ∧ (∀ data, keeps (other_files pin) (api_create_folder (Some pin) data))
  ∧ (∀ fid data, keeps (other_files pin) (api_update_folder (Some pin) fid data))
  ∧ (∀ fid, keeps (other_files pin) (api_delete_folder (Some pin) fid))
  ∧ (∀ data, keeps (other_files pin) (api_create_doc (Some pin) data))
  ∧ (∀ doc_id data, keeps (other_files pin) (api_update_doc (Some pin) doc_id data))
  ∧ (∀ doc_id, keeps (other_files pin) (api_delete_doc (Some pin) doc_id))
  ∧ (∀ doc_id data, keeps (other_files pin) (api_add_note (Some pin) doc_id data))
  ∧ (∀ doc_id nid, keeps (other_files pin) (api_delete_note (Some pin) doc_id nid))
  ∧ (∀ doc_id, keeps (other_files pin) (api_share_doc (Some pin) doc_id))
  ∧ (∀ fid, keeps (other_files pin) (api_share_folder (Some pin) fid))
  ∧ (∀ fuel token doc_id data w s n w',
       Dict.get (shares_file w) token = Some s →
       DocShare.pin s = pin →
       api_shared_add_note fuel token doc_id data w = Ok (n, w') →
       other_files pin w w').
Proof.
  intros _. repeat apply conj; intros.
  1-23: unfold create_database, delete_database, update_database, duplicate_database,
      duplicate, create_table, delete_table, update_table, create_column,
      delete_column, update_column, create_link, update_link, delete_link,
      copy_table_step, copy_column_step, resolve_ref_step, remap_link_step,
      api_create_folder, api_update_folder, api_delete_folder, api_create_doc,
      api_update_doc, api_delete_doc, api_add_note, api_delete_note,
      api_share_doc, api_share_folder; keeps_pin.
  subst pin. revert H1. unfold api_shared_add_note, _shared_context, resolve_subtree.
  exec. rewrite H. exec_cases.
  all: intros [= _ <-] pin' _ Hne; cbn [files]; by rewrite lookup_insert_ne.
Qed.

Lemma tenant_isolation_witness :
  ∃ db w', create_database (Some "pin") (Some "Shop") ex_world = Ok (db, w')
           ∧ other_files "pin" ex_world w'.
Proof.
  destruct (create_database (Some "pin") (Some "Shop") ex_world)
    as [[db w']| |] eqn:E; [|by vm_compute in E..].
  exists db, w'. split; [reflexivity|].
  exact (proj1 (tenant_isolation "pin" eq_refl) (Some "Shop") ex_world db w' E).
Defined.

(** ** Documents and notes *)

(** The line of a note as the handlers read it. *)
Lemma parse_lines_spec data :
  parse_lines data
  = match nd_start_line data, nd_end_line data with
    | IntBad, _ | _, IntBad => None
    | start, stop =>
        let s := match start with IntOk z => z | _ => 1%Z end in
        Some (s, match stop with IntOk e => e | _ => s end)
    end.
Proof. unfold parse_lines. by destruct (nd_start_line data), (nd_end_line data). Qed.

(** For a plain PIN and a text and an author of ASCII characters,
    [api_add_note] refuses with 400 a line number that is not an integer
    and a text that is empty once stripped, and nothing else: the first
    line defaults to 1 and the last line to the first, and any two integers
    are taken as they are, also a last line before the first or a line the
    document does not have.  The note is stored stripped under the
    identifier drawn, the document is stamped with the time of the request
    and is otherwise as it was. *)
Theorem add_note_validation pin w doc_id d data :
  plain_pin pin = true →
  truthy pin = true →
  Dict.get (documents (tenant w pin)) doc_id = Some d →
  is_ascii (str_or (nd_text data) "") = true →
  is_ascii (str_or (nd_author data) "") = true →
  let text := strip (str_or (nd_text data) "") in
  let first := match nd_start_line data with IntOk z => z | _ => 1%Z end in
  let last := match nd_end_line data with IntOk e => e | _ => first end in
  let n := DocNote.mk (hex8 (uuid4_hi w (uuid4_calls w))) first last text
             (strip (str_or (nd_author data) "")) (now w) in
  (nd_start_line data = IntBad ∨ nd_end_line data = IntBad ∨ text = "" →
     api_add_note (Some pin) doc_id data w = Abort InvalidInput)
  ∧ (nd_start_line data ≠ IntBad → nd_end_line data ≠ IntBad → text ≠ "" →
     ∃ w', api_add_note (Some pin) doc_id data w = Ok (n, w')
           ∧ documents (tenant w' pin)
             = Dict.set (documents (tenant w pin)) doc_id
                 (Document.mk (Document.id d) (Document.name d)
                    (Document.parent_id d) (Document.content d)
                    (Dict.set (Document.notes d) (DocNote.id n) n) (now w))
           ∧ doc_folders (tenant w' pin) = doc_folders (tenant w pin)).
Proof.
  intros _ Hpin Hd _ _ text first last n.
  unfold api_add_note. run_handler. rewrite Hd. run_handler.
  rewrite parse_lines_spec. fold text. split.
  - intros Hbad. unfold truthy.
    destruct (nd_start_line data) eqn:Hs, (nd_end_line data) eqn:He; try done.
    all: cbn [or_abort mret M_ret]; run_handler.
    all: destruct Hbad as [?|[?| ->]]; done.
  - intros Hs He Htext.
    replace (truthy text) with true by (symmetry; by apply bool_decide_eq_true).
    subst n first last.
    destruct (nd_start_line data), (nd_end_line data); try done.
    all: cbn [or_abort mret M_ret negb]; run_handler; unfold gen_id at 1;
      run_handler; unfold save_docs.
    all: eexists; split; [reflexivity|].
    all: by rewrite tenant_insert, decide_True.
Qed.

Lemma add_note_validation_witness :
  api_add_note (Some "pin") "d1" (mkNoteData IntBad IntAbsent (Some "hi") None)
    ex_docs_world = Abort InvalidInput
  ∧ ∃ w', api_add_note (Some "pin") "d1" (mkNoteData (IntOk 7) (IntOk 2) (Some " hi ") None)
            ex_docs_world
          = Ok (DocNote.mk "00000001" 7%Z 2%Z "hi" "" 0%Z, w').
Proof.
  split.
  - apply (add_note_validation "pin" ex_docs_world "d1"
             (Document.mk "d1" "Doc1" (Some "fb") "" [] 0%Z)
             (mkNoteData IntBad IntAbsent (Some "hi") None)
             eq_refl eq_refl eq_refl eq_refl eq_refl).
    by left.
  - destruct (add_note_validation "pin" ex_docs_world "d1"
                (Document.mk "d1" "Doc1" (Some "fb") "" [] 0%Z)
                (mkNoteData (IntOk 7) (IntOk 2) (Some " hi ") None)
                eq_refl eq_refl eq_refl eq_refl eq_refl)
      as [_ H].
    destruct H as (w' & Hrun & _); [done|done|compute_done|].
    by exists w'.
Defined.

Lemma hex8_nonempty v : hex8 v ≠ "".
Proof. done. Qed.

(** What is created can be deleted at once, and the store is then as it
    was.  For a folder this rests on the invariant of the tree: the
    deletion guard finds no child, since no parent named in a well-formed
    tree is the identifier just drawn.  For a note, the document keeps the
    time stamp of the requests. *)
Theorem docs_create_delete_roundtrip pin w :
  truthy pin = true →
  let id := hex8 (uuid4_hi w (uuid4_calls w)) in
  (docs_ok (tenant w pin) →
   id ∉ Dict.keys (doc_folders (tenant w pin)) →
   ∀ data f w1,
     api_create_folder (Some pin) data w = Ok (f, w1) →
     ∃ w2, api_delete_folder (Some pin) (DocFolder.id f) w1 = Ok (tt, w2)
           ∧ doc_folders (tenant w2 pin) = doc_folders (tenant w pin)
           ∧ documents (tenant w2 pin) = documents (tenant w pin))
  ∧ (id ∉ Dict.keys (documents (tenant w pin)) →
     ∀ data d w1,
       api_create_doc (Some pin) data w = Ok (d, w1) →
       ∃ w2, api_delete_doc (Some pin) (Document.id d) w1 = Ok (tt, w2)
             ∧ doc_folders (tenant w2 pin) = doc_folders (tenant w pin)
             ∧ documents (tenant w2 pin) = documents (tenant w pin))
  ∧ (∀ doc_id d data n w1,
       Dict.get (documents (tenant w pin)) doc_id = Some d →
       id ∉ Dict.keys (Document.notes d) →
       api_add_note (Some pin) doc_id data w = Ok (n, w1) →
       ∃ w2, api_delete_note (Some pin) doc_id (DocNote.id n) w1 = Ok (tt, w2)
             ∧ doc_folders (tenant w2 pin) = doc_folders (tenant w pin)
             ∧ documents (tenant w2 pin)
               = Dict.set (documents (tenant w pin)) doc_id
                   (Document.mk (Document.id d) (Document.name d)
                      (Document.parent_id d) (Document.content d)
                      (Document.notes d) (now w))).
Proof.
  intros Hpin id. split; [|split].
  - intros [Hfs Hds] Hfresh data f w1 Hrun.
    destruct (api_create_folder_inv pin data w f w1 Hpin Hrun)
      as (Hid & Hparent & Hfolders & Hdocs).
    fold id in Hid. rewrite Hid in *. clear Hid.
    unfold api_delete_folder. run_handler. rewrite Hfolders, Hdocs.
    replace (Dict.mem id _) with true
      by (symmetry; apply DictFacts.mem_get; rewrite DictFacts.get_set_eq; eauto).
    cbn [negb].
    assert (Hno : ∀ x, x = "" ∨ x ∈ Dict.keys (doc_folders (tenant w pin)) → x ≠ id).
    { intros x [-> | Hin] E; [by apply (hex8_nonempty (uuid4_hi w (uuid4_calls w)))|].
      by subst x. }
    replace (has_child_document id _) with false.
    2:{ symmetry. apply not_true_iff_false.
        intros (d & (kd & -> & Hin)%list_elem_of_fmap & Hp)%has_child_document_true.
        rewrite Forall_forall in Hds. destruct (Hds _ Hin) as (_ & _ & Hpok & _).
        by apply (Hno id (Hpok id Hp)). }
    replace (has_child_folder id _) with false.
    2:{ symmetry. apply not_true_iff_false.
        intros (f0 & (kf & -> & Hin)%list_elem_of_fmap & Hne & Hp)%has_child_folder_true.
        destruct kf as [k f0]. apply elem_of_set in Hin as [[= -> ->]|Hin].
        - apply Hne. simpl.
          revert Hrun. unfold api_create_folder. exec_cases. by intros [= <- _].
        - rewrite Forall_forall in Hfs. destruct (Hfs _ Hin) as (_ & _ & Hpok).
          by apply (Hno id (Hpok id Hp)). }
    cbn [orb]. run_handler. unfold save_docs. eexists. split; [reflexivity|].
    rewrite tenant_insert, decide_True by done. cbn [doc_folders documents].
    split; [|done]. by apply DictFacts2.pop_set_fresh.
  - intros Hfresh data d w1. unfold api_create_doc. exec_cases.
    intros [= <- <-]. cbn [Document.id]. unfold api_delete_doc. exec.
    match goal with H : truthy _ = true |- _ => rewrite H end. exec.
    rewrite tenant_insert, decide_True by done. cbn [doc_folders documents].
    replace (Dict.mem _ _) with true
      by (symmetry; apply DictFacts.mem_get; rewrite DictFacts.get_set_eq; eauto).
    cbn [negb]. exec. eexists. split; [reflexivity|].
    rewrite tenant_insert, decide_True by done. cbn [doc_folders documents].
    split; [done|]. by apply DictFacts2.pop_set_fresh.
  - intros doc_id d data n w1 Hd Hfresh. unfold api_add_note. exec. rewrite Hpin. exec.
    rewrite Hd. exec_cases. intros [= <- <-]. cbn [DocNote.id].
    unfold api_delete_note. exec. rewrite Hpin. exec.
    rewrite tenant_insert, decide_True by done. cbn [doc_folders documents].
    rewrite DictFacts.get_set_eq. exec. cbn [Document.notes].
    replace (Dict.mem _ _) with true
      by (symmetry; apply DictFacts.mem_get; rewrite DictFacts.get_set_eq; eauto).
    exec. eexists. split; [reflexivity|].
    rewrite tenant_insert, decide_True by done. cbn [doc_folders documents].
    split; [done|].
    rewrite DictFacts2.set_set. cbn [Document.id Document.name Document.parent_id
                                      Document.content Document.notes].
    by rewrite DictFacts2.pop_set_fresh.
Qed.

Lemma docs_create_delete_roundtrip_witness :
  ∃ w2, api_delete_doc (Some "pin") "00000001"
          (serve (api_create_doc (Some "pin") (mkDocData (Some "New") (Some "fa") None))
             ex_docs_world)
        = Ok (tt, w2)
        ∧ documents (tenant w2 "pin") = ex_documents.
Proof.
  pose proof (docs_create_delete_roundtrip "pin" ex_docs_world eq_refl) as (_ & H & _).
  assert (Hfresh : hex8 (uuid4_hi ex_docs_world (uuid4_calls ex_docs_world))
                   ∉ Dict.keys (documents (tenant ex_docs_world "pin")))
    by compute_done.
  destruct (H Hfresh (mkDocData (Some "New") (Some "fa") None)
              (Document.mk "00000001" "New" (Some "fa")
                 ("# New" +:+ String "010" (String "010" ("Start writing..." +:+ String "010" "")))
                 [] 0%Z)
              (serve (api_create_doc (Some "pin") (mkDocData (Some "New") (Some "fa") None))
                 ex_docs_world) eq_refl) as (w2 & Hrun & _ & Hdocs).
  by exists w2.
Defined.

(** ** Identifiers *)

Lemma hex_digit_cases n :
  hex_digit n ∈ ["0"; "1"; "2"; "3"; "4"; "5"; "6"; "7"; "8"; "9";
                 "a"; "b"; "c"; "d"; "e"; "f"]%char.
Proof.
  destruct n as [|p]; [set_solver|].
  do 4 (try destruct p as [p|p|]); simpl; set_solver.
Qed.

Lemma hex_digit_is_hex n : is_hex_char (hex_digit n) = true.
Proof.
  pose proof (hex_digit_cases n) as H.
  repeat (apply elem_of_cons in H as [-> |H]; [done|]).
  by apply elem_of_nil in H.
Qed.

Lemma hex_val_digit n : (n < 16)%N → hex_val (hex_digit n) = n.
Proof.
  intros Hn. destruct n as [|p]; [done|].
  do 4 (try destruct p as [p|p|]); try done; lia.
Qed.

Lemma land_15_lt x : (N.land x 15 < 16)%N.
Proof.
  change 15%N with (N.ones 4). rewrite N.land_ones. by apply N.mod_lt.
Qed.

Lemma nibble_inj v v' i :
  nibble v i = nibble v' i →
  N.land (N.shiftr v (4 * i)) 15 = N.land (N.shiftr v' (4 * i)) 15.
Proof.
  unfold nibble. intros E. apply (f_equal hex_val) in E.
  by rewrite !hex_val_digit in E by apply land_15_lt.
Qed.

Lemma nibble_bits v v' i j :
  N.land (N.shiftr v (4 * i)) 15 = N.land (N.shiftr v' (4 * i)) 15 →
  (j < 4)%N →
  N.testbit v (j + 4 * i) = N.testbit v' (j + 4 * i).
Proof.
  intros E Hj. apply (f_equal (λ x, N.testbit x j)) in E.
  rewrite !N.land_spec, !N.shiftr_spec' in E.
  replace (N.testbit 15 j) with true in E; [by rewrite !andb_true_r in E|].
  destruct j as [|p]; [done|]. do 2 (try destruct p as [p|p|]); try done; lia.
Qed.

Lemma hex8_inj v v' :
  hex8 v = hex8 v' → (v mod 2 ^ 32 = v' mod 2 ^ 32)%N.
Proof.
  unfold hex8. intros [= E7 E6 E5 E4 E3 E2 E1 E0].
  apply nibble_inj in E0, E1, E2, E3, E4, E5, E6, E7.
  apply N.bits_inj. intros n.
  destruct (decide (n < 32)%N) as [Hn|Hn].
  - rewrite !N.mod_pow2_bits_low by done.
    assert (∃ k, n = N.of_nat k ∧ k < 32) as (k & -> & Hk).
    { exists (N.to_nat n). split; lia. }
    do 32 (destruct k as [|k];
           [first [ exact (nibble_bits v v' 0 0 E0 eq_refl)
                  | exact (nibble_bits v v' 0 1 E0 eq_refl)
                  | exact (nibble_bits v v' 0 2 E0 eq_refl)
                  | exact (nibble_bits v v' 0 3 E0 eq_refl)
                  | exact (nibble_bits v v' 1 0 E1 eq_refl)
                  | exact (nibble_bits v v' 1 1 E1 eq_refl)
                  | exact (nibble_bits v v' 1 2 E1 eq_refl)
                  | exact (nibble_bits v v' 1 3 E1 eq_refl)
                  | exact (nibble_bits v v' 2 0 E2 eq_refl)
                  | exact (nibble_bits v v' 2 1 E2 eq_refl)
                  | exact (nibble_bits v v' 2 2 E2 eq_refl)
                  | exact (nibble_bits v v' 2 3 E2 eq_refl)
                  | exact (nibble_bits v v' 3 0 E3 eq_refl)
                  | exact (nibble_bits v v' 3 1 E3 eq_refl)
                  | exact (nibble_bits v v' 3 2 E3 eq_refl)
                  | exact (nibble_bits v v' 3 3 E3 eq_refl)
                  | exact (nibble_bits v v' 4 0 E4 eq_refl)
                  | exact (nibble_bits v v' 4 1 E4 eq_refl)
                  | exact (nibble_bits v v' 4 2 E4 eq_refl)
                  | exact (nibble_bits v v' 4 3 E4 eq_refl)
                  | exact (nibble_bits v v' 5 0 E5 eq_refl)
                  | exact (nibble_bits v v' 5 1 E5 eq_refl)
                  | exact (nibble_bits v v' 5 2 E5 eq_refl)
                  | exact (nibble_bits v v' 5 3 E5 eq_refl)
                  | exact (nibble_bits v v' 6 0 E6 eq_refl)
                  | exact (nibble_bits v v' 6 1 E6 eq_refl)
                  | exact (nibble_bits v v' 6 2 E6 eq_refl)
                  | exact (nibble_bits v v' 6 3 E6 eq_refl)
                  | exact (nibble_bits v v' 7 0 E7 eq_refl)
                  | exact (nibble_bits v v' 7 1 E7 eq_refl)
                  | exact (nibble_bits v v' 7 2 E7 eq_refl)
                  | exact (nibble_bits v v' 7 3 E7 eq_refl) ]|]).
    lia.
  - rewrite !N.mod_pow2_bits_high by lia. done.
Qed.

Lemma NoDup_fmap_factor {A B C} (f : A → B) (h : A → C) (l : list A) :
  (∀ x y, h x = h y → f x = f y) → NoDup (f <$> l) → NoDup (h <$> l).
Proof.
  intros Hfh. induction l as [|x l IH]; simpl; [constructor|].
  rewrite !NoDup_cons. intros [Hx Hl]. split; [|by apply IH].
  intros (y & Hy & Hin)%list_elem_of_fmap. apply Hx.
  apply list_elem_of_fmap. exists y. split; [by apply Hfh|done].
Qed.

(** [gen_id] always answers, with eight characters of [0-9a-f], and draws
    one [uuid4]; two identifiers are equal only if the leading 32 bits of
    their [uuid4]s are, so a generator whose next draws differ in those
    bits hands out distinct identifiers. *)
Theorem gen_id_format w :
  (∃ id, gen_id w = Ok (id, skip_ids 1 w)
         ∧ String.length id = 8
         ∧ Forall (λ c, is_hex_char c = true) (list_ascii_of_string id))
  ∧ (∀ v v', hex8 v = hex8 v' → (v mod 2 ^ 32 = v' mod 2 ^ 32)%N)
  ∧ (∀ n, NoDup ((λ i, (uuid4_hi w i mod 2 ^ 32)%N) <$> seq (uuid4_calls w) n) →
          NoDup (drawn_ids w n)).
Proof.
  split; [|split].
  - exists (hex8 (uuid4_hi w (uuid4_calls w))). split; [apply gen_id_run|].
    split; [done|]. unfold hex8, nibble. cbn [list_ascii_of_string].
    repeat constructor; apply hex_digit_is_hex.
  - apply hex8_inj.
  - intros n. unfold drawn_ids. apply NoDup_fmap_factor.
    intros x y. apply hex8_inj.
Qed.
(** ** Slugs *)

Section strings.
Context (C : ascii → bool).

Lemma keep_forall s : string_forall C (keep C s) = true.
Proof.
  induction s as [|c s IH]; simpl; [done|].
  destruct (C c) eqn:E; simpl; [by rewrite E|done].
Qed.

Lemma keep_id s : string_forall C s = true → keep C s = s.
Proof.
  induction s as [|c s IH]; simpl; [done|].
  intros [-> Hs]%andb_true_iff. by rewrite IH.
Qed.

Lemma lstrip_by_forall (Q : ascii → bool) s :
  string_forall Q s = true → string_forall Q (lstrip_by C s) = true.
Proof.
  induction s as [|c s IH]; simpl; [done|].
  intros [Hc Hs]%andb_true_iff. destruct (C c); [by apply IH|].
  simpl. by rewrite Hc, Hs.
Qed.

Lemma rstrip_by_forall (Q : ascii → bool) s :
  string_forall Q s = true → string_forall Q (rstrip_by C s) = true.
Proof.
  induction s as [|c s IH]; simpl; [done|].
  intros [Hc Hs]%andb_true_iff. specialize (IH Hs).
  destruct (rstrip_by C s) as [|d r].
  - destruct (C c); simpl; [done|by rewrite Hc].
  - change (Q c && string_forall Q (String d r) = true). by rewrite Hc, IH.
Qed.

Lemma lstrip_by_head s : head_is C (lstrip_by C s) = false.
Proof.
  induction s as [|c s IH]; simpl; [done|].
  destruct (C c) eqn:E; [done|]. simpl. done.
Qed.

Lemma lstrip_by_double s :
  has_double C s = false → has_double C (lstrip_by C s) = false.
Proof.
  induction s as [|c s IH]; simpl; [done|].
  intros [H1 H2]%orb_false_iff. destruct (C c) eqn:Hc; [by apply IH|].
  simpl. by rewrite Hc, H2.
Qed.

Lemma lstrip_by_id s : head_is C s = false → lstrip_by C s = s.
Proof. destruct s as [|c s]; simpl; [done|]. by intros ->. Qed.

Lemma rstrip_by_prefix s d r :
  rstrip_by C s = String d r → ∃ s', s = String d s'.
Proof.
  destruct s as [|c s]; simpl; [done|].
  destruct (rstrip_by C s); [destruct (C c)|]; intros [= -> _]; eauto.
Qed.

Lemma rstrip_by_head_is s :
  head_is C s = false → head_is C (rstrip_by C s) = false.
Proof.
  destruct s as [|c s]; simpl; [done|]. intros Hc.
  destruct (rstrip_by C s); [by rewrite Hc|done].
Qed.

Lemma rstrip_by_last s : last_is C (rstrip_by C s) = false.
Proof.
  induction s as [|c s IH]; simpl; [done|].
  destruct (rstrip_by C s) as [|d r] eqn:E.
  - destruct (C c) eqn:Hc; simpl; done.
  - exact IH.
Qed.

Lemma rstrip_by_double s :
  has_double C s = false → has_double C (rstrip_by C s) = false.
Proof.
  induction s as [|c s IH]; simpl; [done|].
  intros [H1 H2]%orb_false_iff. specialize (IH H2).
  destruct (rstrip_by C s) as [|d r] eqn:E.
  - destruct (C c) eqn:Hc; simpl; [done|by rewrite Hc].
  - destruct (rstrip_by_prefix _ _ _ E) as [s' ->].
    change (C c && C d || has_double C (String d r) = false).
    simpl in H1. by rewrite H1, IH.
Qed.

Lemma rstrip_by_id s : last_is C s = false → rstrip_by C s = s.
Proof.
  induction s as [|c s IH]; [done|].
  destruct s as [|d s].
  - simpl. by intros ->.
  - intros Hlast. change (last_is C (String d s) = false) in Hlast.
    change (match rstrip_by C (String d s) with
            | EmptyString => if C c then EmptyString else String c EmptyString
            | r => String c r
            end = String c (String d s)).
    by rewrite IH.
Qed.

Lemma sub_runs_forall (Q : ascii → bool) b s :
  Q "-"%char = true → string_forall Q s = true →
  string_forall Q (sub_runs C b s) = true.
Proof.
  intros Hdash. revert b. induction s as [|c s IH]; intros b; simpl; [done|].
  intros [Hc Hs]%andb_true_iff.
  destruct (C c); [destruct b|]; simpl; rewrite ?Hdash, ?Hc; simpl; auto.
Qed.

Lemma sub_runs_none b s :
  string_forall (λ c, negb (C c)) s = true → sub_runs C b s = s.
Proof.
  revert b. induction s as [|c s IH]; intros b; simpl; [done|].
  intros [Hc Hs]%andb_true_iff. apply negb_true_iff in Hc. rewrite Hc.
  by rewrite IH.
Qed.
End strings.

Lemma sub_runs_dash_shape b s :
  has_double is_dash (sub_runs is_dash b s) = false
  ∧ (b = true → head_is is_dash (sub_runs is_dash b s) = false).
Proof.
  revert b. induction s as [|c s IH]; intros b; simpl; [done|].
  destruct (is_dash c) eqn:Hc.
  - destruct b.
    + apply IH.
    + destruct (IH true) as [IH1 IH2]. split; [|done]. simpl.
      by rewrite IH1, (IH2 eq_refl).
  - destruct (IH false) as [IH1 _]. split; [|intros _; exact Hc]. simpl.
    by rewrite Hc, IH1.
Qed.

Lemma sub_runs_dash_id b s :
  has_double is_dash s = false →
  (b = true → head_is is_dash s = false) →
  sub_runs is_dash b s = s.
Proof.
  revert b. induction s as [|c s IH]; intros b; simpl; [done|].
  intros [H1 H2]%orb_false_iff Hb. destruct (is_dash c) eqn:Hc.
  - destruct b; [by specialize (Hb eq_refl)|].
    rewrite IH; [|done|by intros _].
    f_equal. unfold is_dash in Hc. apply bool_decide_eq_true in Hc.
    rewrite <- (ascii_nat_embedding c), Hc. done.
  - by rewrite IH.
Qed.

Lemma slug_char_not_space c : slug_char c = true → negb (is_space c) = true.
Proof.
  unfold slug_char, is_space. intros H%bool_decide_eq_true.
  apply negb_true_iff, bool_decide_eq_false. lia.
Qed.

Lemma slug_char_lower c : slug_char c = true → lower_char c = c.
Proof.
  unfold slug_char, lower_char, is_upper. intros H%bool_decide_eq_true.
  rewrite bool_decide_eq_false_2; [done|lia].
Qed.

Lemma string_forall_impl (P Q : ascii → bool) s :
  (∀ c, P c = true → Q c = true) →
  string_forall P s = true → string_forall Q s = true.
Proof.
  intros HPQ. induction s as [|c s IH]; simpl; [done|].
  intros [Hc Hs]%andb_true_iff. by rewrite (HPQ c Hc), IH.
Qed.

Lemma lower_id s : string_forall slug_char s = true → lower s = s.
Proof.
  induction s as [|c s IH]; simpl; [done|].
  intros [Hc Hs]%andb_true_iff. by rewrite slug_char_lower, IH.
Qed.

Lemma lstrip_nonspace s :
  string_forall (λ c, negb (is_space c)) s = true → lstrip s = s.
Proof.
  destruct s as [|c s]; simpl; [done|].
  intros [Hc _]%andb_true_iff. apply negb_true_iff in Hc. by rewrite Hc.
Qed.

Lemma rstrip_nonspace s :
  string_forall (λ c, negb (is_space c)) s = true → rstrip s = s.
Proof.
  induction s as [|c s IH]; simpl; [done|].
  intros [Hc Hs]%andb_true_iff. apply negb_true_iff in Hc. rewrite IH by done.
  destruct s; [by rewrite Hc|done].
Qed.

(** For a name of ASCII characters, on which the helpers above are those
    of Python: the slug is made of the characters [a-z0-9-_.], does not
    begin or end with a dash and has no two dashes in a row; and [slugify]
    leaves the slug as it is, so it is idempotent. *)
Theorem slugify_shape name :
  is_ascii name = true →
  let slug := slugify name in
  string_forall slug_char slug = true
  ∧ head_is is_dash slug = false
  ∧ last_is is_dash slug = false
  ∧ has_double is_dash slug = false
  ∧ slugify slug = slug.
Proof.
  intros _ slug.
  assert (Hchars : string_forall slug_char slug = true).
  { apply rstrip_by_forall, lstrip_by_forall, sub_runs_forall; [done|].
    apply keep_forall. }
  assert (Hhead : head_is is_dash slug = false)
    by apply rstrip_by_head_is, lstrip_by_head.
  assert (Hlast : last_is is_dash slug = false) by apply rstrip_by_last.
  assert (Hdouble : has_double is_dash slug = false)
    by apply rstrip_by_double, lstrip_by_double, sub_runs_dash_shape.
  repeat (split; [done|]).
  assert (Hnonspace : string_forall (λ c, negb (is_space c)) slug = true)
    by (eapply string_forall_impl; [apply slug_char_not_space|done]).
  unfold slugify, strip.
  rewrite (lstrip_nonspace slug), (rstrip_nonspace slug) by done.
  rewrite (lower_id slug), (sub_runs_none is_space false slug) by done.
  rewrite (keep_id slug_char slug), (sub_runs_dash_id false slug) by done.
  by rewrite (lstrip_by_id is_dash slug), (rstrip_by_id is_dash slug).
Qed.

Lemma slugify_shape_witness :
  slugify "  Order Items -- v2.0_final-  " = "order-items-v2.0_final"
  ∧ slugify (slugify "  Order Items -- v2.0_final-  ")
    = slugify "  Order Items -- v2.0_final-  ".
Proof.
  split; [vm_compute; reflexivity|].
  apply (slugify_shape "  Order Items -- v2.0_final-  " eq_refl).
Defined.
